(** * kinescope-dl: the download pipeline of [kinescope/downloader.py]

    A shallow embedding of class [VideoDownloader]: the manifest readers
    ([get_resolutions], [_get_segments_urls]), the ClearKey licence
    exchange ([_get_license_key]), the segment fetcher ([_fetch_segment],
    [_fetch_segments]), the two external tools ([_decrypt_video],
    [_merge_tracks]), the orchestration ([download]) and the finaliser
    ([__del__]).

    Python values are modelled as the program has them: [str] as [string],
    [bytes] as [list byte], [int] as [Z], an attribute that may be [None]
    as [option], a [dict] as a [gmap], a [set] as a [gset].  Exceptions are
    values of [exn]; a function that may raise returns a [result]; a method
    that talks to the network, the file system or a subprocess is a
    function on the [world]. *)

From Stdlib Require Import ZArith NArith Ascii String List Permutation Sorted Lia.
From Stdlib Require Import Strings.Byte.
From stdpp Require Import base option gmap strings list.

Local Open Scope string_scope.
Local Open Scope list_scope.

(** ** Exceptions and results *)

(** The exception classes the pipeline can meet.  The four classes of
    [kinescope.exceptions] carry their message. *)
Inductive exn : Type :=
  | KeyError
  | IndexError
  | TypeError
  | AttributeError
  | ValueError
  | BinasciiError               (* binascii.Error, a subclass of ValueError *)
  | JSONDecodeError             (* a subclass of ValueError *)
  | ChunkedEncodingError        (* requests.exceptions.ChunkedEncodingError *)
  | RequestException            (* any other failure of the transport *)
  | FileNotFoundError
  | IsADirectoryError
  | NotADirectoryError
  | FileExistsError
  | ShutilError
  | OSError                     (* any other failure of the operating system *)
  | UnsupportedEncryption (msg : string)
  | InvalidResolution (msg : string)
  | SegmentDownloadError (msg : string)
  | FFmpegNotFoundError (msg : string).

Inductive result (A : Type) : Type :=
  | Ok (a : A)
  | Raise (e : exn).
Arguments Ok {A} a.
Arguments Raise {A} e.

Definition rbind {A B} (c : result A) (k : A -> result B) : result B :=
  match c with
  | Ok a => k a
  | Raise e => Raise e
  end.

Notation "x <~ c ;; k" := (rbind c (fun x => k))
  (at level 100, c at next level, right associativity).

Fixpoint mapM {A B} (f : A -> result B) (l : list A) : result (list B) :=
  match l with
  | [] => Ok []
  | x :: xs => y <~ f x ;; ys <~ mapM f xs ;; Ok (y :: ys)
  end.

(** [isinstance(e, ValueError)] and [isinstance(e, KeyError)]. *)
Definition is_ValueError (e : exn) : bool :=
  match e with
  | ValueError | BinasciiError | JSONDecodeError => true
  | _ => false
  end.

Definition is_KeyError (e : exn) : bool :=
  match e with
  | KeyError => true
  | _ => false
  end.

(** ** Python primitives *)

(** [l[0]] on an attribute that is a list or [None]. *)
Definition subscript0 {A} (l : option (list A)) : result A :=
  match l with
  | None => Raise TypeError
  | Some [] => Raise IndexError
  | Some (x :: _) => Ok x
  end.

(** [l[i]] on a list. *)
Definition subscript {A} (l : list A) (i : nat) : result A :=
  match nth_error l i with
  | Some x => Ok x
  | None => Raise IndexError
  end.

(** [for x in l] on an attribute that is a list or [None]. *)
Definition iter {A} (l : option (list A)) : result (list A) :=
  match l with
  | None => Raise TypeError
  | Some xs => Ok xs
  end.

(** Truth values of the attributes the code tests. *)
Definition truthy_int (h : option Z) : bool :=
  match h with
  | None => false
  | Some z => negb (z =? 0)%Z
  end.

Definition truthy_str (s : option string) : bool :=
  match s with
  | None | Some "" => false
  | Some _ => true
  end.

Definition truthy_list {A} (l : option (list A)) : bool :=
  match l with
  | None | Some [] => false
  | Some _ => true
  end.

(** [a + b] where [b] is a [str]: defined on [str] only. *)
Definition str_add (a : option string) (b : string) : result string :=
  match a with
  | Some s => Ok (s +:+ b)
  | None => Raise TypeError
  end.

(** [s.replace(c, '')] for a one-character [c]. *)
Fixpoint remove_char (c : ascii) (s : string) : string :=
  match s with
  | EmptyString => EmptyString
  | String d r => if Ascii.eqb c d then remove_char c r else String d (remove_char c r)
  end.

(** [l.index(x)]: the position of the first element equal to [x]. *)
Fixpoint index {A} `{EqDecision A} (x : A) (l : list A) : result nat :=
  match l with
  | [] => Raise ValueError
  | y :: r => if decide (y = x) then Ok 0 else i <~ index x r ;; Ok (S i)
  end.

(** ** [sorted(l, key=...)]

    [sorted] computes every key, then arranges the elements in ascending
    key order, equal keys keeping their order.  Comparing [None] with
    anything raises [TypeError]; a list of at most one element is never
    compared. *)
Section Sorted.
Context {A : Type}.

Fixpoint insert_by_key (x : Z * A) (l : list (Z * A)) : list (Z * A) :=
  match l with
  | [] => [x]
  | y :: r => if (fst x <=? fst y)%Z then x :: y :: r else y :: insert_by_key x r
  end.

Fixpoint sort_by_key (l : list (Z * A)) : list (Z * A) :=
  match l with
  | [] => []
  | x :: r => insert_by_key x (sort_by_key r)
  end.

Definition decorate (key : A -> option Z) (x : A) : result (Z * A) :=
  match key x with
  | Some z => Ok (z, x)
  | None => Raise TypeError
  end.

Definition sorted (key : A -> option Z) (l : option (list A)) : result (list A) :=
  xs <~ iter l ;;
  match xs with
  | [] | [_] => Ok xs
  | _ => d <~ mapM (decorate key) xs ;; Ok (map snd (sort_by_key d))
  end.
End Sorted.

(** ** The manifest, as [mpegdash] parses it

    Every attribute is [None] when the document lacks it. *)
Record SegmentURL := { media : option string }.
Record SegmentList := { segment_urls : option (list SegmentURL) }.
Record BaseURL := { base_url_value : option string }.
Record Representation := {
  width : option Z;
  height : option Z;
  base_urls : option (list BaseURL);
  segment_lists : option (list SegmentList)
}.
Record ContentProtection := { cenc_default_kid : option string }.
Record AdaptationSet := {
  mime_type : option string;
  content_protections : option (list ContentProtection);
  representations : option (list Representation)
}.
Record Period := { adaptation_sets : option (list AdaptationSet) }.
Record MPEGDASH := { periods : option (list Period) }.

(** A resolution is the tuple [(r.width, r.height)]. *)
Definition resolution : Type := option Z * option Z.

Definition resolution_of (r : Representation) : resolution := (width r, height r).

(** ** [get_resolutions] *)

Fixpoint get_resolutions_loop (sets : list AdaptationSet) : result (option (list resolution)) :=
  match sets with
  | [] => Ok None
  | adaptation_set :: rest =>
      r0 <~ subscript0 (representations adaptation_set) ;;
      if truthy_int (height r0) then
        rs <~ sorted height (representations adaptation_set) ;;
        Ok (Some (map resolution_of rs))
      else get_resolutions_loop rest
  end.

Definition get_resolutions (mpd_master : MPEGDASH) : result (option (list resolution)) :=
  p <~ subscript0 (periods mpd_master) ;;
  sets <~ iter (adaptation_sets p) ;;
  get_resolutions_loop sets.

(** ** [_get_segments_urls] *)

(** The list comprehension of lines 135-137. *)
Definition segment_urls_of (representation : Representation) : result (list string) :=
  b <~ subscript0 (base_urls representation) ;;
  let base_url := base_url_value b in
  sl <~ subscript0 (segment_lists representation) ;;
  segs <~ iter (segment_urls sl) ;;
  mapM (fun segment_url => str_add base_url (default "" (media segment_url)))
       (filter (fun segment_url => truthy_str (media segment_url) = true) segs).

(** The representation one adaptation set contributes. *)
Definition select_representation (res : resolution) (adaptation_set : AdaptationSet)
  : result Representation :=
  reps <~ iter (representations adaptation_set) ;;
  let resolutions := map resolution_of reps in
  r0 <~ subscript0 (representations adaptation_set) ;;
  idx <~ (if truthy_int (height r0) then index res resolutions else Ok 0%nat) ;;
  subscript reps idx.

Fixpoint get_segments_urls_loop (res : resolution) (sets : list AdaptationSet)
    (acc : gmap (option string) (list string))
  : result (gmap (option string) (list string)) :=
  match sets with
  | [] => Ok acc
  | adaptation_set :: rest =>
      representation <~ select_representation res adaptation_set ;;
      urls <~ segment_urls_of representation ;;
      get_segments_urls_loop res rest (<[mime_type adaptation_set := urls]> acc)
  end.

Definition _get_segments_urls (mpd_master : MPEGDASH) (res : resolution)
  : result (gmap (option string) (list string)) :=
  match (p <~ subscript0 (periods mpd_master) ;;
         sets <~ iter (adaptation_sets p) ;;
         get_segments_urls_loop res sets ∅) with
  | Raise e => if is_ValueError e then Raise (InvalidResolution "Invalid resolution specified")
               else Raise e
  | Ok d => Ok d
  end.

(** ** JSON values, as [Response.json()] returns them

    [JObj] lists the items of the [dict]; [JNum] keeps the literal of a
    number, which the code only ever subscripts or adds a [str] to. *)
#[warnings="-register-all"]
Inductive json : Type :=
  | JNull
  | JBool (b : bool)
  | JNum (lit : string)
  | JStr (s : string)
  | JArr (elems : list json)
  | JObj (items : list (string * json)).

Fixpoint dict_get (items : list (string * json)) (key : string) : option json :=
  match items with
  | [] => None
  | (k, v) :: r => if String.eqb k key then Some v else dict_get r key
  end.

(** [v[key]] for a [str] key. *)
Definition getitem_str (v : json) (key : string) : result json :=
  match v with
  | JObj items =>
      match dict_get items key with
      | Some x => Ok x
      | None => Raise KeyError
      end
  | _ => Raise TypeError
  end.

(** [v[0]]: the first element of a list, the first character of a [str];
    a [dict] parsed from JSON has only [str] keys, so [0] is never one. *)
Definition getitem_0 (v : json) : result json :=
  match v with
  | JArr [] => Raise IndexError
  | JArr (x :: _) => Ok x
  | JStr EmptyString => Raise IndexError
  | JStr (String c _) => Ok (JStr (String c EmptyString))
  | JObj _ => Raise KeyError
  | _ => Raise TypeError
  end.

(** [v + '==']. *)
Definition json_add_str (v : json) (suffix : string) : result string :=
  match v with
  | JStr s => Ok (s +:+ suffix)
  | _ => Raise TypeError
  end.

(** ** Byte codecs: [bytes.hex], [bytes.fromhex], [b64encode], [b64decode] *)

Definition byte_of_N (n : N) : byte :=
  match Byte.of_N (n mod 256) with
  | Some b => b
  | None => x00
  end.

Definition is_ascii (c : ascii) : bool := (N_of_ascii c <? 128)%N.

Fixpoint all_ascii (s : string) : bool :=
  match s with
  | EmptyString => true
  | String c r => is_ascii c && all_ascii r
  end.

Definition hex_char (n : N) : ascii :=
  ascii_of_N (if (n <? 10)%N then n + 48 else n + 87).

(** [b.hex()]: two lower-case digits per byte. *)
Fixpoint hex (b : list byte) : string :=
  match b with
  | [] => EmptyString
  | x :: r =>
      let n := Byte.to_N x in
      String (hex_char (N.shiftr n 4)) (String (hex_char (N.land n 15)) (hex r))
  end.

Definition hex_digit (c : ascii) : option N :=
  let n := N_of_ascii c in
  if ((48 <=? n) && (n <=? 57))%N then Some (n - 48)%N
  else if ((97 <=? n) && (n <=? 102))%N then Some (n - 87)%N
  else if ((65 <=? n) && (n <=? 70))%N then Some (n - 55)%N
  else None.

(** [Py_ISSPACE]: tab, line feed, vertical tab, form feed, carriage
    return and space. *)
Definition is_space (c : ascii) : bool :=
  let n := N_of_ascii c in
  (((9 <=? n) && (n <=? 13)) || (n =? 32))%N.

(** [bytes.fromhex(s)]: white space is skipped before a pair of digits;
    anything else that is not a pair of hexadecimal digits is a
    [ValueError]. *)
Fixpoint fromhex (s : string) : result (list byte) :=
  match s with
  | EmptyString => Ok []
  | String c r =>
      if is_space c then fromhex r
      else
        match hex_digit c, r with
        | Some top, String d r' =>
            match hex_digit d with
            | Some bot => bs <~ fromhex r' ;; Ok (byte_of_N (16 * top + bot) :: bs)
            | None => Raise ValueError
            end
        | _, _ => Raise ValueError
        end
  end.

(** The standard base64 alphabet. *)
Definition b64_char (n : N) : ascii :=
  ascii_of_N (if (n <? 26)%N then n + 65
              else if (n <? 52)%N then n + 71
              else if (n <? 62)%N then n - 4
              else if (n =? 62)%N then 43 else 47).

Definition b64_value (c : ascii) : option N :=
  let n := N_of_ascii c in
  if ((65 <=? n) && (n <=? 90))%N then Some (n - 65)%N
  else if ((97 <=? n) && (n <=? 122))%N then Some (n - 71)%N
  else if ((48 <=? n) && (n <=? 57))%N then Some (n + 4)%N
  else if (n =? 43)%N then Some 62%N
  else if (n =? 47)%N then Some 63%N
  else None.

(** [b64encode(b).decode()]: three bytes give four characters, the last
    group is padded with ['=']. *)
Fixpoint b64encode (b : list byte) : string :=
  match b with
  | [] => EmptyString
  | [x] =>
      let n := Byte.to_N x in
      String (b64_char (N.shiftr n 2))
        (String (b64_char (N.shiftl (N.land n 3) 4)) "==")
  | [x; y] =>
      let n := Byte.to_N x in
      let m := Byte.to_N y in
      String (b64_char (N.shiftr n 2))
        (String (b64_char (N.lor (N.shiftl (N.land n 3) 4) (N.shiftr m 4)))
           (String (b64_char (N.shiftl (N.land m 15) 2)) "="))
  | x :: y :: z :: r =>
      let n := Byte.to_N x in
      let m := Byte.to_N y in
      let o := Byte.to_N z in
      String (b64_char (N.shiftr n 2))
        (String (b64_char (N.lor (N.shiftl (N.land n 3) 4) (N.shiftr m 4)))
           (String (b64_char (N.lor (N.shiftl (N.land m 15) 2) (N.shiftr o 6)))
              (String (b64_char (N.land o 63)) (b64encode r))))
  end.

(** [binascii.a2b_base64] in its default, lenient mode: characters
    outside the alphabet are skipped, a pad character ends the input once
    it completes a group of four, and leftover characters of an unfinished
    group are an error. *)
Fixpoint a2b_base64 (s : string) (quad_pos : nat) (leftchar : N) (pads : nat)
  : result (list byte) :=
  match s with
  | EmptyString =>
      match quad_pos with
      | O => Ok []
      | _ => Raise BinasciiError
      end
  | String c r =>
      if Ascii.eqb c "="%char then
        if (2 <=? quad_pos)%nat then
          if (4 <=? quad_pos + S pads)%nat then Ok []
          else a2b_base64 r quad_pos leftchar (S pads)
        else a2b_base64 r quad_pos leftchar pads
      else
        match b64_value c with
        | None => a2b_base64 r quad_pos leftchar pads
        | Some v =>
            match quad_pos with
            | 0%nat => a2b_base64 r 1 v 0
            | 1%nat =>
                bs <~ a2b_base64 r 2 (N.land v 15) 0 ;;
                Ok (byte_of_N (N.lor (N.shiftl leftchar 2) (N.shiftr v 4)) :: bs)
            | 2%nat =>
                bs <~ a2b_base64 r 3 (N.land v 3) 0 ;;
                Ok (byte_of_N (N.lor (N.shiftl leftchar 4) (N.shiftr v 2)) :: bs)
            | _ =>
                bs <~ a2b_base64 r 0 0 0 ;;
                Ok (byte_of_N (N.lor (N.shiftl leftchar 6) v) :: bs)
            end
        end
  end.

(** [b64decode(s)] for a [str]: the text must be ASCII. *)
Definition b64decode (s : string) : result (list byte) :=
  if all_ascii s then a2b_base64 s 0 0 0 else Raise ValueError.

(** ** Paths, as [pathlib] has them

    A path is the tuple of its parts; an absolute path starts with the
    part ["/"], and the empty tuple is the current directory. *)
Abbreviation path := (list string).

Fixpoint split_on (c : ascii) (s : string) : list string :=
  match s with
  | EmptyString => [EmptyString]
  | String d r =>
      if Ascii.eqb c d then EmptyString :: split_on c r
      else match split_on c r with
           | x :: xs => String d x :: xs
           | [] => [String d EmptyString]
           end
  end.

Definition is_absolute (s : string) : bool :=
  match s with
  | String "/" _ => true
  | _ => false
  end.

(** [Path(s)]: empty parts and ["."] parts are dropped. *)
Definition Path (s : string) : path :=
  let parts := filter (fun x => x ≠ "" ∧ x ≠ ".") (split_on "/" s) in
  if is_absolute s then "/" :: parts else parts.

Fixpoint join_parts (l : list string) : string :=
  match l with
  | [] => ""
  | [x] => x
  | x :: r => x +:+ "/" +:+ join_parts r
  end.

(** [str(p)]. *)
Definition fspath (p : path) : string :=
  match p with
  | [] => "."
  | "/" :: r => "/" +:+ join_parts r
  | _ => join_parts p
  end.

(** [p / s]. *)
Definition joinpath (p : path) (s : string) : path :=
  if is_absolute s then Path s else p ++ Path s.

(** [p.name] and [p.parent]. *)
Definition name (p : path) : string :=
  match p with
  | ["/"] => ""
  | _ => List.last p ""
  end.

Definition parent (p : path) : path :=
  match p with
  | ["/"] => p
  | _ => removelast p
  end.

Fixpoint rfind (c : ascii) (s : string) : option nat :=
  match s with
  | EmptyString => None
  | String d r =>
      match rfind c r with
      | Some i => Some (S i)
      | None => if Ascii.eqb c d then Some 0%nat else None
      end
  end.

(** [name[i:]] for the last dot of [name], when that dot is neither the
    first nor the last character. *)
Definition suffix_of_name (nm : string) : string :=
  match rfind "." nm with
  | Some i =>
      if ((0 <? i) && (i <? String.length nm - 1))%nat
      then substring i (String.length nm - i) nm
      else ""
  | None => ""
  end.

Definition path_suffix (p : path) : string := suffix_of_name (name p).

Definition valid_suffix (sfx : string) : bool :=
  match sfx with
  | EmptyString => true
  | String "." EmptyString => false
  | String "." r => negb (existsb (Ascii.eqb "/") (list_ascii_of_string r))
  | _ => false
  end.

(** [p.with_suffix(sfx)]. *)
Definition with_suffix (p : path) (sfx : string) : result path :=
  if negb (valid_suffix sfx) then Raise ValueError
  else
    let nm := name p in
    match nm with
    | EmptyString => Raise ValueError
    | _ =>
        let old_suffix := suffix_of_name nm in
        let stem := substring 0 (String.length nm - String.length old_suffix) nm in
        Ok (removelast p ++ [stem +:+ sfx])
    end.

(** ** The file system *)
Inductive node : Type :=
  | File (content : list byte)
  | Dir.

Abbreviation filesystem := (gmap (list string) node).

Definition is_dir (f : filesystem) (p : path) : bool :=
  match p with
  | [] => true
  | _ => match f !! p with Some Dir => true | _ => false end
  end.

Definition path_exists (f : filesystem) (p : path) : bool :=
  match p with
  | [] => true
  | _ => match f !! p with Some _ => true | None => false end
  end.

(** The directory an entry is created in must exist. *)
Definition check_parent (f : filesystem) (p : path) : result unit :=
  if is_dir f (parent p) then Ok tt
  else if path_exists f (parent p) then Raise NotADirectoryError
  else Raise FileNotFoundError.

(** [open(p, 'wb')]: creates the file or truncates it. *)
Definition open_wb (p : path) (f : filesystem) : result unit * filesystem :=
  if is_dir f p then (Raise IsADirectoryError, f)
  else match check_parent f p with
       | Ok _ => (Ok tt, <[p := File []]> f)
       | Raise e => (Raise e, f)
       end.

(** [file.write(data)] on the file opened at [p]. *)
Definition write (p : path) (data : list byte) (f : filesystem) : filesystem :=
  match f !! p with
  | Some (File c) => <[p := File (c ++ data)]> f
  | _ => f
  end.

(** [os.mkdir(p)]. *)
Definition os_mkdir (p : path) (f : filesystem) : result unit * filesystem :=
  if path_exists f p then (Raise FileExistsError, f)
  else match check_parent f p with
       | Ok _ => (Ok tt, <[p := Dir]> f)
       | Raise e => (Raise e, f)
       end.

(** [p.mkdir(parents=True, exist_ok=True)]: a missing parent is created
    first; an error is forgiven when [p] is a directory in the end. *)
Fixpoint mkdir_parents_upto (depth : nat) (p : path) (f : filesystem)
  : result unit * filesystem :=
  match os_mkdir p f with
  | (Ok _, f') => (Ok tt, f')
  | (Raise FileNotFoundError, _) =>
      match depth with
      | O => (Raise FileNotFoundError, f)
      | S d =>
          match mkdir_parents_upto d (parent p) f with
          | (Ok _, f1) =>
              match os_mkdir p f1 with
              | (Ok _, f2) => (Ok tt, f2)
              | (Raise e, _) => if is_dir f1 p then (Ok tt, f1) else (Raise e, f1)
              end
          | (Raise e, f1) => (Raise e, f1)
          end
      end
  | (Raise e, _) => if is_dir f p then (Ok tt, f) else (Raise e, f)
  end.

Definition mkdir_parents (p : path) (f : filesystem) : result unit * filesystem :=
  mkdir_parents_upto (length p) p f.

(** [shutil.rmtree(p)]: everything below [p] disappears, then [p]. *)
Definition rmtree (p : path) (f : filesystem) : result unit * filesystem :=
  if negb (path_exists f p) then (Raise FileNotFoundError, f)
  else if negb (is_dir f p) then (Raise NotADirectoryError, f)
  else
    let f' := filter (fun e => ¬ p `prefix_of` e.1) f in
    match p with
    | [] => (Raise OSError, f')     (* the current directory itself cannot be removed *)
    | _ => (Ok tt, f')
    end.

(** [os.rename(src, dst)]: a file replaces a file; a directory takes
    everything below it along and needs a free destination. *)
Definition relocate (src dst : path) (f : filesystem) : filesystem :=
  list_to_map
    (map (fun e : path * node =>
            if decide (src `prefix_of` e.1) then (dst ++ drop (length src) e.1, e.2) else e)
         (map_to_list f)).

Definition os_rename (src dst : path) (f : filesystem) : result unit * filesystem :=
  match f !! src with
  | None => (Raise FileNotFoundError, f)
  | Some n =>
      if decide (src = dst) then (Ok tt, f)
      else match check_parent f dst with
           | Raise e => (Raise e, f)
           | Ok _ =>
               match n with
               | File c =>
                   if is_dir f dst then (Raise IsADirectoryError, f)
                   else (Ok tt, <[dst := File c]> (delete src f))
               | Dir =>
                   if path_exists f dst then (Raise FileExistsError, f)
                   else (Ok tt, relocate src dst f)
               end
           end
  end.

(** [shutil.move(src, dst)]: into [dst] when [dst] is a directory, onto
    [dst] otherwise. *)
Definition move (src dst : path) (f : filesystem) : result unit * filesystem :=
  if is_dir f dst then
    if decide (src = dst) then (Ok tt, f)
    else
      let real_dst := dst ++ [name src] in
      if path_exists f real_dst then (Raise ShutilError, f)
      else os_rename src real_dst f
  else os_rename src dst f.

(** ** The world: network, file system, subprocesses *)

(** An element of the argument list of a subprocess: a [str] or a [Path]. *)
Inductive arg : Type :=
  | Str (s : string)
  | PathArg (p : path).

Inductive request : Type :=
  | GET (url : string) (headers : list (string * string))
  | POST (url : string) (headers : list (string * string)) (body : json).

(** Everything outside the program.  Each answer may depend on the
    requests made so far.  [http_get] is [Session.get(url).content],
    [http_get_mpd] is [MPEGDASHParser.parse(Session.get(url).text)], the
    parser's own handling of the text included, [http_post] is
    [Session.post(url, json=body).json()]; [popen] is
    [Popen(args).communicate()], [None] when the executable cannot be
    started ([FileNotFoundError]), otherwise the file system the tool
    leaves behind.  [sys_frozen] is the truth value of
    [getattr(sys, 'frozen', False)], [sys_MEIPASS] is [sys._MEIPASS], [None]
    when [sys] has no such attribute, and [resolve] is [Path.resolve()]. *)
Record Env := {
  KINESCOPE_BASE_URL : string;
  http_get : list request -> string -> result (list byte);
  http_get_mpd : list request -> string -> list (string * string) -> result MPEGDASH;
  http_post : list request -> string -> list (string * string) -> json -> result json;
  popen : list arg -> filesystem -> option filesystem;
  sys_frozen : bool;
  sys_MEIPASS : option string;
  resolve : path -> result path
}.

Record world := {
  net : list request;           (* the requests of the session, oldest first *)
  fs : filesystem;
  procs : list (list arg)       (* the command lines started, oldest first *)
}.

Definition M (A : Type) : Type := world -> result A * world.

Definition ret {A} (a : A) : M A := fun w => (Ok a, w).
Definition raise {A} (e : exn) : M A := fun w => (Raise e, w).
Definition lift {A} (r : result A) : M A := fun w => (r, w).

Definition bind {A B} (c : M A) (k : A -> M B) : M B :=
  fun w =>
    match c w with
    | (Ok a, w') => k a w'
    | (Raise e, w') => (Raise e, w')
    end.

Notation "x <- c ;; k" := (bind c (fun x => k))
  (at level 100, c at next level, right associativity).

(** [try: c  except <handled>: h]. *)
Definition try_except {A} (c : M A) (handled : exn -> bool) (h : M A) : M A :=
  fun w =>
    match c w with
    | (Raise e, w') => if handled e then h w' else (Raise e, w')
    | r => r
    end.

Definition on_fs (op : filesystem -> result unit * filesystem) : M unit :=
  fun w =>
    let (r, f) := op (fs w) in
    (r, {| net := net w; fs := f; procs := procs w |}).

Definition sent (r : request) (w : world) : world :=
  {| net := net w ++ [r]; fs := fs w; procs := procs w |}.

Definition started (args : list arg) (f : filesystem) (w : world) : world :=
  {| net := net w; fs := f; procs := procs w ++ [args] |}.

(** ** The downloader object *)

(** [KinescopeVideo], of which the downloader uses the identifier and the
    two URLs it derives from it. *)
Record KinescopeVideo := {
  video_id : string;
  get_mpd_master_playlist_url : string;
  get_clearkey_license_url : string
}.

Record VideoDownloader := {
  kinescope_video : KinescopeVideo;
  temp_path : path;
  ffmpeg_path : arg;
  mp4decrypt_path : arg;
  mpd_master : MPEGDASH;
  audio_only : bool
}.

Section Downloader.
Variable env : Env.

(** *** [_fetch_mpd_master] and [__init__] *)
Definition _fetch_mpd_master (video : KinescopeVideo) : M MPEGDASH :=
  fun w =>
    let url := get_mpd_master_playlist_url video in
    let headers := [("Referer", KINESCOPE_BASE_URL env)] in
    (http_get_mpd env (net w) url headers, sent (GET url headers) w).

(** The condition of line 31: the directory of a bundled program. *)
Definition bundle_dir : option string :=
  if sys_frozen env then sys_MEIPASS env else None.

(** Lines 31-37: a bundled program takes both tools from its bundle
    directory, whatever paths it was given. *)
Definition tool_paths (ffmpeg mp4decrypt : arg) : result (arg * arg) :=
  match bundle_dir with
  | Some meipass =>
      meipass_path <~ resolve env (Path meipass) ;;
      Ok (PathArg (joinpath meipass_path "ffmpeg"),
          PathArg (joinpath meipass_path "mp4decrypt"))
  | None => Ok (ffmpeg, mp4decrypt)
  end.

Definition __init__ (video : KinescopeVideo) (temp_dir : string)
    (ffmpeg mp4decrypt : arg) (audio : bool) : M VideoDownloader :=
  _ <- on_fs (mkdir_parents (Path temp_dir)) ;;
  tools <- lift (tool_paths ffmpeg mp4decrypt) ;;
  mpd <- _fetch_mpd_master video ;;
  ret {| kinescope_video := video; temp_path := Path temp_dir;
         ffmpeg_path := fst tools; mp4decrypt_path := snd tools;
         mpd_master := mpd; audio_only := audio |}.

(** *** [__del__] *)
Definition __del__ (self : VideoDownloader) : M unit :=
  on_fs (rmtree (temp_path self)).

(** *** [_merge_tracks] and [_decrypt_video] *)
Definition Popen (args : list arg) : M unit :=
  fun w =>
    match popen env args (fs w) with
    | Some f => (Ok tt, started args f w)
    | None => (Raise FileNotFoundError, w)
    end.

Definition is_FileNotFoundError (e : exn) : bool :=
  match e with
  | FileNotFoundError => true
  | _ => false
  end.

Definition _merge_tracks (self : VideoDownloader) (source_filepaths : list path)
    (target_filepath : path) : M unit :=
  let args := [ffmpeg_path self]
              ++ concat (map (fun p => [Str "-i"; PathArg p]) source_filepaths)
              ++ [Str "-c"; Str "copy"; PathArg target_filepath]
              ++ [Str "-y"; Str "-loglevel"; Str "error"] in
  try_except (Popen args) is_FileNotFoundError
    (raise (FFmpegNotFoundError "FFmpeg binary was not found at the specified path")).

Definition _decrypt_video (self : VideoDownloader) (source_filepath target_filepath : path)
    (key : string) : M unit :=
  try_except
    (Popen [mp4decrypt_path self; Str "--key"; Str ("1:" +:+ key);
            PathArg source_filepath; PathArg target_filepath])
    is_FileNotFoundError
    (raise (FFmpegNotFoundError "mp4decrypt binary was not found at the specified path")).

(** *** [_get_license_key] *)
Definition first_adaptation_set (mpd : MPEGDASH) : result AdaptationSet :=
  p <~ subscript0 (periods mpd) ;;
  subscript0 (adaptation_sets p).

(** The [kids] entry of the request: lines 79-85. *)
Definition request_kid (mpd : MPEGDASH) : result string :=
  a <~ first_adaptation_set mpd ;;
  cp <~ subscript0 (content_protections a) ;;
  match cenc_default_kid cp with
  | None => Raise AttributeError
  | Some kid =>
      raw <~ fromhex (remove_char "-" kid) ;;
      Ok (remove_char "=" (b64encode raw))
  end.

Definition license_request (kid : string) : json :=
  JObj [("kids", JArr [JStr kid]); ("type", JStr "temporary")].

(** What the code does with the answer: lines 73 and 89-90. *)
Definition key_of_response (response : json) : result string :=
  keys <~ getitem_str response "keys" ;;
  key0 <~ getitem_0 keys ;;
  k <~ getitem_str key0 "k" ;;
  padded <~ json_add_str k "==" ;;
  raw <~ b64decode padded ;;
  Ok (hex raw).

Definition _get_license_key (self : VideoDownloader) : M (option string) :=
  try_except
    (a <- lift (first_adaptation_set (mpd_master self)) ;;
     if truthy_list (content_protections a) then
       let url := get_clearkey_license_url (kinescope_video self) in
       let headers := [("origin", KINESCOPE_BASE_URL env)] in
       kid <- lift (request_kid (mpd_master self)) ;;
       response <- (fun w =>
                      (http_post env (net w) url headers (license_request kid),
                       sent (POST url headers (license_request kid)) w)) ;;
       key <- lift (key_of_response response) ;;
       ret (Some key)
     else ret None)
    is_KeyError
    (raise (UnsupportedEncryption
              ("Unfortunately, only the ClearKey encryption type is currently supported, "
               +:+ "but not the one in this video"))).

(** *** [_fetch_segment] *)

(** One pass of the [for _ in range(5)] loop per unit of [attempts]. *)
Fixpoint fetch_segment_attempts (attempts : nat) (segment_url : string) (file : path)
  : M unit :=
  match attempts with
  | O => raise (SegmentDownloadError ("Failed to download segment " +:+ segment_url))
  | S n =>
      fun w =>
        let w1 := sent (GET segment_url []) w in
        match http_get env (net w) segment_url with
        | Ok body =>
            (Ok tt, {| net := net w1; fs := write file body (fs w1); procs := procs w1 |})
        | Raise ChunkedEncodingError => fetch_segment_attempts n segment_url file w1
        | Raise e => (Raise e, w1)
        end
  end.

Definition _fetch_segment (segment_url : string) (file : path) : M unit :=
  fetch_segment_attempts 5 segment_url file.

(** *** [_fetch_segments]

    The progress bar only prints. *)
Fixpoint fetch_segments_loop (segments_urls : list string) (file : path)
    (visited_urls : gset string) : M unit :=
  match segments_urls with
  | [] => ret tt
  | segment_url :: rest =>
      if decide (segment_url ∈ visited_urls) then
        fetch_segments_loop rest file visited_urls
      else
        _ <- _fetch_segment segment_url file ;;
        fetch_segments_loop rest file ({[segment_url]} ∪ visited_urls)
  end.

Definition _fetch_segments (segments_urls : list string) (filepath : path) : M unit :=
  _ <- on_fs (open_wb filepath) ;;
  fetch_segments_loop segments_urls filepath ∅.

(** *** [download] *)

(** One entry of [elements]: the [dict] of lines 161-169 with the two
    paths the first loop adds to it. *)
Record element := {
  el_url : list string;
  el_type : string;
  el_suffix : string;
  el_tmp_path : path;
  el_enc_path : path
}.

(** [d[key]] on the [dict] of segment URLs. *)
Definition dict_getitem (d : gmap (option string) (list string)) (key : string)
  : result (list string) :=
  match d !! Some key with
  | Some v => Ok v
  | None => Raise KeyError
  end.

(** [l[-1]] on what [get_resolutions] returned. *)
Definition last_resolution (l : option (list resolution)) : result resolution :=
  match l with
  | None => Raise TypeError
  | Some rs =>
      match List.last (map Some rs) None with
      | Some r => Ok r
      | None => Raise IndexError
      end
  end.

Definition tmp_base_path (self : VideoDownloader) : path :=
  joinpath (temp_path self) (video_id (kinescope_video self)).

(** Lines 174-176. *)
Definition tmp_path_of (self : VideoDownloader) (type sfx : string) : path :=
  Path (fspath (tmp_base_path self) +:+ "_" +:+ type +:+ sfx).

Definition enc_path_of (tmp_path : path) : result path :=
  with_suffix tmp_path (path_suffix tmp_path +:+ ".enc").

(** The first loop, lines 173-178. *)
Fixpoint fetch_elements (self : VideoDownloader) (key : option string)
    (elements : list (list string * string * string)) : M (list element) :=
  match elements with
  | [] => ret []
  | (url, type, sfx) :: rest =>
      let tmp_path := tmp_path_of self type sfx in
      enc_path <- lift (enc_path_of tmp_path) ;;
      let fetch_path := if truthy_str key then enc_path else tmp_path in
      _ <- _fetch_segments url fetch_path ;;
      els <- fetch_elements self key rest ;;
      ret ({| el_url := url; el_type := type; el_suffix := sfx;
              el_tmp_path := tmp_path; el_enc_path := enc_path |} :: els)
  end.

(** The second loop, lines 182-183. *)
Fixpoint decrypt_elements (self : VideoDownloader) (key : string) (els : list element)
  : M unit :=
  match els with
  | [] => ret tt
  | el :: rest =>
      _ <- _decrypt_video self (el_enc_path el) (el_tmp_path el) key ;;
      decrypt_elements self key rest
  end.

(** Lines 155-156. *)
Definition chosen_resolution (self : VideoDownloader) (res : option resolution)
  : result resolution :=
  match res with
  | Some r => Ok r
  | None => rs <~ get_resolutions (mpd_master self) ;; last_resolution rs
  end.

Definition download (self : VideoDownloader) (filepath : string)
    (res : option resolution) : M unit :=
  res <- lift (chosen_resolution self res) ;;
  key <- _get_license_key self ;;
  audio <- lift (d <~ _get_segments_urls (mpd_master self) res ;;
                 dict_getitem d "audio/mp4") ;;
  video <- lift (d <~ _get_segments_urls (mpd_master self) res ;;
                 dict_getitem d "video/mp4") ;;
  let elements := [(audio, "Audio", ".aac"); (video, "Video", ".mp4")] in
  let elements := if audio_only self then removelast elements else elements in
  els <- fetch_elements self key elements ;;
  _ <- match key with
       | Some k => if truthy_str key then decrypt_elements self k els else ret tt
       | None => ret tt
       end ;;
  last_el <- lift (subscript els (length els - 1)) ;;
  out <- lift (with_suffix (Path filepath) (el_suffix last_el)) ;;
  _ <- on_fs (mkdir_parents (parent out)) ;;
  if negb (audio_only self) then
    _merge_tracks self (map el_tmp_path els) out
  else
    first_el <- lift (subscript els 0) ;;
    on_fs (move (el_tmp_path first_el) out).
End Downloader.

(** ** Vocabulary of the statements *)

(** An adaptation set whose first representation has no height, or
    height zero: an audio track. *)
Definition lacks_height (a : AdaptationSet) : Prop :=
  exists r rs, representations a = Some (r :: rs) /\ truthy_int (height r) = false.

(** Ascending by key. *)
Definition key_le {A : Type} (x y : Z * A) : Prop := (fst x <= fst y)%Z.

(** Ascending by height, strictly. *)
Definition height_lt (x y : resolution) : Prop :=
  match snd x, snd y with
  | Some a, Some b => (a < b)%Z
  | _, _ => False
  end.


(** A [str] made of characters of the base64 alphabet only. *)
Fixpoint all_b64 (s : string) : bool :=
  match s with
  | EmptyString => true
  | String c r => match b64_value c with Some _ => all_b64 r | None => false end
  end.

(** The downloader [self] holding another manifest. *)
Definition with_manifest (self : VideoDownloader) (mpd : MPEGDASH) : VideoDownloader :=
  {| kinescope_video := kinescope_video self; temp_path := temp_path self;
     ffmpeg_path := ffmpeg_path self; mp4decrypt_path := mp4decrypt_path self;
     mpd_master := mpd; audio_only := audio_only self |}.

(** [first_match res reps rep]: [rep] is the first representation of
    [reps] whose (width, height) is exactly [res]. *)
Inductive first_match (res : resolution) : list Representation -> Representation -> Prop :=
  | first_match_here r rs :
      resolution_of r = res -> first_match res (r :: rs) r
  | first_match_later r rs rep :
      resolution_of r <> res -> first_match res rs rep -> first_match res (r :: rs) rep.

(** The representation an adaptation set contributes for [res]: the exact
    match when the set carries a height, its first representation when it
    does not. *)
Definition selects (res : resolution) (a : AdaptationSet) (rep : Representation) : Prop :=
  exists r0 rs,
    representations a = Some (r0 :: rs)
    /\ if truthy_int (height r0) then first_match res (r0 :: rs) rep else rep = r0.

(** The base URL followed by the media fragment, for each segment whose
    media fragment is not empty, in the order of the manifest. *)
Fixpoint media_urls (base : string) (segs : list SegmentURL) : list string :=
  match segs with
  | [] => []
  | s :: r =>
      match media s with
      | None | Some "" => media_urls base r
      | Some m => (base +:+ m) :: media_urls base r
      end
  end.

Definition urls_of (rep : Representation) (urls : list string) : Prop :=
  exists b bs sl sls segs base,
    base_urls rep = Some (b :: bs)
    /\ base_url_value b = Some base
    /\ segment_lists rep = Some (sl :: sls)
    /\ segment_urls sl = Some segs
    /\ urls = media_urls base segs.

(** An adaptation set [_get_segments_urls] can serve for [res]. *)
Definition served (res : resolution) (a : AdaptationSet) : Prop :=
  exists rep urls, selects res a rep /\ urls_of rep urls.

(** The distinct elements of a list, each at its first occurrence. *)
Fixpoint distinct (l : list string) : list string :=
  match l with
  | [] => []
  | x :: r => x :: filter (fun y => y <> x) (distinct r)
  end.

(** The segments received among the requests [new] sent after
    [history]: the URL and the body of each [GET] the server answered. *)
Fixpoint downloads (env : Env) (history new : list request) : list (string * list byte) :=
  match new with
  | [] => []
  | r :: rest =>
      match r with
      | GET url _ =>
          match http_get env history url with
          | Ok body => [(url, body)]
          | Raise _ => []
          end
      | POST _ _ _ => []
      end ++ downloads env (history ++ [r]) rest
  end.

(** A server that answers every segment request. *)
Definition reliable (env : Env) : Prop :=
  forall history url, exists body, http_get env history url = Ok body.

(** What a fetch into [file] does to the world: it sends [new], appends
    the bodies it received to [file] and touches nothing else. *)
Definition fetched (env : Env) (file : path) (w w' : world) (new : list request) : Prop :=
  net w' = net w ++ new
  /\ procs w' = procs w
  /\ (forall p, p <> file -> fs w' !! p = fs w !! p)
  /\ exists c, fs w !! file = Some (File c)
       /\ fs w' !! file = Some (File (c ++ concat (map snd (downloads env (net w) new)))).

(** The workspace of [self] is gone: nothing is left at or below its
    temporary directory. *)
Definition torn_down (self : VideoDownloader) (w : world) : Prop :=
  forall p, temp_path self `prefix_of` p -> fs w !! p = None.

(** No directory of [f] is missing or replaced in [f']. *)
Definition keeps_dirs (f f' : filesystem) : Prop :=
  forall p, f !! p = Some Dir -> f' !! p = Some Dir.

(** From [w] to [w'] subprocesses may have started; as long as none has,
    no directory has disappeared. *)
Definition quiet (w w' : world) : Prop :=
  exists started,
    procs w' = procs w ++ started
    /\ (started = [] -> keeps_dirs (fs w) (fs w')).

(** From [w] to [w'] only requests were sent. *)
Definition same_files (w w' : world) : Prop :=
  fs w' = fs w /\ procs w' = procs w.

(** Every run of [c] relates the world before to the world after. *)
Definition respects {A} (R : world -> world -> Prop) (c : M A) : Prop :=
  forall w r w', c w = (r, w') -> R w w'.

(** Every run of [c] that raises relates the world before to the world
    after. *)
Definition respects_on_raise {A} (R : world -> world -> Prop) (c : M A) : Prop :=
  forall w e w', c w = (Raise e, w') -> R w w'.

(** Every run of [c] whose result satisfies [Q] relates the world before
    to the world after. *)
Definition respects_if {A} (Q : result A -> Prop) (R : world -> world -> Prop) (c : M A)
  : Prop :=
  forall w r w', Q r -> c w = (r, w') -> R w w'.

(** An exit of a download run of the object [self], from [w] to [w']:
    the constructor raises after it has made the temporary directory
    (the object then exists with its [temp_path] set), or a call of
    [download] returns or raises. *)
Inductive run_exit (env : Env) (self : VideoDownloader) (w w' : world) : Prop :=
  | constructor_raises (video : KinescopeVideo) (temp_dir : string)
      (ffmpeg mp4decrypt : arg) (audio : bool) (e : exn) (f1 : filesystem) :
      temp_path self = Path temp_dir ->
      mkdir_parents (Path temp_dir) (fs w) = (Ok tt, f1) ->
      __init__ env video temp_dir ffmpeg mp4decrypt audio w = (Raise e, w') ->
      run_exit env self w w'
  | download_exits (filepath : string) (res : option resolution) (r : result unit) :
      fs w !! temp_path self = Some Dir ->
      download env self filepath res w = (r, w') ->
      run_exit env self w w'.

(** The command lines started from [w] to [w']. *)
Definition started_between (w w' : world) : list (list arg) :=
  drop (length (procs w)) (procs w').

(** Each of the [commands], when it runs, leaves the directory [dir] in
    place. *)
Definition tools_keep (env : Env) (dir : path) (commands : list (list arg)) : Prop :=
  forall args f f',
    In args commands -> popen env args f = Some f' ->
    f !! dir = Some Dir -> f' !! dir = Some Dir.

(** The decryption tool writes its output: run on a regular file, it
    leaves a regular file at [target]. *)
Definition decrypt_writes (env : Env) (self : VideoDownloader) (target : path) : Prop :=
  forall k source f f' c,
    f !! source = Some (File c) ->
    popen env [mp4decrypt_path self; Str "--key"; Str k; PathArg source; PathArg target] f
    = Some f' ->
    exists c', f' !! target = Some (File c').

(** From [w] to [w'] the directory [dir] has stayed in place, as long as
    the tools that were started left it there. *)
Definition guarded (env : Env) (dir : path) (w w' : world) : Prop :=
  exists started,
    procs w' = procs w ++ started
    /\ (tools_keep env dir started -> fs w !! dir = Some Dir -> fs w' !! dir = Some Dir).

(** The text of [bytes] in base64 without padding: what a ClearKey
    licence carries. *)
Definition unpadded (b : list byte) : string := remove_char "=" (b64encode b).

(** ** A small manifest and a small world, for the examples *)

Definition segment (m : string) : SegmentURL := {| media := Some m |}.

Definition representation_of (w h : option Z) (base : string) (medias : list string)
  : Representation :=
  {| width := w; height := h;
     base_urls := Some [ {| base_url_value := Some base |} ];
     segment_lists := Some [ {| segment_urls := Some (map segment medias) |} ] |}.

(** A protected video track in two sizes, then its audio track; the
    audio segment list repeats its first segment and ends with an entry
    without media. *)
Definition video_set : AdaptationSet :=
  {| mime_type := Some "video/mp4";
     content_protections := Some [ {| cenc_default_kid := Some "aabbccdd" |} ];
     representations :=
       Some [ representation_of (Some 1280%Z) (Some 720%Z) "v720/" ["a"; "b"];
              representation_of (Some 640%Z) (Some 360%Z) "v360/" ["a"; "b"; "a"] ] |}.

Definition audio_set : AdaptationSet :=
  {| mime_type := Some "audio/mp4";
     content_protections := None;
     representations := Some [ representation_of None None "au/" ["1"; "2"; "1"; ""] ] |}.

Definition mpd_example : MPEGDASH :=
  {| periods := Some [ {| adaptation_sets := Some [video_set; audio_set] |} ] |}.

(** The same tracks without protection, audio first. *)
Definition mpd_clear : MPEGDASH :=
  {| periods :=
       Some [ {| adaptation_sets :=
                   Some [ audio_set;
                          {| mime_type := Some "video/mp4"; content_protections := None;
                             representations := representations video_set |} ] |} ] |}.

Definition video_example : KinescopeVideo :=
  {| video_id := "vid";
     get_mpd_master_playlist_url := "https://kinescope.io/vid/master.mpd";
     get_clearkey_license_url := "https://license.kinescope.io/vid" |}.

Definition downloader_of (mpd : MPEGDASH) (audio : bool) : VideoDownloader :=
  {| kinescope_video := video_example; temp_path := ["temp"];
     ffmpeg_path := Str "./ffmpeg"; mp4decrypt_path := Str "./mp4decrypt";
     mpd_master := mpd; audio_only := audio |}.

(** The body of a segment is its URL, byte for byte. *)
Definition body_of (url : string) : list byte :=
  map byte_of_ascii (list_ascii_of_string url).

(** A decryption tool that writes its input backwards, and a multiplexer
    that is not installed. *)
Definition tools (args : list arg) (f : filesystem) : option filesystem :=
  match args with
  | [Str "./mp4decrypt"; Str "--key"; Str _; PathArg source; PathArg target] =>
      match f !! source with
      | Some (File c) => Some (<[target := File (rev c)]> f)
      | _ => Some f
      end
  | _ => None
  end.

(** A licence endpoint that gives every request the same answer, and a
    segment server that answers every request. *)
Definition env_of (license_answer : json) : Env :=
  {| KINESCOPE_BASE_URL := "https://kinescope.io";
     http_get := fun _ url => Ok (body_of url);
     http_get_mpd := fun _ _ _ => Ok mpd_example;
     http_post := fun _ _ _ _ => Ok license_answer;
     popen := tools;
     sys_frozen := false; sys_MEIPASS := None; resolve := Ok |}.

Definition clearkey_answer : json :=
  JObj [("keys", JArr [JObj [("k", JStr "cXdlcnR5")]])].

Definition empty_keys_answer : json := JObj [("keys", JArr [])].

(** A world with the temporary directory in place. *)
Definition world0 : world :=
  {| net := []; fs := {[ ["temp"] := Dir ]}; procs := [] |}.

(** [mpd_example] followed by a second period. *)
Definition mpd_two_periods : MPEGDASH :=
  {| periods := Some [ {| adaptation_sets := Some [video_set; audio_set] |};
                       {| adaptation_sets := Some [audio_set] |} ] |}.

(** A manifest with the audio track only. *)
Definition mpd_audio_only : MPEGDASH :=
  {| periods := Some [ {| adaptation_sets := Some [audio_set] |} ] |}.

(** A segment server that truncates its first [n] answers. *)
Definition env_flaky (n : nat) : Env :=
  {| KINESCOPE_BASE_URL := "https://kinescope.io";
     http_get := fun history url =>
                   if (length history <? n)%nat then Raise ChunkedEncodingError
                   else Ok (body_of url);
     http_get_mpd := fun _ _ _ => Ok mpd_example;
     http_post := fun _ _ _ _ => Ok clearkey_answer;
     popen := tools;
     sys_frozen := false; sys_MEIPASS := None; resolve := Ok |}.

(** A world in which the audio file has just been opened. *)
Definition world_open : world :=
  {| net := [];
     fs := {[ ["temp"] := Dir; ["temp"; "vid_Audio.aac"] := File [] ]};
     procs := [] |}.

(** A segment server that truncates every answer for the URL [bad]. *)
Definition env_truncating (bad : string) : Env :=
  {| KINESCOPE_BASE_URL := "https://kinescope.io";
     http_get := fun _ url =>
                   if String.eqb url bad then Raise ChunkedEncodingError
                   else Ok (body_of url);
     http_get_mpd := fun _ _ _ => Ok mpd_clear;
     http_post := fun _ _ _ _ => Ok clearkey_answer;
     popen := tools;
     sys_frozen := false; sys_MEIPASS := None; resolve := Ok |}.

(** ** The command line: [main] of [kinescope-dl.py] *)

(** [l[i]] for an [int] [i]: a negative index counts from the end. *)
Definition pyindex {A} (l : list A) (i : Z) : result A :=
  let n := Z.of_nat (length l) in
  let j := if (i <? 0)%Z then (i + n)%Z else i in
  if ((j <? 0) || (n <=? j))%Z then Raise IndexError else subscript l (Z.to_nat j).

(** What [main] takes from its process: [os.environ.get], the constructor
    [KinescopeVideo(url=..., referer_url=...)] and the answer to the
    quality prompt, [int(input(...))].  The prompt and the other messages
    are console output and are not modelled. *)
Record Console := {
  environ : string -> option string;
  new_video : string -> option string -> result KinescopeVideo;
  read_quality : result Z
}.

(** [main], after [click] has parsed the arguments; [KinescopeDownloader]
    is the class [VideoDownloader]. *)
Definition main (env : Env) (console : Console) (referer : option string)
    (best_quality audio : bool) (temp input_url output_file : string)
    (ffmpeg_option mp4decrypt_option : string) : M unit :=
  video <- lift (new_video console input_url referer) ;;
  downloader <- __init__ env video temp
                  (Str (default "./ffmpeg" (environ console "FFMPEG_PATH")))
                  (Str (default "./mp4decrypt" (environ console "MP4DECRYPT_PATH")))
                  audio ;;
  video_resolutions <- lift (get_resolutions (mpd_master downloader)) ;;
  res_index <- (if audio || best_quality then ret (-1)%Z
                else
                  _ <- lift (iter video_resolutions) ;;
                  answer <- lift (read_quality console) ;;
                  ret (answer - 1)%Z) ;;
  chosen_resolution <- lift (l <~ iter video_resolutions ;; pyindex l res_index) ;;
  download env downloader
    (match output_file with
     | EmptyString => video_id video +:+ ".mp4"
     | _ => output_file
     end)
    (Some chosen_resolution).

(** ** More vocabulary *)

(** The command lines of the two tools. *)
Definition ffmpeg_command (self : VideoDownloader) (sources : list path) (target : path)
  : list arg :=
  [ffmpeg_path self]
  ++ concat (map (fun p => [Str "-i"; PathArg p]) sources)
  ++ [Str "-c"; Str "copy"; PathArg target]
  ++ [Str "-y"; Str "-loglevel"; Str "error"].

Definition decrypt_command (self : VideoDownloader) (source target : path) (key : string)
  : list arg :=
  [mp4decrypt_path self; Str "--key"; Str ("1:" +:+ key); PathArg source; PathArg target].

(** From [w] to [w'] no subprocess was started. *)
Definition same_procs (w w' : world) : Prop := procs w' = procs w.

(** Not higher than: both heights are integers and ordered. *)
Definition height_le (x y : resolution) : Prop :=
  match snd x, snd y with
  | Some a, Some b => (a <= b)%Z
  | _, _ => False
  end.

(** A representation whose segment URLs can be built. *)
Definition has_urls (rep : Representation) : Prop := exists urls, urls_of rep urls.

(** An audio-like adaptation set: no height, and URLs on its first
    representation. *)
Definition plain_track (a : AdaptationSet) : Prop :=
  exists r rs,
    representations a = Some (r :: rs) /\ truthy_int (height r) = false /\ has_urls r.

(** ** More small manifests and worlds *)

(** A protected track whose descriptor carries [kid]. *)
Definition mpd_with_kid (kid : option string) : MPEGDASH :=
  {| periods :=
       Some [ {| adaptation_sets :=
                   Some [ {| mime_type := Some "video/mp4";
                             content_protections := Some [ {| cenc_default_kid := kid |} ];
                             representations := representations video_set |};
                          audio_set ] |} ] |}.

(** The unprotected video set of [mpd_clear]. *)
Definition clear_video_set : AdaptationSet :=
  {| mime_type := Some "video/mp4"; content_protections := None;
     representations := representations video_set |}.

(** A video set whose second representation has no height. *)
Definition mixed_video_set : AdaptationSet :=
  {| mime_type := Some "video/mp4"; content_protections := None;
     representations :=
       Some [ representation_of (Some 1280%Z) (Some 720%Z) "v720/" ["a"];
              representation_of (Some 640%Z) None "v360/" ["a"] ] |}.

Definition mpd_mixed : MPEGDASH :=
  {| periods := Some [ {| adaptation_sets := Some [audio_set; mixed_video_set] |} ] |}.

(** The directory part and the last part of the text of a path. *)
Definition dir_of_text (s : string) : path :=
  (if is_absolute s then ["/"] else [])
  ++ filter (fun x => x ≠ "" ∧ x ≠ ".") (removelast (split_on "/" s)).

Definition stem_of_text (s : string) : string := List.last (split_on "/" s) "".

(** [c] does not occur in [t]. *)
Definition free_of (c : ascii) (t : string) : Prop :=
  Forall (fun d => d <> c) (list_ascii_of_string t).

(** Both tools installed: the multiplexer writes its two inputs one after
    the other. *)
Definition toolbox (args : list arg) (f : filesystem) : option filesystem :=
  match args with
  | [Str "./ffmpeg"; Str "-i"; PathArg a; Str "-i"; PathArg v;
     Str "-c"; Str "copy"; PathArg target; Str "-y"; Str "-loglevel"; Str "error"] =>
      match f !! a, f !! v with
      | Some (File ca), Some (File cv) => Some (<[target := File (ca ++ cv)]> f)
      | _, _ => Some f
      end
  | _ => tools args f
  end.

Definition env_merging (license_answer : json) : Env :=
  {| KINESCOPE_BASE_URL := "https://kinescope.io";
     http_get := fun _ url => Ok (body_of url);
     http_get_mpd := fun _ _ _ => Ok mpd_example;
     http_post := fun _ _ _ _ => Ok license_answer;
     popen := toolbox;
     sys_frozen := false; sys_MEIPASS := None; resolve := Ok |}.

(** What a downloader may start: the decryption tool, at most twice, and
    then [ffmpeg], at most once. *)
Definition tool_runs (self : VideoDownloader) (started : list (list arg)) : Prop :=
  exists decrypts merges,
    started = decrypts ++ merges
    /\ Forall (fun args => exists source target key,
                 args = decrypt_command self source target key) decrypts
    /\ (length decrypts <= 2)%nat
    /\ (merges = [] \/ exists sources out, merges = [ffmpeg_command self sources out]).

(** A command line that runs the executable [tool]. *)
Definition runs (tool : arg) (args : list arg) : Prop := exists rest, args = tool :: rest.

(** A console without environment variables, on which the user answers
    [answer] to the quality prompt. *)
Definition console_of (answer : Z) : Console :=
  {| environ := fun _ => None;
     new_video := fun _ _ => Ok video_example;
     read_quality := Ok answer |}.

(** The file [main] asks [download] for: line 84. *)
Definition output_name (video : KinescopeVideo) (output_file : string) : string :=
  match output_file with
  | EmptyString => video_id video +:+ ".mp4"
  | _ => output_file
  end.

(** The downloader [main] builds: lines 64-68. *)
Definition main_downloader (env : Env) (console : Console) (video : KinescopeVideo)
    (temp : string) (audio : bool) : M VideoDownloader :=
  __init__ env video temp
    (Str (default "./ffmpeg" (environ console "FFMPEG_PATH")))
    (Str (default "./mp4decrypt" (environ console "MP4DECRYPT_PATH")))
    audio.

(** A server whose master playlist is [mpd]. *)
Definition env_serving (mpd : MPEGDASH) : Env :=
  {| KINESCOPE_BASE_URL := "https://kinescope.io";
     http_get := fun _ url => Ok (body_of url);
     http_get_mpd := fun _ _ _ => Ok mpd;
     http_post := fun _ _ _ _ => Ok clearkey_answer;
     popen := tools;
     sys_frozen := false; sys_MEIPASS := None; resolve := Ok |}.

(** The decryption tool of a program bundled in [/tmp/_MEI1]; its
    [ffmpeg] is missing. *)
Definition bundled_tools (args : list arg) (f : filesystem) : option filesystem :=
  match args with
  | [PathArg ["/"; "tmp"; "_MEI1"; "mp4decrypt"]; Str "--key"; Str _;
     PathArg source; PathArg target] =>
      match f !! source with
      | Some (File c) => Some (<[target := File (rev c)]> f)
      | _ => Some f
      end
  | _ => None
  end.

(** The server of [env_of], seen from that bundled program. *)
Definition env_bundled : Env :=
  {| KINESCOPE_BASE_URL := "https://kinescope.io";
     http_get := fun _ url => Ok (body_of url);
     http_get_mpd := fun _ _ _ => Ok mpd_example;
     http_post := fun _ _ _ _ => Ok clearkey_answer;
     popen := bundled_tools;
     sys_frozen := true; sys_MEIPASS := Some "/tmp/_MEI1"; resolve := Ok |}.

(** A server that cannot be reached for the manifest. *)
Definition env_unreachable : Env :=
  {| KINESCOPE_BASE_URL := "https://kinescope.io";
     http_get := fun _ url => Ok (body_of url);
     http_get_mpd := fun _ _ _ => Raise RequestException;
     http_post := fun _ _ _ _ => Ok clearkey_answer;
     popen := tools;
     sys_frozen := false; sys_MEIPASS := None; resolve := Ok |}.

(** From [w] to [w'] nothing was sent. *)
Definition same_net (w w' : world) : Prop := net w' = net w.

(** The URLs [fetch_elements] has to fetch, track after track. *)
Definition urls_to_fetch (elements : list (list string * string * string)) : list string :=
  concat (map (fun el => distinct el.1.1) elements).

(** A video set offering the same height in two widths. *)
Definition twin_video_set : AdaptationSet :=
  {| mime_type := Some "video/mp4"; content_protections := None;
     representations :=
       Some [ representation_of (Some 1280%Z) (Some 720%Z) "wide/" ["a"];
              representation_of (Some 640%Z) (Some 360%Z) "low/" ["a"];
              representation_of (Some 960%Z) (Some 720%Z) "narrow/" ["a"] ] |}.

Definition mpd_twin : MPEGDASH :=
  {| periods := Some [ {| adaptation_sets := Some [audio_set; twin_video_set] |} ] |}.

(** * Checks of the codecs against known values *)

Example b64decode_qwerty : b64decode "cXdlcnR5==" = Ok [x71; x77; x65; x72; x74; x79].
Proof. reflexivity. Qed.
Example hex_qwerty : hex [x71; x77; x65; x72; x74; x79] = "717765727479".
Proof. reflexivity. Qed.
Example fromhex_kid : fromhex "aabbccdd" = Ok [xaa; xbb; xcc; xdd].
Proof. reflexivity. Qed.
Example b64encode_kid : b64encode [xaa; xbb; xcc; xdd] = "qrvM3Q==".
Proof. reflexivity. Qed.
Example b64decode_a : b64decode "a==" = Raise BinasciiError.
Proof. reflexivity. Qed.

(** * Properties of [sorted] *)
Section SortedFacts.
Context {A : Type}.

Lemma insert_by_key_perm (e : Z * A) (l : list (Z * A)) : Permutation (insert_by_key e l) (e :: l).
Proof.
  induction l as [|y r IH]; simpl; [reflexivity|].
  destruct (fst e <=? fst y)%Z; [reflexivity|].
  rewrite IH. apply perm_swap.
Qed.

Lemma sort_by_key_perm (l : list (Z * A)) : Permutation (sort_by_key l) l.
Proof.
  induction l as [|e r IH]; simpl; [reflexivity|].
  rewrite insert_by_key_perm. by constructor.
Qed.

Lemma insert_by_key_sorted (e : Z * A) (l : list (Z * A)) :
  StronglySorted key_le l -> StronglySorted key_le (insert_by_key e l).
Proof.
  induction 1 as [|y r Hr IH Hy]; simpl.
  - repeat constructor.
  - destruct (Z.leb_spec (fst e) (fst y)) as [Hle|Hgt].
    + constructor; [by constructor|].
      constructor; [done|].
      eapply Forall_impl; [exact Hy|]. unfold key_le. intros; lia.
    + constructor; [done|].
      rewrite insert_by_key_perm. constructor; [unfold key_le; lia | done].
Qed.

Lemma sort_by_key_sorted (l : list (Z * A)) : StronglySorted key_le (sort_by_key l).
Proof.
  induction l; simpl; [constructor | by apply insert_by_key_sorted].
Qed.

Lemma mapM_decorate (key : A -> option Z) (xs : list A) :
  Forall (fun x => is_Some (key x)) xs ->
  exists d, mapM (decorate key) xs = Ok d /\ map snd d = xs
            /\ Forall (fun e => key (snd e) = Some (fst e)) d.
Proof.
  induction 1 as [|x r [z Hz] _ (d & Hd & Hs & Hk)].
  - by exists [].
  - exists ((z, x) :: d). simpl. unfold decorate at 1. rewrite Hz. simpl.
    rewrite Hd. simpl. rewrite Hs. split; [done|]. split; [done|]. by constructor.
Qed.

(** [sorted] on keys that are all integers: a rearrangement of the
    input in ascending key order. *)
Lemma sorted_spec (key : A -> option Z) (xs : list A) :
  Forall (fun x => is_Some (key x)) xs ->
  exists l, sorted key (Some xs) = Ok l /\ Permutation l xs
    /\ StronglySorted (fun x y => exists a b, key x = Some a /\ key y = Some b /\ (a <= b)%Z) l.
Proof.
  intros Hall.
  destruct (mapM_decorate key xs Hall) as (d & Hd & Hs & Hk).
  assert (Hgen : exists l, Ok (map snd (sort_by_key d)) = Ok l /\ Permutation l xs
    /\ StronglySorted (fun x y => exists a b, key x = Some a /\ key y = Some b /\ (a <= b)%Z) l).
  { eexists; split; [reflexivity|]. split.
    - rewrite sort_by_key_perm. by rewrite Hs.
    - assert (Hk' : Forall (fun e => key (snd e) = Some (fst e)) (sort_by_key d)).
      { by rewrite sort_by_key_perm. }
      pose proof (sort_by_key_sorted d) as Hsrt.
      induction Hsrt as [|e r Hr IH He]; simpl; [constructor|].
      apply Forall_cons in Hk' as [Hke Hkr].
      constructor; [by apply IH|].
      rewrite List.Forall_forall in He. rewrite List.Forall_forall in Hkr.
      apply List.Forall_forall. intros y Hy. apply in_map_iff in Hy as (e' & <- & Hin).
      exists (fst e), (fst e'). split; [done|]. split; [by apply Hkr|]. by apply He. }
  unfold sorted. simpl.
  destruct xs as [|x [|y r]]; [| |by rewrite Hd].
  - exists []. repeat split; [done | constructor].
  - exists [x]. repeat split; [done|]. repeat constructor.
Qed.
End SortedFacts.

Lemma get_resolutions_loop_skip pre rest :
  Forall lacks_height pre ->
  get_resolutions_loop (pre ++ rest) = get_resolutions_loop rest.
Proof.
  induction 1 as [|a pre (r & rs & Hr & Hh) _ IH]; [done|].
  simpl. rewrite Hr. simpl. by rewrite Hh.
Qed.

Lemma strictly_sorted_heights (rs : list Representation) :
  StronglySorted (fun x y => exists a b, height x = Some a /\ height y = Some b /\ (a <= b)%Z) rs ->
  NoDup (map height rs) ->
  StronglySorted height_lt (map resolution_of rs).
Proof.
  induction 1 as [|x r Hr IH Hx]; simpl; intros Hnd; [constructor|].
  apply NoDup_cons in Hnd as [Hnotin Hnd].
  constructor; [by apply IH|].
  apply List.Forall_forall. intros y Hy. apply in_map_iff in Hy as (y' & <- & Hin).
  rewrite List.Forall_forall in Hx. destruct (Hx y' Hin) as (a & b & Ha & Hb & Hle).
  unfold height_lt, resolution_of. simpl. rewrite Ha, Hb.
  assert (a <> b); [|lia].
  intros ->. apply Hnotin. rewrite Ha, <- Hb.
  apply list_elem_of_In, in_map, Hin.
Qed.

Lemma truthy_int_is_Some (h : option Z) : truthy_int h = true -> is_Some h.
Proof. destruct h; [eauto | discriminate]. Qed.

(** C6: for a manifest whose first period has a video adaptation set with
    N representations of distinct non-zero heights, preceded only by
    adaptation sets without height, [get_resolutions] returns N
    (width, height) pairs, a rearrangement of that set's pairs in strictly
    ascending height order; when no adaptation set carries a height it
    returns [None] and raises nothing. *)
Theorem get_resolutions_sorted_by_height (mpd : MPEGDASH) (p : Period) (ps : list Period)
    (sets : list AdaptationSet) :
  periods mpd = Some (p :: ps) ->
  adaptation_sets p = Some sets ->
  (forall pre a post reps,
      sets = pre ++ a :: post ->
      Forall lacks_height pre ->
      representations a = Some reps ->
      reps <> [] ->
      Forall (fun r => truthy_int (height r) = true) reps ->
      NoDup (map height reps) ->
      exists l, get_resolutions mpd = Ok (Some l)
        /\ length l = length reps
        /\ Permutation l (map resolution_of reps)
        /\ StronglySorted height_lt l)
  /\ (Forall lacks_height sets -> get_resolutions mpd = Ok None).
Proof.
  intros Hp Hsets. unfold get_resolutions. rewrite Hp. simpl. rewrite Hsets. simpl. split.
  - intros pre a post reps -> Hpre Hreps Hne Hall Hnd.
    rewrite get_resolutions_loop_skip by done. simpl.
    destruct reps as [|r0 rs]; [done|]. rewrite Hreps. simpl.
    apply Forall_cons in Hall as Hall'. destruct Hall' as [Hr0 _]. rewrite Hr0.
    destruct (sorted_spec height (r0 :: rs)) as (l & Hl & Hperm & Hsorted).
    { eapply Forall_impl; [exact Hall|]. intros r. apply truthy_int_is_Some. }
    rewrite Hl. simpl. eexists. split; [reflexivity|].
    split; [by rewrite length_map, Hperm|].
    split; [by apply (Permutation_map resolution_of) in Hperm|].
    apply strictly_sorted_heights; [done|]. by rewrite Hperm.
  - intros Hall. rewrite <- (app_nil_r sets). by rewrite get_resolutions_loop_skip.
Qed.

Lemma audio_set_lacks_height : lacks_height audio_set.
Proof. do 2 eexists. split; reflexivity. Qed.

Lemma get_resolutions_example :
  (exists l, get_resolutions mpd_clear = Ok (Some l)
     /\ length l = 2%nat
     /\ Permutation l [(Some 1280%Z, Some 720%Z); (Some 640%Z, Some 360%Z)]
     /\ StronglySorted height_lt l)
  /\ get_resolutions mpd_audio_only = Ok None.
Proof.
  split.
  - destruct (get_resolutions_sorted_by_height mpd_clear
                {| adaptation_sets :=
                     Some [ audio_set;
                            {| mime_type := Some "video/mp4"; content_protections := None;
                               representations := representations video_set |} ] |}
                [] _ eq_refl eq_refl) as [Hvideo _].
    apply (Hvideo [audio_set] _ []
             [ representation_of (Some 1280%Z) (Some 720%Z) "v720/" ["a"; "b"];
               representation_of (Some 640%Z) (Some 360%Z) "v360/" ["a"; "b"; "a"] ]
             eq_refl).
    + constructor; [exact audio_set_lacks_height | constructor].
    + reflexivity.
    + discriminate.
    + repeat constructor.
    + apply (bool_decide_unpack _). reflexivity.
  - destruct (get_resolutions_sorted_by_height mpd_audio_only
                {| adaptation_sets := Some [audio_set] |} [] [audio_set] eq_refl eq_refl)
      as [_ Hnone].
    apply Hnone. constructor; [exact audio_set_lacks_height | constructor].
Defined.

(** * The base64 codec: decoding undoes encoding *)

Lemma list_ind3 {A} (P : list A -> Prop) :
  P [] ->
  (forall x, P [x]) ->
  (forall x y, P [x; y]) ->
  (forall x y z r, P r -> P (x :: y :: z :: r)) ->
  forall l, P l.
Proof.
  intros H0 H1 H2 H3 l.
  assert (H : P l /\ (forall a, P (a :: l)) /\ (forall a b, P (a :: b :: l))).
  { induction l as [|c l (IH0 & IH1 & IH2)]; [by auto|].
    split; [apply IH1|]. split; [intros a; apply IH2|]. intros a b. by apply H3. }
  apply H.
Qed.

Lemma below_enumerated (n : nat) (v : N) :
  (v < N.of_nat n)%N -> In v (map N.of_nat (seq 0 n)).
Proof.
  intros Hv. apply in_map_iff. exists (N.to_nat v). split; [apply N2Nat.id|].
  apply in_seq. lia.
Qed.

(** Every six-bit value has a character, which is not the pad and
    decodes to the value. *)
Lemma b64_value_char (v : N) :
  (v < 64)%N ->
  Ascii.eqb (b64_char v) "=" = false /\ b64_value (b64_char v) = Some v.
Proof.
  intros Hv. apply (below_enumerated 64) in Hv. revert v Hv. apply List.Forall_forall.
  repeat (constructor; [by vm_compute|]). constructor.
Qed.

Lemma byte_of_to_N (x : byte) : byte_of_N (Byte.to_N x) = x.
Proof. by destruct x. Qed.

(** A byte splits into its high and low bits. *)
Lemma byte_split (x : byte) :
  let n := Byte.to_N x in
  ((N.shiftr n 2 < 64)%N /\ (N.land n 3 < 4)%N
   /\ N.lor (N.shiftl (N.shiftr n 2) 2) (N.land n 3) = n)
  /\ ((N.shiftr n 4 < 16)%N /\ (N.land n 15 < 16)%N
      /\ N.lor (N.shiftl (N.shiftr n 4) 4) (N.land n 15) = n)
  /\ ((N.shiftr n 6 < 4)%N /\ (N.land n 63 < 64)%N
      /\ N.lor (N.shiftl (N.shiftr n 6) 6) (N.land n 63) = n).
Proof. destruct x; vm_compute; repeat split. Qed.

(** Two bits above four bits, and four bits above two bits, make six
    bits that split again. *)
Lemma sextet_2_4 (a b : N) :
  (a < 4)%N -> (b < 16)%N ->
  let v := N.lor (N.shiftl a 4) b in
  (v < 64)%N /\ N.shiftr v 4 = a /\ N.land v 15 = b.
Proof.
  intros Ha Hb. apply (below_enumerated 4) in Ha. apply (below_enumerated 16) in Hb.
  revert b Hb. apply List.Forall_forall. revert a Ha. apply List.Forall_forall.
  repeat (constructor; [repeat (constructor; [by vm_compute|]); constructor|]).
  constructor.
Qed.

Lemma sextet_4_2 (c e : N) :
  (c < 16)%N -> (e < 4)%N ->
  let v := N.lor (N.shiftl c 2) e in
  (v < 64)%N /\ N.shiftr v 2 = c /\ N.land v 3 = e.
Proof.
  intros Hc He. apply (below_enumerated 16) in Hc. apply (below_enumerated 4) in He.
  revert e He. apply List.Forall_forall. revert c Hc. apply List.Forall_forall.
  repeat (constructor; [repeat (constructor; [by vm_compute|]); constructor|]).
  constructor.
Qed.

(** One decoding step on an alphabet character. *)
Lemma a2b_base64_char (v : N) (s : string) (quad_pos : nat) (leftchar : N) (pads : nat) :
  (v < 64)%N ->
  a2b_base64 (String (b64_char v) s) quad_pos leftchar pads
  = match quad_pos with
    | 0%nat => a2b_base64 s 1 v 0
    | 1%nat =>
        bs <~ a2b_base64 s 2 (N.land v 15) 0 ;;
        Ok (byte_of_N (N.lor (N.shiftl leftchar 2) (N.shiftr v 4)) :: bs)
    | 2%nat =>
        bs <~ a2b_base64 s 3 (N.land v 3) 0 ;;
        Ok (byte_of_N (N.lor (N.shiftl leftchar 4) (N.shiftr v 2)) :: bs)
    | _ =>
        bs <~ a2b_base64 s 0 0 0 ;;
        Ok (byte_of_N (N.lor (N.shiftl leftchar 6) v) :: bs)
    end.
Proof.
  intros Hv. destruct (b64_value_char v Hv) as [Hpad Hval].
  cbn [a2b_base64]. by rewrite Hpad, Hval.
Qed.

Lemma remove_pad_char (v : N) (s : string) :
  (v < 64)%N ->
  remove_char "=" (String (b64_char v) s) = String (b64_char v) (remove_char "=" s).
Proof.
  intros Hv. destruct (b64_value_char v Hv) as [Hpad _].
  cbn [remove_char]. rewrite Ascii.eqb_sym in Hpad. by rewrite Hpad.
Qed.

Lemma all_b64_char (v : N) (s : string) :
  (v < 64)%N -> all_b64 (String (b64_char v) s) = all_b64 s.
Proof.
  intros Hv. destruct (b64_value_char v Hv) as [_ Hval].
  cbn [all_b64]. by rewrite Hval.
Qed.

Section Group.
Variables x y z : byte.
Let n := Byte.to_N x.
Let m := Byte.to_N y.
Let o := Byte.to_N z.
Let v1 := N.shiftr n 2.
Let v2 := N.lor (N.shiftl (N.land n 3) 4) (N.shiftr m 4).
Let v3 := N.lor (N.shiftl (N.land m 15) 2) (N.shiftr o 6).
Let v4 := N.land o 63.

(** Three bytes: four characters that decode to the three bytes. *)
Lemma a2b_base64_group (s : string) :
  (v1 < 64)%N /\ (v2 < 64)%N /\ (v3 < 64)%N /\ (v4 < 64)%N
  /\ a2b_base64 (String (b64_char v1) (String (b64_char v2)
                   (String (b64_char v3) (String (b64_char v4) s)))) 0 0 0
     = (bs <~ a2b_base64 s 0 0 0 ;; Ok (x :: y :: z :: bs)).
Proof.
  destruct (byte_split x) as ((H1 & Ha & Hx) & _ & _).
  destruct (byte_split y) as (_ & (Hb & Hc & Hy) & _).
  destruct (byte_split z) as (_ & _ & (He & H4 & Hz)).
  destruct (sextet_2_4 _ _ Ha Hb) as (H2 & H2hi & H2lo).
  destruct (sextet_4_2 _ _ Hc He) as (H3 & H3hi & H3lo).
  fold n in H1, Ha, Hx. fold m in Hb, Hc, Hy. fold o in He, H4, Hz.
  fold n m in H2, H2hi, H2lo. fold m o in H3, H3hi, H3lo.
  fold v1 in H1, Hx. fold v2 in H2, H2hi, H2lo. fold v3 in H3, H3hi, H3lo. fold v4 in H4, Hz.
  repeat (split; [done|]).
  rewrite !a2b_base64_char by done.
  rewrite H2hi, H2lo, H3hi, H3lo, Hx, Hy, Hz.
  subst n m o. rewrite !byte_of_to_N.
  by destruct (a2b_base64 s 0 0 0).
Qed.
End Group.

Lemma b64_value_ascii (c : ascii) (v : N) :
  b64_value c = Some v -> is_ascii c = true /\ Ascii.eqb c "=" = false.
Proof.
  destruct c as [[] [] [] [] [] [] [] []]; vm_compute; intros H;
    (discriminate H || (split; reflexivity)).
Qed.

Lemma all_b64_ascii (k : string) : all_b64 k = true -> all_ascii (k +:+ "==") = true.
Proof.
  induction k as [|c r IH]; simpl; [done|].
  destruct (b64_value c) as [v|] eqn:Hv; [|done].
  intros Hr. apply b64_value_ascii in Hv as [-> _]. by apply IH.
Qed.

Lemma append_cons (c : ascii) (s t : string) : String c s +:+ t = String c (s +:+ t).
Proof. reflexivity. Qed.

Lemma append_nil (t : string) : "" +:+ t = t.
Proof. reflexivity. Qed.

(** Decoding the unpadded text followed by ["=="] gives the bytes back. *)
Lemma unpadded_decodes (b : list byte) :
  all_b64 (unpadded b) = true
  /\ a2b_base64 (unpadded b +:+ "==") 0 0 0 = Ok b.
Proof.
  induction b as [|x|x y|x y z r [IHa IHd]] using list_ind3.
  - by split.
  - destruct (byte_split x) as ((H1 & Ha & Hx) & _ & _).
    destruct (sextet_2_4 _ 0 Ha ltac:(done)) as (H2 & H2hi & _).
    rewrite N.lor_0_r in H2, H2hi.
    unfold unpadded. cbn [b64encode].
    rewrite !remove_pad_char, !all_b64_char by done.
    change (remove_char "=" "==") with "". split; [done|].
    rewrite !append_cons, append_nil. rewrite !a2b_base64_char by done.
    rewrite H2hi, Hx, byte_of_to_N. reflexivity.
  - destruct (byte_split x) as ((H1 & Ha & Hx) & _ & _).
    destruct (byte_split y) as (_ & (Hb & Hc & Hy) & _).
    destruct (sextet_2_4 _ _ Ha Hb) as (H2 & H2hi & H2lo).
    destruct (sextet_4_2 _ 0 Hc ltac:(done)) as (H3 & H3hi & _).
    rewrite N.lor_0_r in H3, H3hi.
    unfold unpadded. cbn [b64encode].
    rewrite !remove_pad_char, !all_b64_char by done.
    change (remove_char "=" "=") with "". split; [done|].
    rewrite !append_cons, append_nil. rewrite !a2b_base64_char by done.
    rewrite H2hi, H2lo, H3hi, Hx, Hy, !byte_of_to_N. reflexivity.
  - destruct (a2b_base64_group x y z (unpadded r +:+ "==")) as (H1 & H2 & H3 & H4 & Hgroup).
    unfold unpadded in *. cbn [b64encode].
    rewrite !remove_pad_char, !all_b64_char by done. split; [done|].
    rewrite !append_cons. rewrite Hgroup, IHd. reflexivity.
Qed.

(** [b64decode] undoes [b64encode] once the padding has been replaced by
    ["=="]. *)
Lemma b64decode_unpadded (b : list byte) : b64decode (unpadded b +:+ "==") = Ok b.
Proof.
  destruct (unpadded_decodes b) as [Hall Hdec].
  unfold b64decode. by rewrite all_b64_ascii, Hdec.
Qed.

(** * The hexadecimal codec: [fromhex] undoes [hex] *)

Lemma fromhex_hex_byte (x : byte) (s : string) :
  fromhex (String (hex_char (N.shiftr (Byte.to_N x) 4))
             (String (hex_char (N.land (Byte.to_N x) 15)) s))
  = (bs <~ fromhex s ;; Ok (x :: bs)).
Proof. destruct x; reflexivity. Qed.

Lemma fromhex_hex (b : list byte) : fromhex (hex b) = Ok b.
Proof.
  induction b as [|x r IH]; [done|].
  cbn [hex]. by rewrite fromhex_hex_byte, IH.
Qed.

(** * The licence exchange *)

(** Appending ["=="] makes every run of alphabet characters decodable,
    unless one character is left alone in the last group. *)
Lemma a2b_base64_padded (k : string) :
  all_b64 k = true ->
  forall quad_pos leftchar pads,
    (quad_pos < 4)%nat ->
    ((quad_pos + String.length k) mod 4 <> 1)%nat ->
    exists raw, a2b_base64 (k +:+ "==") quad_pos leftchar pads = Ok raw.
Proof.
  induction k as [|c r IH]; cbn [all_b64 String.length String.append a2b_base64].
  - intros _ q l p Hq Hmod. change ("" +:+ "==") with "==".
    destruct q as [|[|[|[|q]]]]; try lia; try (by simpl in Hmod); simpl; eauto.
    destruct p; simpl; eauto.
  - destruct (b64_value c) as [v|] eqn:Hv; [|done].
    intros Hr q l p Hq Hmod.
    apply b64_value_ascii in Hv as Hc. destruct Hc as [_ Hc].
    change (String c r +:+ "==") with (String c (r +:+ "==")).
    cbn [a2b_base64]. rewrite Hc, Hv.
    assert (Hstep : forall q', (q' < 4)%nat -> ((q' + String.length r) mod 4 <> 1)%nat ->
              forall l', exists raw, a2b_base64 (r +:+ "==") q' l' 0 = Ok raw).
    { intros q' Hq' Hm l'. by apply IH. }
    destruct q as [|[|[|[|q]]]]; try lia.
    + apply Hstep; [lia|]. by rewrite <- Nat.add_succ_comm in Hmod.
    + destruct (Hstep 2%nat ltac:(lia) ltac:(by rewrite <- Nat.add_succ_comm in Hmod)
                  (N.land v 15)) as [raw ->]. simpl. eauto.
    + destruct (Hstep 3%nat ltac:(lia) ltac:(by rewrite <- Nat.add_succ_comm in Hmod)
                  (N.land v 3)) as [raw ->]. simpl. eauto.
    + destruct (Hstep 0%nat ltac:(lia)
                  ltac:(by replace (3 + S (String.length r))%nat
                             with (String.length r + 1 * 4)%nat in Hmod by lia;
                           rewrite Nat.Div0.mod_add in Hmod)
                  0%N) as [raw ->]. simpl. eauto.
Qed.

Lemma b64decode_padded (k : string) :
  all_b64 k = true ->
  (String.length k mod 4 <> 1)%nat ->
  exists raw, b64decode (k +:+ "==") = Ok raw.
Proof.
  intros Hk Hlen. unfold b64decode. rewrite all_b64_ascii by done.
  apply a2b_base64_padded; [done | lia | done].
Qed.

(** The decoder never raises [KeyError]. *)
Lemma a2b_base64_error (s : string) :
  forall quad_pos leftchar pads e,
    a2b_base64 s quad_pos leftchar pads = Raise e -> e = BinasciiError.
Proof.
  induction s as [|c r IH]; intros q l p e; cbn [a2b_base64].
  - destruct q; congruence.
  - destruct (Ascii.eqb c "=").
    { destruct (2 <=? q)%nat; [destruct (4 <=? q + S p)%nat; [congruence|]|]; apply IH. }
    destruct (b64_value c) as [v|]; [|apply IH].
    destruct q as [|[|[|q]]]; [apply IH| | |];
      (destruct (a2b_base64 r _ _ _) as [bs|e'] eqn:E; simpl; [congruence|];
       intros [= <-]; by apply IH in E).
Qed.

Lemma b64decode_not_KeyError (s : string) (e : exn) :
  b64decode s = Raise e -> is_KeyError e = false.
Proof.
  unfold b64decode. destruct (all_ascii s).
  - intros H. by apply a2b_base64_error in H as ->.
  - by intros [= <-].
Qed.

(** C1: when the first adaptation set carries a content-protection
    descriptor with a hexadecimal KID and the licence endpoint answers with
    an object whose [keys[0].k] is the text [k], [_get_license_key]
    returns the hexadecimal form of the base64 decoding of [k] padded with
    ["=="] (an undecodable [k] makes the decoder's error surface).  Every
    [k] over the base64 alphabet whose length is not 1 modulo 4 is
    decodable, so a key is returned for it; and when [k] is the unpadded
    base64 text of some bytes, the key is the hexadecimal text of those
    bytes. *)
Theorem license_key_is_hex_of_decoded_k (env : Env) (self : VideoDownloader) (w : world)
    (a : AdaptationSet) (cp : ContentProtection) (cps : list ContentProtection)
    (kid : string) (raw_kid : list byte)
    (items key_items : list (string * json)) (more_keys : list json) (k : string) :
  first_adaptation_set (mpd_master self) = Ok a ->
  content_protections a = Some (cp :: cps) ->
  cenc_default_kid cp = Some kid ->
  fromhex (remove_char "-" kid) = Ok raw_kid ->
  http_post env (net w) (get_clearkey_license_url (kinescope_video self))
    [("origin", KINESCOPE_BASE_URL env)]
    (license_request (remove_char "=" (b64encode raw_kid))) = Ok (JObj items) ->
  dict_get items "keys" = Some (JArr (JObj key_items :: more_keys)) ->
  dict_get key_items "k" = Some (JStr k) ->
  fst (_get_license_key env self w)
    = (raw <~ b64decode (k +:+ "==") ;; Ok (Some (hex raw)))
  /\ (all_b64 k = true -> (String.length k mod 4 <> 1)%nat ->
      exists raw, b64decode (k +:+ "==") = Ok raw
                  /\ fst (_get_license_key env self w) = Ok (Some (hex raw)))
  /\ (forall key_bytes, k = unpadded key_bytes ->
      fst (_get_license_key env self w) = Ok (Some (hex key_bytes))).
Proof.
  intros Ha Hcp Hkid Hhex Hpost Hkeys Hk.
  assert (Hrun : fst (_get_license_key env self w)
                 = (raw <~ b64decode (k +:+ "==") ;; Ok (Some (hex raw)))).
  { unfold _get_license_key, try_except, bind, lift, ret, request_kid, key_of_response.
    rewrite Ha. simpl. rewrite Hcp. simpl. rewrite Hkid, Hhex. simpl.
    rewrite Hpost. simpl. rewrite Hkeys. simpl. rewrite Hk. simpl.
    destruct (b64decode (k +:+ "==")) as [raw|e] eqn:Hdec; simpl; [done|].
    by rewrite (b64decode_not_KeyError _ _ Hdec). }
  split; [exact Hrun|]. split.
  - intros Hb64 Hlen. destruct (b64decode_padded k Hb64 Hlen) as [raw Hraw].
    exists raw. split; [done|]. by rewrite Hrun, Hraw.
  - intros key_bytes ->. by rewrite Hrun, b64decode_unpadded.
Qed.

Lemma license_key_example :
  fst (_get_license_key (env_of clearkey_answer) (downloader_of mpd_example false) world0)
  = Ok (Some "717765727479").
Proof.
  destruct (license_key_is_hex_of_decoded_k
              (env_of clearkey_answer) (downloader_of mpd_example false) world0
              video_set {| cenc_default_kid := Some "aabbccdd" |} [] "aabbccdd"
              [xaa; xbb; xcc; xdd]
              [("keys", JArr [JObj [("k", JStr "cXdlcnR5")]])] [("k", JStr "cXdlcnR5")] []
              "cXdlcnR5" eq_refl eq_refl eq_refl eq_refl eq_refl eq_refl eq_refl)
    as [Hkey _].
  rewrite Hkey. reflexivity.
Defined.

(** The answers the handler of [KeyError] covers: no [keys] entry, or a
    first key object without [k]. *)
Lemma license_missing_field_unsupported (env : Env) (self : VideoDownloader) (w : world)
    (a : AdaptationSet) (cp : ContentProtection) (cps : list ContentProtection)
    (kid : string) (raw_kid : list byte) (items : list (string * json)) :
  first_adaptation_set (mpd_master self) = Ok a ->
  content_protections a = Some (cp :: cps) ->
  cenc_default_kid cp = Some kid ->
  fromhex (remove_char "-" kid) = Ok raw_kid ->
  http_post env (net w) (get_clearkey_license_url (kinescope_video self))
    [("origin", KINESCOPE_BASE_URL env)]
    (license_request (remove_char "=" (b64encode raw_kid))) = Ok (JObj items) ->
  (dict_get items "keys" = None
   \/ exists key_items more_keys,
        dict_get items "keys" = Some (JArr (JObj key_items :: more_keys))
        /\ dict_get key_items "k" = None) ->
  exists msg, fst (_get_license_key env self w) = Raise (UnsupportedEncryption msg).
Proof.
  intros Ha Hcp Hkid Hhex Hpost Hshape. eexists.
  unfold _get_license_key, try_except, bind, lift, ret, raise, request_kid, key_of_response.
  rewrite Ha. simpl. rewrite Hcp. simpl. rewrite Hkid, Hhex. simpl. rewrite Hpost. simpl.
  destruct Hshape as [Hnone | (key_items & more & Hkeys & Hk)].
  - rewrite Hnone. simpl. reflexivity.
  - rewrite Hkeys. simpl. rewrite Hk. simpl. reflexivity.
Qed.

(** C2, where the code departs from it: when the answer has an empty
    [keys] list, [[][0]] raises [IndexError], which the handler of
    [KeyError] lets through, so the licence exchange ends with [IndexError]
    and not with [UnsupportedEncryption]. *)
Theorem license_empty_keys_escapes (env : Env) (self : VideoDownloader) (w : world)
    (a : AdaptationSet) (cp : ContentProtection) (cps : list ContentProtection)
    (kid : string) (raw_kid : list byte) (items : list (string * json)) :
  first_adaptation_set (mpd_master self) = Ok a ->
  content_protections a = Some (cp :: cps) ->
  cenc_default_kid cp = Some kid ->
  fromhex (remove_char "-" kid) = Ok raw_kid ->
  http_post env (net w) (get_clearkey_license_url (kinescope_video self))
    [("origin", KINESCOPE_BASE_URL env)]
    (license_request (remove_char "=" (b64encode raw_kid))) = Ok (JObj items) ->
  dict_get items "keys" = Some (JArr []) ->
  fst (_get_license_key env self w) = Raise IndexError.
Proof.
  intros Ha Hcp Hkid Hhex Hpost Hkeys.
  unfold _get_license_key, try_except, bind, lift, ret, raise, request_kid, key_of_response.
  rewrite Ha. simpl. rewrite Hcp. simpl. rewrite Hkid, Hhex. simpl. rewrite Hpost. simpl.
  rewrite Hkeys. reflexivity.
Qed.

Lemma license_empty_keys_example :
  fst (_get_license_key (env_of empty_keys_answer) (downloader_of mpd_example false) world0)
  = Raise IndexError.
Proof.
  exact (license_empty_keys_escapes (env_of empty_keys_answer)
           (downloader_of mpd_example false) world0 video_set
           {| cenc_default_kid := Some "aabbccdd" |} [] "aabbccdd" [xaa; xbb; xcc; xdd]
           [("keys", JArr [])] eq_refl eq_refl eq_refl eq_refl eq_refl eq_refl).
Defined.

(** * Only the first period is read *)

(** C9: two manifests with the same first period give the same
    resolutions, the same segment URLs for every requested resolution and
    the same licence exchange (result and world), whatever their later
    periods are. *)
Theorem only_first_period_is_read (env : Env) (m1 m2 : MPEGDASH) (p : Period)
    (ps1 ps2 : list Period) :
  periods m1 = Some (p :: ps1) ->
  periods m2 = Some (p :: ps2) ->
  get_resolutions m1 = get_resolutions m2
  /\ (forall res, _get_segments_urls m1 res = _get_segments_urls m2 res)
  /\ (forall self w,
        _get_license_key env (with_manifest self m1) w
        = _get_license_key env (with_manifest self m2) w).
Proof.
  intros H1 H2. split; [|split].
  - unfold get_resolutions. by rewrite H1, H2.
  - intros res. unfold _get_segments_urls. by rewrite H1, H2.
  - intros self w.
    unfold _get_license_key, request_kid, first_adaptation_set. simpl.
    by rewrite H1, H2.
Qed.

Lemma only_first_period_example :
  get_resolutions mpd_example = get_resolutions mpd_two_periods
  /\ _get_segments_urls mpd_example (Some 640%Z, Some 360%Z)
     = _get_segments_urls mpd_two_periods (Some 640%Z, Some 360%Z)
  /\ _get_license_key (env_of clearkey_answer)
       (with_manifest (downloader_of mpd_example false) mpd_example) world0
     = _get_license_key (env_of clearkey_answer)
         (with_manifest (downloader_of mpd_example false) mpd_two_periods) world0.
Proof.
  destruct (only_first_period_is_read (env_of clearkey_answer) mpd_example mpd_two_periods
              {| adaptation_sets := Some [video_set; audio_set] |} []
              [ {| adaptation_sets := Some [audio_set] |} ] eq_refl eq_refl)
    as (Hres & Hurls & Hkey).
  split; [exact Hres|]. split; [apply Hurls | apply Hkey].
Defined.

(** * Segment URLs of a resolution *)

Lemma first_match_index (res : resolution) (reps : list Representation) (rep : Representation) :
  first_match res reps rep ->
  exists i, index res (map resolution_of reps) = Ok i /\ nth_error reps i = Some rep.
Proof.
  induction 1 as [r rs Heq | r rs rep Hne _ (i & Hi & Hnth)]; simpl.
  - exists 0%nat. by rewrite decide_True.
  - exists (S i). rewrite decide_False by done. by rewrite Hi.
Qed.

Lemma first_match_exact (res : resolution) (reps : list Representation) (rep : Representation) :
  first_match res reps rep -> In rep reps /\ resolution_of rep = res.
Proof.
  induction 1 as [r rs Heq | r rs rep Hne _ [Hin Heq]]; simpl; [by auto|].
  split; [by right | done].
Qed.

Lemma index_missing (res : resolution) (l : list resolution) :
  ~ In res l -> index res l = Raise ValueError.
Proof.
  induction l as [|y r IH]; simpl; [done|]. intros Hnot.
  rewrite decide_False by (intros ->; apply Hnot; by left).
  rewrite IH; [done|]. intros Hin. apply Hnot. by right.
Qed.

Lemma selects_select_representation (res : resolution) (a : AdaptationSet)
    (rep : Representation) :
  selects res a rep -> select_representation res a = Ok rep.
Proof.
  intros (r0 & rs & Hreps & Hsel). unfold select_representation.
  rewrite Hreps. cbn [iter subscript0 rbind].
  destruct (truthy_int (height r0)).
  - apply first_match_index in Hsel as (i & -> & Hnth). simpl.
    unfold subscript. by rewrite Hnth.
  - by subst rep.
Qed.

Lemma media_urls_mapM (base : string) (segs : list SegmentURL) :
  mapM (fun segment_url => str_add (Some base) (default "" (media segment_url)))
       (filter (fun segment_url => truthy_str (media segment_url) = true) segs)
  = Ok (media_urls base segs).
Proof.
  induction segs as [|s r IH]; [done|].
  destruct (media s) as [[|c m]|] eqn:Hm; cbn [media_urls].
  - rewrite filter_cons_False by (by rewrite Hm). rewrite Hm. exact IH.
  - rewrite filter_cons_True by (by rewrite Hm). cbn [mapM].
    rewrite IH, Hm. reflexivity.
  - rewrite filter_cons_False by (by rewrite Hm). rewrite Hm. exact IH.
Qed.

Lemma urls_of_segment_urls_of (rep : Representation) (urls : list string) :
  urls_of rep urls -> segment_urls_of rep = Ok urls.
Proof.
  intros (b & bs & sl & sls & segs & base & Hb & Hbase & Hsl & Hsegs & ->).
  unfold segment_urls_of. rewrite Hb, Hsl. simpl. rewrite Hsegs, Hbase. simpl.
  apply media_urls_mapM.
Qed.

Lemma get_segments_urls_loop_app (res : resolution) (pre rest : list AdaptationSet)
    (acc : gmap (option string) (list string)) :
  get_segments_urls_loop res (pre ++ rest) acc
  = (d <~ get_segments_urls_loop res pre acc ;; get_segments_urls_loop res rest d).
Proof.
  revert acc. induction pre as [|a pre IH]; intros acc; simpl; [done|].
  destruct (select_representation res a); simpl; [|done].
  destruct (segment_urls_of _); simpl; [|done]. apply IH.
Qed.

Lemma get_segments_urls_loop_served (res : resolution) (sets : list AdaptationSet)
    (acc : gmap (option string) (list string)) :
  Forall (served res) sets ->
  exists d, get_segments_urls_loop res sets acc = Ok d.
Proof.
  intros Hall. revert acc.
  induction Hall as [|a sets (rep & urls & Hsel & Hurls) _ IH]; intros acc; simpl; [by eauto|].
  rewrite (selects_select_representation _ _ _ Hsel). simpl.
  rewrite (urls_of_segment_urls_of _ _ Hurls). simpl. apply IH.
Qed.

Lemma get_segments_urls_loop_other (res : resolution) (sets : list AdaptationSet)
    (acc d : gmap (option string) (list string)) (key : option string) :
  get_segments_urls_loop res sets acc = Ok d ->
  Forall (fun a => mime_type a <> key) sets ->
  d !! key = acc !! key.
Proof.
  intros Hrun Hall. revert acc Hrun.
  induction Hall as [|a sets Hne _ IH]; intros acc; simpl; [by intros [= ->]|].
  destruct (select_representation res a); simpl; [|done].
  destruct (segment_urls_of _); simpl; [|done].
  intros Hrun. rewrite (IH _ Hrun). by rewrite lookup_insert_ne.
Qed.

(** A set that carries a height and has no exact match stops the call. *)
Lemma get_segments_urls_no_match (mpd : MPEGDASH) (res : resolution) (p : Period)
    (ps : list Period) (pre post : list AdaptationSet) (a : AdaptationSet)
    (r0 : Representation) (rs : list Representation) :
  periods mpd = Some (p :: ps) ->
  adaptation_sets p = Some (pre ++ a :: post) ->
  Forall (served res) pre ->
  representations a = Some (r0 :: rs) ->
  truthy_int (height r0) = true ->
  ~ In res (map resolution_of (r0 :: rs)) ->
  _get_segments_urls mpd res = Raise (InvalidResolution "Invalid resolution specified").
Proof.
  intros Hp Hsets Hpre Hreps Htruthy Hmissing.
  unfold _get_segments_urls. rewrite Hp. cbn [subscript0 rbind].
  rewrite Hsets. cbn [iter rbind].
  rewrite get_segments_urls_loop_app.
  destruct (get_segments_urls_loop_served res pre ∅ Hpre) as [acc ->]. simpl.
  unfold select_representation. rewrite Hreps. cbn [iter subscript0 rbind].
  rewrite Htruthy. rewrite (index_missing _ _ Hmissing). reflexivity.
Qed.

(** C5: in the first period, when every adaptation set can be served, the
    result maps the MIME type of each adaptation set (the last one of that
    type) to base URL + media fragment of the segments with a non-empty
    fragment, in manifest order, of the selected representation: the first
    exact match of the requested (width, height) when the set carries a
    height, the first representation when it does not.  When a set that
    carries a height has no exact match, and the sets before it can be
    served, the call fails with [InvalidResolution]. *)
Theorem get_segments_urls_per_adaptation_set (mpd : MPEGDASH) (res : resolution)
    (p : Period) (ps : list Period) (sets : list AdaptationSet) :
  periods mpd = Some (p :: ps) ->
  adaptation_sets p = Some sets ->
  (Forall (served res) sets ->
   exists d, _get_segments_urls mpd res = Ok d
     /\ forall pre a post rep urls,
          sets = pre ++ a :: post ->
          Forall (fun a' => mime_type a' <> mime_type a) post ->
          selects res a rep ->
          urls_of rep urls ->
          d !! mime_type a = Some urls)
  /\ (forall pre a post r0 rs,
        sets = pre ++ a :: post ->
        Forall (served res) pre ->
        representations a = Some (r0 :: rs) ->
        truthy_int (height r0) = true ->
        ~ In res (map resolution_of (r0 :: rs)) ->
        _get_segments_urls mpd res = Raise (InvalidResolution "Invalid resolution specified")).
Proof.
  intros Hp Hsets. unfold _get_segments_urls. rewrite Hp. cbn [subscript0 rbind].
  rewrite Hsets. cbn [iter rbind]. split.
  - intros Hall. destruct (get_segments_urls_loop_served res sets ∅ Hall) as [d Hd].
    rewrite Hd. exists d. split; [done|].
    intros pre a post rep urls -> Hpost Hsel Hurls.
    rewrite get_segments_urls_loop_app in Hd.
    destruct (get_segments_urls_loop res pre ∅) as [acc|]; simpl in Hd; [|done].
    rewrite (selects_select_representation _ _ _ Hsel) in Hd. simpl in Hd.
    rewrite (urls_of_segment_urls_of _ _ Hurls) in Hd. simpl in Hd.
    rewrite (get_segments_urls_loop_other _ _ _ _ _ Hd Hpost).
    by rewrite lookup_insert_eq.
  - intros pre a post r0 rs -> Hpre Hreps Htruthy Hmissing.
    pose proof (get_segments_urls_no_match mpd res p ps pre post a r0 rs
                  Hp Hsets Hpre Hreps Htruthy Hmissing) as Hfail.
    unfold _get_segments_urls in Hfail. rewrite Hp in Hfail.
    cbn [subscript0 rbind] in Hfail. rewrite Hsets in Hfail. exact Hfail.
Qed.

Lemma video_set_served :
  selects (Some 640%Z, Some 360%Z) video_set
    (representation_of (Some 640%Z) (Some 360%Z) "v360/" ["a"; "b"; "a"])
  /\ urls_of (representation_of (Some 640%Z) (Some 360%Z) "v360/" ["a"; "b"; "a"])
       ["v360/a"; "v360/b"; "v360/a"].
Proof.
  split.
  - do 2 eexists. split; [reflexivity|]. simpl.
    apply first_match_later; [discriminate|]. by apply first_match_here.
  - do 6 eexists. repeat (split; [reflexivity|]). reflexivity.
Qed.

Lemma audio_set_served (res : resolution) :
  selects res audio_set (representation_of None None "au/" ["1"; "2"; "1"; ""])
  /\ urls_of (representation_of None None "au/" ["1"; "2"; "1"; ""]) ["au/1"; "au/2"; "au/1"].
Proof.
  split.
  - do 2 eexists. split; reflexivity.
  - do 6 eexists. repeat (split; [reflexivity|]). reflexivity.
Qed.

Lemma get_segments_urls_example :
  (exists d, _get_segments_urls mpd_example (Some 640%Z, Some 360%Z) = Ok d
     /\ d !! Some "video/mp4" = Some ["v360/a"; "v360/b"; "v360/a"]
     /\ d !! Some "audio/mp4" = Some ["au/1"; "au/2"; "au/1"])
  /\ _get_segments_urls mpd_example (Some 640%Z, Some 480%Z)
     = Raise (InvalidResolution "Invalid resolution specified").
Proof.
  split.
  - destruct (get_segments_urls_per_adaptation_set mpd_example (Some 640%Z, Some 360%Z)
                {| adaptation_sets := Some [video_set; audio_set] |} []
                [video_set; audio_set] eq_refl eq_refl) as [Hserved _].
    destruct Hserved as (d & Hd & Hlookup).
    { repeat constructor.
      - do 2 eexists. exact video_set_served.
      - do 2 eexists. exact (audio_set_served _). }
    exists d. split; [exact Hd|]. split.
    + refine (Hlookup [] video_set [audio_set] _ _ eq_refl _
                (proj1 video_set_served) (proj2 video_set_served)).
      by repeat constructor.
    + refine (Hlookup [video_set] audio_set [] _ _ eq_refl _
                (proj1 (audio_set_served _)) (proj2 (audio_set_served (None, None)))).
      constructor.
  - destruct (get_segments_urls_per_adaptation_set mpd_example (Some 640%Z, Some 480%Z)
                {| adaptation_sets := Some [video_set; audio_set] |} []
                [video_set; audio_set] eq_refl eq_refl) as [_ Hfails].
    eapply (Hfails [] video_set [audio_set]); [reflexivity | constructor | reflexivity | reflexivity |].
    simpl. intros [H | [H | []]]; discriminate H.
Defined.

(** * Fetching segments *)

Lemma distinct_filter (P : string -> Prop) `{forall x, Decision (P x)} (l : list string) :
  distinct (filter P l) = filter P (distinct l).
Proof.
  induction l as [|x r IH]; [done|]. rewrite filter_cons. destruct (decide (P x)).
  - simpl. rewrite filter_cons_True by done. f_equal.
    rewrite IH. rewrite !list_filter_filter. apply list_filter_iff. intros y. tauto.
  - simpl. rewrite filter_cons_False by done. rewrite IH.
    rewrite list_filter_filter. apply list_filter_iff. intros y. split; [|tauto].
    intros Hy. split; [done|]. by intros ->.
Qed.

Lemma distinct_elem_of (l : list string) (x : string) : x ∈ distinct l <-> x ∈ l.
Proof.
  induction l as [|y r IH]; simpl; [done|].
  rewrite !elem_of_cons, list_elem_of_filter, IH.
  destruct (decide (x = y)); tauto.
Qed.

Lemma distinct_NoDup (l : list string) : NoDup (distinct l).
Proof.
  induction l as [|y r IH]; simpl; [constructor|].
  apply NoDup_cons. split.
  - rewrite list_elem_of_filter. intros [Hne _]. by apply Hne.
  - by apply NoDup_filter.
Qed.

Lemma downloads_app (env : Env) (history a b : list request) :
  downloads env history (a ++ b)
  = downloads env history a ++ downloads env (history ++ a) b.
Proof.
  revert history. induction a as [|r a IH]; intros history; simpl.
  - by rewrite app_nil_r.
  - rewrite IH. rewrite <- !app_assoc. reflexivity.
Qed.

Lemma fetched_refl (env : Env) (file : path) (w : world) (c : list byte) :
  fs w !! file = Some (File c) -> fetched env file w w [].
Proof.
  intros Hc. split; [by rewrite app_nil_r|]. split; [done|]. split; [done|].
  exists c. simpl. by rewrite app_nil_r.
Qed.

Lemma fetched_trans (env : Env) (file : path) (w1 w2 w3 : world) (a b : list request) :
  fetched env file w1 w2 a -> fetched env file w2 w3 b -> fetched env file w1 w3 (a ++ b).
Proof.
  intros (Hn1 & Hp1 & Hf1 & c & Hc1 & Hc2) (Hn2 & Hp2 & Hf2 & c' & Hc2' & Hc3).
  split; [by rewrite Hn2, Hn1, app_assoc|]. split; [congruence|].
  split; [intros p Hp; by rewrite Hf2, Hf1|].
  exists c. split; [done|]. rewrite Hc3. rewrite Hc2 in Hc2'. injection Hc2' as <-.
  rewrite downloads_app, map_app, concat_app, <- Hn1, app_assoc. reflexivity.
Qed.

Section Fetch.
Variable env : Env.

(** One segment: at most [attempts] requests for the same URL, all but
    possibly the last one unanswered. *)
Lemma fetch_segment_attempts_spec (attempts : nat) (url : string) (file : path) :
  forall (w w' : world) (r : result unit) (c : list byte),
    fs w !! file = Some (File c) ->
    fetch_segment_attempts env attempts url file w = (r, w') ->
    exists new,
      fetched env file w w' new
      /\ (length new <= attempts)%nat
      /\ Forall (fun q => q = GET url []) new
      /\ match r with
         | Ok _ => exists body, downloads env (net w) new = [(url, body)]
         | Raise _ => downloads env (net w) new = []
         end.
Proof.
  induction attempts as [|n IH]; intros w w' r c Hc; simpl.
  - intros [= <- <-]. exists []. split; [by eapply fetched_refl|]. by repeat split.
  - destruct (http_get env (net w) url) as [body|e] eqn:Hget.
    + intros [= <- <-]. exists [GET url []]. split.
      * split; [done|]. split; [done|]. simpl. split.
        -- intros p Hp. unfold write. rewrite Hc. by rewrite lookup_insert_ne.
        -- exists c. split; [done|]. unfold write. rewrite Hc, Hget. simpl.
           rewrite lookup_insert_eq. by rewrite app_nil_r.
      * split; [simpl; lia|]. split; [by repeat constructor|].
        exists body. simpl. by rewrite Hget.
    + assert (Hfail : fetched env file w (sent (GET url []) w) [GET url []]
                      /\ downloads env (net w) [GET url []] = []).
      { split; [|by simpl; rewrite Hget].
        split; [done|]. split; [done|]. split; [done|].
        exists c. split; [done|]. simpl. rewrite Hget. simpl. by rewrite app_nil_r. }
      destruct Hfail as [Hsent Hnone].
      destruct e; try (intros [= <- <-]; exists [GET url []];
        split; [exact Hsent|]; split; [simpl; lia|]; split; [by repeat constructor|];
        exact Hnone).
      intros Hrun. destruct (IH (sent (GET url []) w) w' r c Hc Hrun) as (new & Hnew & Hlen & Hall & Hres).
      exists ([GET url []] ++ new). split; [by eapply fetched_trans|].
      split; [simpl; lia|]. split; [by constructor|].
      rewrite downloads_app, Hnone. exact Hres.
Qed.

Lemma sent_requests (w : world) (url : string) (n : nat) (f : filesystem) :
  {| net := (net w ++ [GET url []]) ++ repeat (GET url []) n; fs := f; procs := procs w |}
  = {| net := net w ++ repeat (GET url []) (S n); fs := f; procs := procs w |}.
Proof. by rewrite <- app_assoc. Qed.

(** While the server keeps truncating, the loop of [_fetch_segment] only
    sends requests. *)
Lemma fetch_segment_attempts_fail (n : nat) (url : string) (file : path) :
  forall (w : world) (m : nat),
    (forall i, (i < n)%nat ->
       http_get env (net w ++ repeat (GET url []) i) url = Raise ChunkedEncodingError) ->
    fetch_segment_attempts env (n + m) url file w
    = fetch_segment_attempts env m url file
        {| net := net w ++ repeat (GET url []) n; fs := fs w; procs := procs w |}.
Proof.
  induction n as [|n IH]; intros w m Hfail.
  - simpl. rewrite app_nil_r. by destruct w.
  - cbn [Nat.add fetch_segment_attempts].
    pose proof (Hfail 0%nat ltac:(lia)) as H0. simpl in H0. rewrite app_nil_r in H0.
    rewrite H0. rewrite IH.
    + unfold sent. cbn [net fs procs]. by rewrite sent_requests.
    + intros i Hi. unfold sent. cbn [net]. rewrite <- app_assoc.
      apply (Hfail (S i)). lia.
Qed.

Lemma filter_not_in_empty (visited : gset string) (l : list string) :
  visited = ∅ -> filter (fun u => u ∉ visited) l = l.
Proof.
  intros ->. induction l as [|x r IH]; [done|].
  rewrite filter_cons_True by apply not_elem_of_empty. by rewrite IH.
Qed.

Lemma distinct_step (visited : gset string) (url : string) (rest : list string) :
  url ∉ visited ->
  distinct (filter (fun u => u ∉ visited) (url :: rest))
  = url :: distinct (filter (fun u => u ∉ {[url]} ∪ visited) rest).
Proof.
  intros Hnew. rewrite filter_cons_True by done. simpl. f_equal.
  rewrite <- distinct_filter. f_equal.
  rewrite list_filter_filter. apply list_filter_iff. intros y.
  rewrite not_elem_of_union, not_elem_of_singleton. tauto.
Qed.

(** The loop of [_fetch_segments] from any set of visited URLs. *)
Lemma fetch_segments_loop_spec (urls : list string) (file : path) :
  forall (visited : gset string) (w w' : world) (r : result unit) (c : list byte),
    fs w !! file = Some (File c) ->
    fetch_segments_loop env urls file visited w = (r, w') ->
    exists new,
      fetched env file w w' new
      /\ (r = Ok tt ->
          map fst (downloads env (net w) new)
          = distinct (filter (fun u => u ∉ visited) urls))
      /\ (reliable env ->
          r = Ok tt
          /\ new = map (fun u => GET u []) (distinct (filter (fun u => u ∉ visited) urls))).
Proof.
  induction urls as [|url rest IH]; intros visited w w' r c Hc; cbn [fetch_segments_loop].
  - intros [= <- <-]. exists []. split; [by eapply fetched_refl|]. by split.
  - destruct (decide (url ∈ visited)) as [Hin|Hnew].
    { intros Hrun. rewrite filter_cons_False by (intros Hn; by apply Hn). by eapply IH. }
    unfold bind, _fetch_segment.
    destruct (fetch_segment_attempts env 5 url file w) as [r1 w1] eqn:Hone.
    destruct (fetch_segment_attempts_spec 5 url file w w1 r1 c Hc Hone)
      as (new1 & Hf1 & _ & _ & Hres).
    assert (Hrel : reliable env -> r1 = Ok tt /\ new1 = [GET url []]).
    { intros Hr. destruct (Hr (net w) url) as [body Hbody].
      cbn [fetch_segment_attempts] in Hone. rewrite Hbody in Hone.
      injection Hone as <- <-. split; [done|]. destruct Hf1 as [Hnet _].
      simpl in Hnet. by apply app_inv_head in Hnet. }
    rewrite distinct_step by done.
    destruct r1 as [[]|e].
    + destruct Hres as [body Hbody]. intros Hrest.
      destruct Hf1 as (Hn1 & Hp1 & Hfr1 & c1 & Hc1 & Hc1').
      destruct (IH _ _ _ _ _ Hc1' Hrest) as (new2 & Hf2 & Hok & Hrel2).
      exists (new1 ++ new2). split.
      { eapply fetched_trans; [|exact Hf2]. repeat split; eauto. }
      split.
      * intros Hr. rewrite downloads_app, map_app, Hbody, <- Hn1. simpl.
        by rewrite (Hok Hr).
      * intros Hr. destruct (Hrel Hr) as [_ ->]. destruct (Hrel2 Hr) as [-> ->]. done.
    + intros [= <- <-]. exists new1. split; [done|]. split; [done|].
      intros Hr. by destruct (Hrel Hr).
Qed.

(** C3: into a file that can be opened, [_fetch_segments] writes exactly
    the bodies it received, in the order received; when it completes,
    the received segments are the distinct URLs of the list, one each, in
    the order of their first occurrence; and when the server answers every
    request it completes having sent one request per distinct URL. *)
Theorem fetch_segments_once_per_distinct_url (urls : list string) (file : path)
    (w w' : world) (r : result unit) :
  fst (open_wb file (fs w)) = Ok tt ->
  _fetch_segments env urls file w = (r, w') ->
  exists new,
    net w' = net w ++ new
    /\ fs w' !! file = Some (File (concat (map snd (downloads env (net w) new))))
    /\ (r = Ok tt -> map fst (downloads env (net w) new) = distinct urls)
    /\ (reliable env -> r = Ok tt /\ new = map (fun u => GET u []) (distinct urls)).
Proof.
  intros Hopen. unfold _fetch_segments, bind, on_fs.
  destruct (open_wb file (fs w)) as [ro f0] eqn:Ho. simpl in Hopen. subst ro.
  assert (Hf0 : f0 = <[file := File []]> (fs w)).
  { unfold open_wb in Ho. destruct (is_dir (fs w) file); [done|].
    destruct (check_parent (fs w) file); by injection Ho. }
  subst f0. intros Hloop.
  destruct (fetch_segments_loop_spec urls file ∅
              {| net := net w; fs := <[file := File []]> (fs w); procs := procs w |}
              w' r [] (lookup_insert_eq _ _ _) Hloop)
    as (new & (Hnet & _ & _ & c & Hc & Hc') & Hok & Hrel).
  rewrite (filter_not_in_empty ∅ urls eq_refl) in Hok, Hrel.
  exists new. split; [exact Hnet|]. split; [|by split].
  cbn [net fs] in Hc, Hc'. rewrite lookup_insert_eq in Hc. injection Hc as <-.
  exact Hc'.
Qed.

(** C4: [_fetch_segment] sends at most five requests, all for its URL.
    When the first four are truncated and the fifth is answered, it
    returns normally with the body appended once; when the fifth is
    truncated too, it raises [SegmentDownloadError] naming the URL, the file
    is left as it was, and the loop of [_fetch_segments] stops there,
    whatever URLs follow. *)
Theorem fetch_segment_five_attempts (url : string) (file : path) (w : world)
    (c : list byte) :
  fs w !! file = Some (File c) ->
  let after (n : nat) (f : filesystem) : world :=
    {| net := net w ++ repeat (GET url []) n; fs := f; procs := procs w |} in
  (exists n, (n <= 5)%nat /\ net (snd (_fetch_segment env url file w)) = net (after n (fs w)))
  /\ ((forall i, (i < 4)%nat ->
         http_get env (net w ++ repeat (GET url []) i) url = Raise ChunkedEncodingError) ->
      (forall body,
          http_get env (net w ++ repeat (GET url []) 4) url = Ok body ->
          _fetch_segment env url file w
          = (Ok tt, after 5%nat (<[file := File (c ++ body)]> (fs w))))
      /\ (http_get env (net w ++ repeat (GET url []) 4) url = Raise ChunkedEncodingError ->
          _fetch_segment env url file w
          = (Raise (SegmentDownloadError ("Failed to download segment " +:+ url)),
             after 5%nat (fs w))
          /\ forall visited rest,
               url ∉ visited ->
               fetch_segments_loop env (url :: rest) file visited w
               = (Raise (SegmentDownloadError ("Failed to download segment " +:+ url)),
                  after 5%nat (fs w)))).
Proof.
  intros Hc after. split.
  - destruct (_fetch_segment env url file w) as [r w'] eqn:Hrun.
    destruct (fetch_segment_attempts_spec 5 url file w w' r c Hc Hrun)
      as (new & (Hnet & _) & Hlen & Hall & _).
    exists (length new). split; [done|]. simpl. rewrite Hnet. f_equal.
    clear -Hall. induction Hall as [|q new -> _ IH]; simpl; [done|]. by f_equal.
  - intros Hfail.
    assert (Hfour : fetch_segment_attempts env 5 url file w
                    = fetch_segment_attempts env 1 url file (after 4%nat (fs w))).
    { by apply (fetch_segment_attempts_fail 4 url file w 1). }
    split.
    + intros body Hbody. unfold _fetch_segment. rewrite Hfour.
      cbn [fetch_segment_attempts after net fs procs sent]. rewrite Hbody.
      unfold write. rewrite Hc. subst after. cbn beta.
      by rewrite <- (app_assoc (net w)).
    + intros Hlast.
      assert (Hrun : _fetch_segment env url file w
                     = (Raise (SegmentDownloadError ("Failed to download segment " +:+ url)),
                        after 5%nat (fs w))).
      { unfold _fetch_segment. rewrite Hfour.
        cbn [fetch_segment_attempts after net fs procs sent]. rewrite Hlast.
        unfold raise, sent. subst after. cbn beta. cbn [net fs procs].
        by rewrite <- (app_assoc (net w)). }
      split; [exact Hrun|].
      intros visited rest Hnew. cbn [fetch_segments_loop].
      rewrite decide_False by done. unfold bind. by rewrite Hrun.
Qed.
End Fetch.

Lemma env_of_reliable (answer : json) : reliable (env_of answer).
Proof. intros history url. by eexists. Qed.

Lemma fetch_segments_example :
  let run := _fetch_segments (env_of clearkey_answer) ["au/1"; "au/2"; "au/1"]
               ["temp"; "vid_Audio.aac"] world0 in
  fst run = Ok tt
  /\ net (snd run) = [GET "au/1" []; GET "au/2" []]
  /\ fs (snd run) !! ["temp"; "vid_Audio.aac"] = Some (File (body_of "au/1" ++ body_of "au/2")).
Proof.
  intros run.
  destruct (fetch_segments_once_per_distinct_url (env_of clearkey_answer)
              ["au/1"; "au/2"; "au/1"] ["temp"; "vid_Audio.aac"] world0 (snd run) (fst run)
              eq_refl (surjective_pairing run))
    as (new & Hnet & Hfile & _ & Hreliable).
  destruct (Hreliable (env_of_reliable _)) as [Hok Hnew].
  split; [exact Hok|]. rewrite Hnet, Hfile, Hnew. split; reflexivity.
Defined.

Lemma fetch_segment_example :
  _fetch_segment (env_flaky 4) "au/1" ["temp"; "vid_Audio.aac"] world_open
  = (Ok tt,
     {| net := repeat (GET "au/1" []) 5;
        fs := <[ ["temp"; "vid_Audio.aac"] := File (body_of "au/1") ]> (fs world_open);
        procs := [] |})
  /\ fetch_segments_loop (env_flaky 5) ["au/1"; "au/2"] ["temp"; "vid_Audio.aac"] ∅ world_open
     = (Raise (SegmentDownloadError "Failed to download segment au/1"),
        {| net := repeat (GET "au/1" []) 5; fs := fs world_open; procs := [] |}).
Proof.
  split.
  - destruct (fetch_segment_five_attempts (env_flaky 4) "au/1" ["temp"; "vid_Audio.aac"]
                world_open [] eq_refl) as [_ Hretry].
    destruct Hretry as [Hfifth _].
    { intros i Hi. simpl. rewrite repeat_length.
      by destruct i as [|[|[|[|i]]]]; [..|lia]. }
    exact (Hfifth (body_of "au/1") eq_refl).
  - destruct (fetch_segment_five_attempts (env_flaky 5) "au/1" ["temp"; "vid_Audio.aac"]
                world_open [] eq_refl) as [_ Hretry].
    destruct Hretry as [_ Hgiveup].
    { intros i Hi. simpl. rewrite repeat_length.
      by destruct i as [|[|[|[|i]]]]; [..|lia]. }
    destruct (Hgiveup eq_refl) as [_ Hloop].
    apply (Hloop ∅ ["au/2"]). apply not_elem_of_empty.
Defined.

(** * What each step leaves alone *)

Section Respects.
Variable R : world -> world -> Prop.
Hypothesis R_refl : forall w, R w w.
Hypothesis R_trans : forall w1 w2 w3, R w1 w2 -> R w2 w3 -> R w1 w3.

Lemma respects_ret {A} (a : A) : respects R (ret a).
Proof. intros w r w' [= <- <-]. apply R_refl. Qed.

Lemma respects_raise {A} (e : exn) : respects R (@raise A e).
Proof. intros w r w' [= <- <-]. apply R_refl. Qed.

Lemma respects_lift {A} (x : result A) : respects R (lift x).
Proof. intros w r w' [= <- <-]. apply R_refl. Qed.

Lemma respects_bind {A B} (c : M A) (k : A -> M B) :
  respects R c -> (forall a, respects R (k a)) -> respects R (bind c k).
Proof.
  intros Hc Hk w r w'. unfold bind.
  destruct (c w) as [[a|e] w1] eqn:Hrun.
  - intros Hrest. eapply R_trans; [by eapply Hc | by eapply Hk].
  - intros [= <- <-]. by eapply Hc.
Qed.

Lemma respects_try_except {A} (c h : M A) (handled : exn -> bool) :
  respects R c -> respects R h -> respects R (try_except c handled h).
Proof.
  intros Hc Hh w r w'. unfold try_except.
  destruct (c w) as [[a|e] w1] eqn:Hrun.
  - intros [= <- <-]. by eapply Hc.
  - destruct (handled e).
    + intros Hrest. eapply R_trans; [by eapply Hc | by eapply Hh].
    + intros [= <- <-]. by eapply Hc.
Qed.
End Respects.

Lemma same_files_refl (w : world) : same_files w w.
Proof. by split. Qed.

Lemma same_files_trans (w1 w2 w3 : world) :
  same_files w1 w2 -> same_files w2 w3 -> same_files w1 w3.
Proof. intros [? ?] [? ?]. split; congruence. Qed.

Lemma quiet_refl (w : world) : quiet w w.
Proof. exists []. split; [by rewrite app_nil_r|]. by intros _ p. Qed.

Lemma quiet_trans (w1 w2 w3 : world) : quiet w1 w2 -> quiet w2 w3 -> quiet w1 w3.
Proof.
  intros (s1 & Hs1 & Hk1) (s2 & Hs2 & Hk2). exists (s1 ++ s2).
  split; [by rewrite Hs2, Hs1, app_assoc|].
  intros Hnil. apply app_eq_nil in Hnil as [-> ->].
  intros p Hp. apply Hk2; [done|]. by apply Hk1.
Qed.

Lemma same_files_quiet (w w' : world) : same_files w w' -> quiet w w'.
Proof.
  intros [Hfs Hprocs]. exists []. split; [by rewrite app_nil_r|].
  intros _ p. by rewrite Hfs.
Qed.

(** The licence exchange only talks to the network. *)
Lemma license_key_same_files (env : Env) (self : VideoDownloader) :
  respects same_files (_get_license_key env self).
Proof.
  unfold _get_license_key.
  apply respects_try_except; try apply same_files_trans.
  - apply respects_bind; try apply same_files_trans.
    + apply respects_lift, same_files_refl.
    + intros a. destruct (truthy_list _).
      * apply respects_bind; try apply same_files_trans;
          [apply respects_lift, same_files_refl|].
        intros kid. apply respects_bind; try apply same_files_trans.
        -- intros w r w' [= <- <-]. by split.
        -- intros response. apply respects_bind; try apply same_files_trans;
             [apply respects_lift, same_files_refl|].
           intros key. apply respects_ret, same_files_refl.
      * apply respects_ret, same_files_refl.
  - apply respects_raise, same_files_refl.
Qed.

(** ** File-system steps *)

Lemma is_dir_lookup (f : filesystem) (p : path) :
  f !! p = Some Dir -> is_dir f p = true.
Proof. intros H. unfold is_dir. rewrite H. by destruct p. Qed.

Lemma keeps_dirs_refl (f : filesystem) : keeps_dirs f f.
Proof. by intros p. Qed.

Lemma keeps_dirs_insert (f : filesystem) (p : path) (n : node) :
  is_dir f p = false -> keeps_dirs f (<[p := n]> f).
Proof.
  intros Hp q Hq. destruct (decide (p = q)) as [->|Hne].
  - by rewrite (is_dir_lookup _ _ Hq) in Hp.
  - by rewrite lookup_insert_ne.
Qed.

Lemma open_wb_spec (p : path) (f f' : filesystem) (r : result unit) :
  open_wb p f = (r, f') ->
  (r = Ok tt /\ f' = <[p := File []]> f /\ is_dir f p = false)
  \/ ((exists e, r = Raise e) /\ f' = f).
Proof.
  unfold open_wb. destruct (is_dir f p) eqn:Hd.
  - intros [= <- <-]. right. eauto.
  - destruct (check_parent f p) as [[]|e]; intros [= <- <-]; [left | right]; eauto.
Qed.

Lemma os_mkdir_spec (p : path) (f f' : filesystem) (r : result unit) :
  os_mkdir p f = (r, f') ->
  (r = Ok tt /\ f' = <[p := Dir]> f /\ f !! p = None)
  \/ ((exists e, r = Raise e) /\ f' = f).
Proof.
  unfold os_mkdir. destruct (path_exists f p) eqn:Hex.
  - intros [= <- <-]. right. eauto.
  - destruct (check_parent f p) as [[]|e]; intros [= <- <-]; [left | right]; eauto.
    repeat split. unfold path_exists in Hex. destruct p; [done|].
    by destruct (f !! (s :: p)).
Qed.

Lemma removelast_prefix (p : path) : removelast p `prefix_of` p.
Proof.
  destruct (decide (p = [])) as [->|Hne]; [done|].
  exists [List.last p ""]. by apply app_removelast_last.
Qed.

Lemma parent_prefix (p : path) : parent p `prefix_of` p.
Proof.
  unfold parent. repeat case_match; subst; (reflexivity || apply removelast_prefix).
Qed.

(** [mkdir(parents=True)] only adds directories, on the way to [p]. *)
Lemma mkdir_parents_upto_spec (depth : nat) :
  forall (p : path) (f f' : filesystem) (r : result unit),
    mkdir_parents_upto depth p f = (r, f') ->
    forall q, f' !! q = f !! q
              \/ (f !! q = None /\ f' !! q = Some Dir /\ q `prefix_of` p).
Proof.
  induction depth as [|d IH]; intros p f f' r; cbn [mkdir_parents_upto].
  - destruct (os_mkdir p f) as [r0 f0] eqn:Hmk.
    apply os_mkdir_spec in Hmk as [(-> & -> & Hnone) | ([e ->] & ->)].
    + intros [= <- <-] q. destruct (decide (p = q)) as [<-|Hne].
      * right. by rewrite lookup_insert_eq.
      * left. by rewrite lookup_insert_ne.
    + destruct e; try (destruct (is_dir f p)); intros [= <- <-] q; by left.
  - destruct (os_mkdir p f) as [r0 f0] eqn:Hmk.
    apply os_mkdir_spec in Hmk as [(-> & -> & Hnone) | ([e ->] & ->)].
    + intros [= <- <-] q. destruct (decide (p = q)) as [<-|Hne].
      * right. by rewrite lookup_insert_eq.
      * left. by rewrite lookup_insert_ne.
    + assert (Hsame : forall r1 f1, (if is_dir f p then (Ok tt, f) else (Raise e, f)) = (r1, f1) ->
                forall q, f1 !! q = f !! q
                          \/ (f !! q = None /\ f1 !! q = Some Dir /\ q `prefix_of` p)).
      { intros r1 f1 H q. destruct (is_dir f p); injection H as <- <-; by left. }
      destruct e; try (apply Hsame).
      destruct (mkdir_parents_upto d (parent p) f) as [[[]|e1] f1] eqn:Hrec.
      * pose proof (IH _ _ _ _ Hrec) as Hparent.
        destruct (os_mkdir p f1) as [r2 f2] eqn:Hmk2.
        apply os_mkdir_spec in Hmk2 as [(-> & -> & Hnone) | ([e2 ->] & ->)].
        -- intros [= <- <-] q. destruct (decide (p = q)) as [<-|Hne].
           ++ right. rewrite lookup_insert_eq. repeat split; [|done].
              destruct (Hparent p) as [Heq | (Hn & _ & _)]; congruence.
           ++ rewrite lookup_insert_ne by done.
              destruct (Hparent q) as [Heq | (Hn & Hd & Hpre)]; [by left | right].
              repeat split; [done | done |]. etrans; [exact Hpre | apply parent_prefix].
        -- intros Hres q.
           assert (f' = f1) as -> by (destruct (is_dir f1 p); by injection Hres).
           destruct (Hparent q) as [Heq | (Hn & Hd & Hpre)]; [by left | right].
           repeat split; [done | done |]. etrans; [exact Hpre | apply parent_prefix].
      * intros [= <- <-] q.
        destruct (IH _ _ _ _ Hrec q) as [Heq | (Hn & Hd & Hpre)]; [by left | right].
        repeat split; [done | done |]. etrans; [exact Hpre | apply parent_prefix].
Qed.

Lemma mkdir_parents_spec (p : path) (f f' : filesystem) (r : result unit) :
  mkdir_parents p f = (r, f') ->
  forall q, f' !! q = f !! q
            \/ (f !! q = None /\ f' !! q = Some Dir /\ q `prefix_of` p).
Proof. apply mkdir_parents_upto_spec. Qed.

(** * The resolution is resolved for every track *)

(** C10: once the licence exchange has succeeded, a requested resolution
    that the video adaptation set does not offer makes [download] fail with
    [InvalidResolution] in every mode, audio-only included, before any
    segment is requested: the world is the one the licence exchange left. *)
Theorem download_checks_resolution_in_every_mode (env : Env) (self : VideoDownloader)
    (filepath : string) (res : resolution) (w w1 : world) (key : option string)
    (p : Period) (ps : list Period) (pre post : list AdaptationSet) (v : AdaptationSet)
    (r0 : Representation) (rs : list Representation) :
  _get_license_key env self w = (Ok key, w1) ->
  periods (mpd_master self) = Some (p :: ps) ->
  adaptation_sets p = Some (pre ++ v :: post) ->
  Forall (served res) pre ->
  representations v = Some (r0 :: rs) ->
  truthy_int (height r0) = true ->
  ~ In res (map resolution_of (r0 :: rs)) ->
  download env self filepath (Some res) w
  = (Raise (InvalidResolution "Invalid resolution specified"), w1).
Proof.
  intros Hkey Hp Hsets Hpre Hreps Htruthy Hmissing.
  unfold download, bind, lift. cbn [chosen_resolution]. rewrite Hkey.
  by rewrite (get_segments_urls_no_match _ _ _ _ _ _ _ _ _ Hp Hsets Hpre Hreps Htruthy Hmissing).
Qed.

Lemma download_audio_only_invalid_resolution :
  download (env_of clearkey_answer) (downloader_of mpd_clear true) "out.mp4"
    (Some (Some 640%Z, Some 480%Z)) world0
  = (Raise (InvalidResolution "Invalid resolution specified"), world0).
Proof.
  eapply (download_checks_resolution_in_every_mode (env_of clearkey_answer)
            (downloader_of mpd_clear true) "out.mp4" (Some 640%Z, Some 480%Z) world0 world0
            None _ [] [audio_set] [] _ _ _ eq_refl eq_refl eq_refl).
  - constructor; [|constructor]. do 2 eexists. exact (audio_set_served _).
  - reflexivity.
  - reflexivity.
  - simpl. intros [H | [H | []]]; discriminate H.
Defined.

(** * What the steps of a download do to directories *)

Lemma quiet_bind {A B} (c : M A) (k : A -> M B) :
  respects quiet c -> (forall a, respects quiet (k a)) -> respects quiet (bind c k).
Proof. apply respects_bind, quiet_trans. Qed.

Lemma quiet_lift {A} (x : result A) : respects quiet (lift x).
Proof. apply respects_lift, quiet_refl. Qed.

Lemma quiet_ret {A} (a : A) : respects quiet (ret a).
Proof. apply respects_ret, quiet_refl. Qed.

Lemma quiet_on_fs (op : filesystem -> result unit * filesystem) :
  (forall f r f', op f = (r, f') -> keeps_dirs f f') -> respects quiet (on_fs op).
Proof.
  intros Hop w r w'. unfold on_fs. destruct (op (fs w)) as [r0 f0] eqn:Hrun.
  intros [= <- <-]. exists []. split; [by rewrite app_nil_r|].
  intros _. by eapply Hop.
Qed.

Lemma open_wb_keeps_dirs (p : path) (f f' : filesystem) (r : result unit) :
  open_wb p f = (r, f') -> keeps_dirs f f'.
Proof.
  intros [(_ & -> & Hd) | (_ & ->)]%open_wb_spec;
    [by apply keeps_dirs_insert | apply keeps_dirs_refl].
Qed.

Lemma mkdir_parents_keeps_dirs (p : path) (f f' : filesystem) (r : result unit) :
  mkdir_parents p f = (r, f') -> keeps_dirs f f'.
Proof.
  intros Hrun q Hq.
  destruct (mkdir_parents_spec _ _ _ _ Hrun q) as [-> | (Hnone & _)]; congruence.
Qed.

Lemma fetched_quiet (env : Env) (file : path) (w w' : world) (new : list request) :
  fetched env file w w' new -> quiet w w'.
Proof.
  intros (_ & Hprocs & Hother & c & Hc & _). exists [].
  split; [by rewrite app_nil_r|]. intros _ q Hq.
  rewrite Hother; [done|]. intros ->. congruence.
Qed.

Lemma fetch_segments_quiet (env : Env) (urls : list string) (file : path) :
  respects quiet (_fetch_segments env urls file).
Proof.
  intros w r w'. unfold _fetch_segments, bind, on_fs.
  destruct (open_wb file (fs w)) as [r0 f0] eqn:Hopen.
  pose proof (open_wb_keeps_dirs _ _ _ _ Hopen) as Hkeeps.
  assert (Hq0 : quiet w {| net := net w; fs := f0; procs := procs w |}).
  { exists []. split; [by rewrite app_nil_r | done]. }
  apply open_wb_spec in Hopen as [(-> & -> & Hd) | ([e ->] & ->)].
  - intros Hloop.
    destruct (fetch_segments_loop_spec env urls file ∅ _ w' r []
                (lookup_insert_eq _ _ _) Hloop) as (new & Hf & _).
    eapply quiet_trans; [exact Hq0 | by eapply fetched_quiet].
  - by intros [= <- <-].
Qed.

Lemma fetch_elements_quiet (env : Env) (self : VideoDownloader) (key : option string)
    (elements : list (list string * string * string)) :
  respects quiet (fetch_elements env self key elements).
Proof.
  induction elements as [|[[url type] sfx] rest IH]; cbn [fetch_elements].
  - apply quiet_ret.
  - apply quiet_bind; [apply quiet_lift|]. intros enc_path.
    apply quiet_bind; [apply fetch_segments_quiet|]. intros _.
    apply quiet_bind; [exact IH|]. intros els. apply quiet_ret.
Qed.

Lemma os_rename_raise (src dst : path) (f f' : filesystem) (e : exn) :
  os_rename src dst f = (Raise e, f') -> f' = f.
Proof.
  unfold os_rename. repeat case_match; intros [= <-]; done.
Qed.

Lemma move_raise (src dst : path) (f f' : filesystem) (e : exn) :
  move src dst f = (Raise e, f') -> f' = f.
Proof.
  unfold move. repeat case_match; try (intros [= <-]; done); apply os_rename_raise.
Qed.

Lemma move_quiet_on_raise (src dst : path) :
  respects_on_raise quiet (on_fs (move src dst)).
Proof.
  intros w e w'. unfold on_fs. destruct (move src dst (fs w)) as [r f'] eqn:Hmove.
  intros [= -> <-]. apply move_raise in Hmove as ->. exists [].
  split; [by rewrite app_nil_r|]. intros _. apply keeps_dirs_refl.
Qed.

Lemma os_mkdir_is_dir (p : path) (f f' : filesystem) :
  os_mkdir p f = (Ok tt, f') -> is_dir f' p = true.
Proof.
  intros Hmk. apply os_mkdir_spec in Hmk as [(_ & -> & _) | ([e He] & _)]; [|done].
  unfold is_dir. rewrite lookup_insert_eq. by destruct p.
Qed.

Lemma mkdir_parents_is_dir (p : path) (f f' : filesystem) :
  mkdir_parents p f = (Ok tt, f') -> is_dir f' p = true.
Proof.
  unfold mkdir_parents. generalize (length p). intros depth.
  destruct depth as [|d]; cbn [mkdir_parents_upto].
  - destruct (os_mkdir p f) as [[[]|e] f0] eqn:Hmk.
    + intros [= <-]. by apply os_mkdir_is_dir in Hmk.
    + destruct e; try done; destruct (is_dir f p) eqn:Hd; by intros [= <-].
  - destruct (os_mkdir p f) as [[[]|e] f0] eqn:Hmk.
    + intros [= <-]. by apply os_mkdir_is_dir in Hmk.
    + destruct e; try (destruct (is_dir f p) eqn:Hd; by intros [= <-]).
      destruct (mkdir_parents_upto d (parent p) f) as [[[]|e1] f1]; [|done].
      destruct (os_mkdir p f1) as [[[]|e2] f2] eqn:Hmk2.
      * intros [= <-]. by apply os_mkdir_is_dir in Hmk2.
      * destruct (is_dir f1 p) eqn:Hd; by intros [= <-].
Qed.

(** What the constructor does after it has made the directory: it works
    out the tool paths, then asks for the manifest. *)
Lemma init_after_mkdir (env : Env) (video : KinescopeVideo) (temp_dir : string)
    (ffmpeg mp4decrypt : arg) (audio : bool) (w w' : world) (f1 : filesystem)
    (r : result VideoDownloader) :
  mkdir_parents (Path temp_dir) (fs w) = (Ok tt, f1) ->
  __init__ env video temp_dir ffmpeg mp4decrypt audio w = (r, w') ->
  let request := GET (get_mpd_master_playlist_url video)
                   [("Referer", KINESCOPE_BASE_URL env)] in
  fs w' = f1 /\ procs w' = procs w
  /\ match tool_paths env ffmpeg mp4decrypt with
     | Ok tools =>
         net w' = net w ++ [request]
         /\ r = (mpd <~ http_get_mpd env (net w) (get_mpd_master_playlist_url video)
                          [("Referer", KINESCOPE_BASE_URL env)] ;;
                 Ok {| kinescope_video := video; temp_path := Path temp_dir;
                       ffmpeg_path := fst tools; mp4decrypt_path := snd tools;
                       mpd_master := mpd; audio_only := audio |})
     | Raise e => net w' = net w /\ r = Raise e
     end.
Proof.
  intros Hmk. unfold __init__, bind, on_fs, _fetch_mpd_master, lift, ret. rewrite Hmk.
  destruct (tool_paths env ffmpeg mp4decrypt) as [tools|e].
  - cbn [net fs procs sent].
    destruct (http_get_mpd env _ _ _) as [mpd|e]; by intros [= <- <-].
  - by intros [= <- <-].
Qed.

(** The constructor does not tear down either: when it raises after it
    has made the directory, the directory stays. *)
Lemma init_failure_leaves_workspace (env : Env) (video : KinescopeVideo) (temp_dir : string)
    (ffmpeg mp4decrypt : arg) (audio : bool) (w w' : world) (e : exn) (f1 : filesystem) :
  mkdir_parents (Path temp_dir) (fs w) = (Ok tt, f1) ->
  __init__ env video temp_dir ffmpeg mp4decrypt audio w = (Raise e, w') ->
  fs w' = f1.
Proof.
  intros Hmk Hrun. by destruct (init_after_mkdir _ _ _ _ _ _ _ _ _ _ Hmk Hrun) as [Hfs _].
Qed.

(** [__del__] on an existing temporary directory removes it and all it
    holds, and nothing else. *)
Lemma del_tears_down (self : VideoDownloader) (w : world) :
  temp_path self <> [] ->
  fs w !! temp_path self = Some Dir ->
  exists w',
    __del__ self w = (Ok tt, w')
    /\ torn_down self w'
    /\ forall p, ~ temp_path self `prefix_of` p -> fs w' !! p = fs w !! p.
Proof.
  intros Hne Hdir. unfold __del__, on_fs, rmtree.
  assert (Hex : path_exists (fs w) (temp_path self) = true).
  { unfold path_exists. rewrite Hdir. by destruct (temp_path self). }
  rewrite Hex, (is_dir_lookup _ _ Hdir). cbn [negb].
  unfold torn_down. destruct (temp_path self) as [|a t]; [done|].
  eexists. split; [reflexivity|]. split.
  - intros p Hp. cbn [fs]. apply map_lookup_filter_None. right.
    intros n _ Hnot. by apply Hnot.
  - intros p Hp. cbn [fs].
    destruct (fs w !! p) as [n|] eqn:Hlook.
    + by apply map_lookup_filter_Some.
    + apply map_lookup_filter_None. by left.
Qed.

(** ** Steps that start nothing *)

Lemma same_procs_refl (w : world) : same_procs w w.
Proof. reflexivity. Qed.

Lemma same_procs_trans (w1 w2 w3 : world) :
  same_procs w1 w2 -> same_procs w2 w3 -> same_procs w1 w3.
Proof. unfold same_procs. congruence. Qed.

Lemma same_procs_bind {A B} (c : M A) (k : A -> M B) :
  respects same_procs c -> (forall a, respects same_procs (k a)) ->
  respects same_procs (bind c k).
Proof. apply respects_bind, same_procs_trans. Qed.

Lemma same_procs_lift {A} (x : result A) : respects same_procs (lift x).
Proof. apply respects_lift, same_procs_refl. Qed.

Lemma same_procs_on_fs (op : filesystem -> result unit * filesystem) :
  respects same_procs (on_fs op).
Proof.
  intros w r w'. unfold on_fs. destruct (op (fs w)). by intros [= <- <-].
Qed.

Lemma fetch_segments_same_procs (env : Env) (urls : list string) (file : path) :
  respects same_procs (_fetch_segments env urls file).
Proof.
  intros w r w'. unfold _fetch_segments, bind, on_fs.
  destruct (open_wb file (fs w)) as [r0 f0] eqn:Hopen.
  apply open_wb_spec in Hopen as [(-> & -> & Hd) | ([e ->] & ->)].
  - intros Hloop.
    destruct (fetch_segments_loop_spec env urls file ∅ _ w' r []
                (lookup_insert_eq _ _ _) Hloop) as (new & (_ & Hprocs & _) & _).
    exact Hprocs.
  - by intros [= <- <-].
Qed.

Lemma fetch_elements_same_procs (env : Env) (self : VideoDownloader) (key : option string)
    (elements : list (list string * string * string)) :
  respects same_procs (fetch_elements env self key elements).
Proof.
  induction elements as [|[[url type] sfx] rest IH]; cbn [fetch_elements].
  - apply respects_ret, same_procs_refl.
  - apply same_procs_bind; [apply same_procs_lift|]. intros enc_path.
    apply same_procs_bind; [apply fetch_segments_same_procs|]. intros _.
    apply same_procs_bind; [exact IH|]. intros els. apply respects_ret, same_procs_refl.
Qed.

(** * Audio-only downloads *)

(** A completed fetch, seen from outside. *)
Lemma fetch_segments_ok (env : Env) (urls : list string) (file : path) (w w' : world) :
  _fetch_segments env urls file w = (Ok tt, w') ->
  exists new,
    net w' = net w ++ new
    /\ procs w' = procs w
    /\ map fst (downloads env (net w) new) = distinct urls
    /\ fs w' = <[file := File (concat (map snd (downloads env (net w) new)))]> (fs w).
Proof.
  unfold _fetch_segments, bind, on_fs.
  destruct (open_wb file (fs w)) as [r0 f0] eqn:Hopen.
  apply open_wb_spec in Hopen as [(-> & -> & Hd) | ([e ->] & ->)]; [|done].
  intros Hloop.
  destruct (fetch_segments_loop_spec env urls file ∅ _ w' (Ok tt) []
              (lookup_insert_eq _ _ _) Hloop)
    as (new & (Hnet & Hprocs & Hother & c & Hc & Hc') & Hok & _).
  cbn [net fs procs] in *. rewrite lookup_insert_eq in Hc. injection Hc as <-.
  exists new. split; [done|]. split; [done|].
  split; [by rewrite (Hok eq_refl), (filter_not_in_empty ∅ urls eq_refl)|].
  apply map_eq. intros p. destruct (decide (file = p)) as [<-|Hne].
  - by rewrite lookup_insert_eq.
  - rewrite lookup_insert_ne by done. rewrite Hother by done.
    by rewrite lookup_insert_ne.
Qed.

(** With a server whose answers are the bodies [content], what was
    received is determined by the URLs. *)
Lemma downloads_bodies (env : Env) (content : string -> list byte) :
  (forall history url body, http_get env history url = Ok body -> body = content url) ->
  forall new history,
    map snd (downloads env history new) = map content (map fst (downloads env history new)).
Proof.
  intros Hnet. induction new as [|q new IH]; intros history; [done|].
  cbn [downloads]. rewrite !map_app, IH. f_equal.
  destruct q as [url hs|]; [|done].
  destruct (http_get env history url) as [body|] eqn:Hget; [|done].
  simpl. by rewrite (Hnet _ _ _ Hget).
Qed.

Lemma mkdir_parents_preserves (p q : path) (f f' : filesystem) (r : result unit) (n : node) :
  mkdir_parents p f = (r, f') -> f !! q = Some n -> f' !! q = Some n.
Proof.
  intros Hrun Hq.
  destruct (mkdir_parents_spec _ _ _ _ Hrun q) as [-> | (Hnone & _)]; congruence.
Qed.



Lemma string_length_append (s t : string) :
  String.length (s +:+ t) = (String.length s + String.length t)%nat.
Proof. induction s as [|c s IH]; simpl; [done | by rewrite IH]. Qed.








(** * Every exit leaves the workspace to the finaliser *)

Lemma tools_keep_app (env : Env) (dir : path) (l1 l2 : list (list arg)) :
  tools_keep env dir (l1 ++ l2) -> tools_keep env dir l1 /\ tools_keep env dir l2.
Proof.
  intros Hkeep. split; intros args f f' Hin; apply Hkeep, in_or_app; [left | right]; exact Hin.
Qed.

Lemma guarded_refl (env : Env) (dir : path) (w : world) : guarded env dir w w.
Proof. exists []. by rewrite app_nil_r. Qed.

Lemma guarded_trans (env : Env) (dir : path) (w1 w2 w3 : world) :
  guarded env dir w1 w2 -> guarded env dir w2 w3 -> guarded env dir w1 w3.
Proof.
  intros (s1 & Hs1 & Hk1) (s2 & Hs2 & Hk2). exists (s1 ++ s2).
  split; [by rewrite Hs2, Hs1, app_assoc|].
  intros [Ht1 Ht2]%tools_keep_app Hdir. by apply Hk2, Hk1.
Qed.

Lemma quiet_guarded (env : Env) (dir : path) (w w' : world) :
  quiet w w' -> same_procs w w' -> guarded env dir w w'.
Proof.
  intros (started & Hstarted & Hkeeps) Hsame. unfold same_procs in Hsame.
  exists []. rewrite app_nil_r. split; [done|]. intros _. apply Hkeeps.
  rewrite Hsame in Hstarted. rewrite <- (app_nil_r (procs w)) in Hstarted at 1.
  by apply app_inv_head in Hstarted.
Qed.

Lemma guarded_step {A} (env : Env) (dir : path) (c : M A) :
  respects quiet c -> respects same_procs c -> respects (guarded env dir) c.
Proof. intros Hq Hs w r w' Hrun. apply quiet_guarded; [by eapply Hq | by eapply Hs]. Qed.

Lemma guarded_lift {A} (env : Env) (dir : path) (x : result A) :
  respects (guarded env dir) (lift x).
Proof. apply respects_lift, guarded_refl. Qed.

Lemma guarded_ret {A} (env : Env) (dir : path) (a : A) : respects (guarded env dir) (ret a).
Proof. apply respects_ret, guarded_refl. Qed.

Lemma guarded_bind {A B} (env : Env) (dir : path) (c : M A) (k : A -> M B) :
  respects (guarded env dir) c -> (forall a, respects (guarded env dir) (k a)) ->
  respects (guarded env dir) (bind c k).
Proof. apply respects_bind, guarded_trans. Qed.

(** A tool that runs is one of the commands started; one that cannot be
    started changes nothing. *)
Lemma Popen_guarded (env : Env) (dir : path) (args : list arg) (h : M unit) :
  respects (guarded env dir) h ->
  respects (guarded env dir) (try_except (Popen env args) is_FileNotFoundError h).
Proof.
  intros Hh. apply respects_try_except; [apply guarded_trans | | exact Hh].
  intros w r w'. unfold Popen. destruct (popen env args (fs w)) as [f'|] eqn:Hpopen.
  - intros [= <- <-]. exists [args]. split; [done|].
    intros Hkeep Hdir. cbn [fs started]. eapply Hkeep; [by left | exact Hpopen | exact Hdir].
  - intros [= <- <-]. apply guarded_refl.
Qed.

Lemma decrypt_elements_guarded (env : Env) (dir : path) (self : VideoDownloader)
    (key : string) (els : list element) :
  respects (guarded env dir) (decrypt_elements env self key els).
Proof.
  induction els as [|el rest IH]; cbn [decrypt_elements].
  - apply guarded_ret.
  - apply guarded_bind; [|by intros _].
    apply Popen_guarded, respects_raise, guarded_refl.
Qed.

Lemma respects_if_bind {A B} (Q : result B -> Prop) (R : world -> world -> Prop)
    (c : M A) (k : A -> M B) :
  (forall w1 w2 w3, R w1 w2 -> R w2 w3 -> R w1 w3) ->
  respects R c -> (forall a, respects_if Q R (k a)) -> respects_if Q R (bind c k).
Proof.
  intros Htrans Hc Hk w r w' Hq. unfold bind.
  destruct (c w) as [[a|e] w1] eqn:Hrun.
  - intros Hrest. eapply Htrans; [by eapply Hc | by eapply Hk].
  - intros [= <- <-]. by eapply Hc.
Qed.

(** Moving a regular file replaces no directory. *)
Lemma move_file_keeps (src dst : path) (f f' : filesystem) (r : result unit) (c : list byte) :
  f !! src = Some (File c) -> move src dst f = (r, f') -> keeps_dirs f f'.
Proof.
  intros Hsrc Hmove p Hp.
  assert (Hrename : forall dst', os_rename src dst' f = (r, f') -> f' !! p = Some Dir).
  { intros dst'. unfold os_rename. rewrite Hsrc.
    destruct (decide (src = dst')); [by intros [= _ <-]|].
    destruct (check_parent f dst'); [|by intros [= _ <-]].
    destruct (is_dir f dst') eqn:Hd; [by intros [= _ <-]|].
    intros [= _ <-].
    rewrite lookup_insert_ne by (intros ->; by rewrite (is_dir_lookup _ _ Hp) in Hd).
    rewrite lookup_delete_ne by (intros ->; congruence). done. }
  unfold move in Hmove. destruct (is_dir f dst).
  - destruct (decide (src = dst)); [by injection Hmove as _ <-|].
    destruct (path_exists f (dst ++ [name src])); [by injection Hmove as _ <-|].
    by eapply Hrename.
  - by eapply Hrename.
Qed.

(** Every exit of [download] but the completed move of the audio file. *)
Lemma download_guarded_unless_moved (env : Env) (self : VideoDownloader) (filepath : string)
    (res : option resolution) :
  respects_if (fun r => audio_only self = false \/ exists e, r = Raise e)
    (guarded env (temp_path self)) (download env self filepath res).
Proof.
  pose proof (guarded_trans env (temp_path self)) as Htrans.
  unfold download.
  apply respects_if_bind; [done | apply guarded_lift|]. intros r.
  apply respects_if_bind; [done | |].
  { apply guarded_step; [|intros w x w' Hrun; by eapply license_key_same_files].
    intros w x w' Hrun. by eapply same_files_quiet, license_key_same_files. }
  intros key.
  apply respects_if_bind; [done | apply guarded_lift|]. intros audio.
  apply respects_if_bind; [done | apply guarded_lift|]. intros video.
  apply respects_if_bind; [done | |].
  { apply guarded_step; [apply fetch_elements_quiet | apply fetch_elements_same_procs]. }
  intros els.
  apply respects_if_bind; [done | |].
  { destruct key as [k|]; [|apply guarded_ret].
    destruct (truthy_str (Some k)); [apply decrypt_elements_guarded | apply guarded_ret]. }
  intros _.
  apply respects_if_bind; [done | apply guarded_lift|]. intros last_el.
  apply respects_if_bind; [done | apply guarded_lift|]. intros out.
  apply respects_if_bind; [done | |].
  { apply guarded_step; [|apply same_procs_on_fs].
    apply quiet_on_fs. intros f r0 f'. apply mkdir_parents_keeps_dirs. }
  intros _. destruct (audio_only self) eqn:Haudio; cbn [negb].
  - apply respects_if_bind; [done | apply guarded_lift|]. intros first_el.
    intros w r0 w' [Hno | [e ->]] Hrun; [done|].
    apply quiet_guarded; [by eapply move_quiet_on_raise | by eapply same_procs_on_fs].
  - intros w r0 w' _. apply Popen_guarded, respects_raise, guarded_refl.
Qed.

(** The end of an audio-only download: the output directory, then the
    move of the audio file. *)
Lemma move_tail_keeps (tmp out : path) (w3 w' : world) (r : result unit) (c : list byte) :
  fs w3 !! tmp = Some (File c) ->
  bind (on_fs (mkdir_parents (parent out))) (fun _ => on_fs (move tmp out)) w3 = (r, w') ->
  procs w' = procs w3 /\ keeps_dirs (fs w3) (fs w').
Proof.
  intros Htmp. unfold bind, on_fs.
  destruct (mkdir_parents (parent out) (fs w3)) as [[[]|e] f4] eqn:Hmk.
  - cbn [fs procs net].
    destruct (move tmp out f4) as [r5 f5] eqn:Hmove. intros [= <- <-]. cbn [fs procs].
    split; [done|]. intros p Hp.
    eapply move_file_keeps; [|exact Hmove|].
    + by eapply mkdir_parents_preserves.
    + by eapply mkdir_parents_keeps_dirs.
  - intros [= <- <-]. split; [done|]. cbn [fs]. by eapply mkdir_parents_keeps_dirs.
Qed.

(** The completed audio-only download, when the decryption tool writes
    its output. *)
Lemma download_guarded_moved (env : Env) (self : VideoDownloader) (filepath : string)
    (res : option resolution) (w w' : world) :
  audio_only self = true ->
  decrypt_writes env self (tmp_path_of self "Audio" ".aac") ->
  download env self filepath res w = (Ok tt, w') ->
  guarded env (temp_path self) w w'.
Proof.
  intros Haudio Hwrites Hrun. unfold download, bind, lift in Hrun.
  destruct (chosen_resolution self res) as [r0|]; [|done].
  destruct (_get_license_key env self w) as [[key|e] w1] eqn:Hkey; [|done].
  destruct (license_key_same_files env self w _ w1 Hkey) as [Hfs1 Hp1].
  destruct (d <~ _get_segments_urls (mpd_master self) r0 ;; dict_getitem d "audio/mp4")
    as [audio|]; [|done].
  destruct (d <~ _get_segments_urls (mpd_master self) r0 ;; dict_getitem d "video/mp4")
    as [video|]; [|done].
  rewrite Haudio in Hrun. cbn [removelast negb fetch_elements] in Hrun.
  unfold bind, lift, ret in Hrun.
  set (tmp_path := tmp_path_of self "Audio" ".aac") in *.
  destruct (enc_path_of tmp_path) as [enc_path|]; [|done].
  set (fetch_path := if truthy_str key then enc_path else tmp_path) in *.
  destruct (_fetch_segments env audio fetch_path w1) as [[[]|e] w2] eqn:Hfetch; [|done].
  destruct (fetch_segments_ok _ _ _ _ _ Hfetch) as (new & _ & Hp2 & _ & Hfs2).
  assert (Hkeeps2 : keeps_dirs (fs w) (fs w2)).
  { destruct (fetch_segments_quiet env audio fetch_path w1 _ w2 Hfetch) as (s' & Hs' & Hk).
    rewrite <- Hfs1. apply Hk. rewrite Hp2 in Hs'.
    rewrite <- (app_nil_r (procs w1)) in Hs' at 1. by apply app_inv_head in Hs'. }
  destruct (truthy_str key) eqn:Htruthy.
  - destruct key as [k|]; [|done]. subst fetch_path.
    cbn [decrypt_elements] in Hrun. unfold bind, _decrypt_video, try_except, Popen in Hrun.
    cbn [el_enc_path el_tmp_path] in Hrun.
    destruct (popen env _ (fs w2)) as [f3|] eqn:Hpopen; [|done].
    destruct (Hwrites _ _ _ _ _ (eq_trans (f_equal (fun f => f !! enc_path) Hfs2)
                                    (lookup_insert_eq _ _ _)) Hpopen) as [c' Hc'].
    cbn [ret length Nat.sub subscript nth_error el_suffix el_tmp_path] in Hrun.
    destruct (with_suffix (Path filepath) ".aac") as [out|]; [|done].
    destruct (move_tail_keeps tmp_path out (started _ f3 w2) w' (Ok tt) c' Hc' Hrun)
      as [Hp4 Hk4].
    eexists. split.
    + rewrite Hp4. cbn [procs started]. by rewrite Hp2, Hp1.
    + intros Hkeep Hdir. apply Hk4. cbn [fs started].
      eapply Hkeep; [by left | exact Hpopen | by apply Hkeeps2].
  - subst fetch_path.
    assert (Hrun' : match with_suffix (Path filepath) ".aac" with
                    | Ok out =>
                        bind (on_fs (mkdir_parents (parent out)))
                          (fun _ => on_fs (move tmp_path out)) w2
                    | Raise e => (Raise e, w2)
                    end = (Ok tt, w')).
    { destruct key;
        cbn [length Nat.sub subscript nth_error el_suffix el_tmp_path] in Hrun;
        exact Hrun. }
    clear Hrun. destruct (with_suffix (Path filepath) ".aac") as [out|]; [|done].
    destruct (move_tail_keeps tmp_path out w2 w' (Ok tt) _
                (eq_trans (f_equal (fun f => f !! tmp_path) Hfs2) (lookup_insert_eq _ _ _))
                Hrun') as [Hp4 Hk4].
    exists []. rewrite app_nil_r. split; [congruence|].
    intros _ Hdir. by apply Hk4, Hkeeps2.
Qed.

(** C8, as the code has it.  No exit of a download run tears the
    workspace down: whether the constructor raises after it has made the
    directory (the manifest cannot be fetched), or [download] completes, or
    [download] raises any error, before or after a tool has run, the
    temporary directory is still there when control is back with the
    caller, provided the tools that ran left it in place and, in an
    audio-only download, the decryption tool wrote its output.  It is
    [__del__], run afterwards, that removes the directory and everything
    below it, and nothing else. *)
Theorem workspace_removed_by_finaliser (env : Env) (self : VideoDownloader)
    (w w' : world) :
  run_exit env self w w' ->
  temp_path self <> [] ->
  tools_keep env (temp_path self) (started_between w w') ->
  (audio_only self = true -> decrypt_writes env self (tmp_path_of self "Audio" ".aac")) ->
  fs w' !! temp_path self = Some Dir
  /\ exists w'',
       __del__ self w' = (Ok tt, w'')
       /\ torn_down self w''
       /\ forall p, ~ temp_path self `prefix_of` p -> fs w'' !! p = fs w' !! p.
Proof.
  intros Hexit Hne Hkeep Hwrites.
  assert (Hstill : fs w' !! temp_path self = Some Dir).
  { destruct Hexit as [video temp_dir ffmpeg mp4decrypt audio e f1 Htemp Hmk Hinit
                      | filepath res r Hdir Hrun].
    - rewrite (init_failure_leaves_workspace _ _ _ _ _ _ _ _ _ _ Hmk Hinit).
      apply mkdir_parents_is_dir in Hmk. rewrite <- Htemp in Hmk.
      unfold is_dir in Hmk. destruct (temp_path self) as [|a t]; [done|].
      by destruct (f1 !! (a :: t)) as [[]|].
    - assert (Hguarded : guarded env (temp_path self) w w').
      { destruct r as [[]|e].
        - destruct (audio_only self) eqn:Haudio.
          + by eapply download_guarded_moved; [| apply Hwrites |].
          + eapply download_guarded_unless_moved; [|exact Hrun]. by left.
        - eapply download_guarded_unless_moved; [|exact Hrun]. right. by exists e. }
      destruct Hguarded as (started & Hstarted & Hkeeps).
      apply Hkeeps; [|done]. unfold started_between in Hkeep.
      by rewrite Hstarted, drop_app_length in Hkeep. }
  split; [exact Hstill|]. by apply del_tears_down.
Qed.

(** A download whose second audio segment cannot be fetched: the error
    reaches the caller while the temporary directory still holds the
    first segment. *)
Lemma failed_download_leaves_workspace :
  let self := downloader_of mpd_clear true in
  let run := download (env_truncating "au/2") self "out.mp4" None world0 in
  fst run = Raise (SegmentDownloadError "Failed to download segment au/2")
  /\ fs (snd run) !! ["temp"; "vid_Audio.aac"] = Some (File (body_of "au/1"))
  /\ ~ torn_down self (snd run).
Proof.
  intros self run. split; [reflexivity|]. split; [reflexivity|].
  intros Hgone. specialize (Hgone ["temp"] (reflexivity _)). discriminate Hgone.
Qed.

Lemma tools_write (env : Env) (self : VideoDownloader) (target : path) :
  popen env = tools ->
  mp4decrypt_path self = Str "./mp4decrypt" ->
  decrypt_writes env self target.
Proof.
  intros Hpopen Htool k source f f' c Hc. rewrite Hpopen, Htool. cbn [tools].
  rewrite Hc. intros [= <-]. exists (rev c). apply lookup_insert_eq.
Qed.

(** Three exits: a segment cannot be fetched; a protected audio-only
    download completes, the decryption tool having run; the manifest
    cannot be fetched. *)
Lemma workspace_example :
  let self := downloader_of mpd_clear true in
  let protected := downloader_of mpd_example true in
  let failed := snd (download (env_truncating "au/2") self "out.mp4" None world0) in
  let completed :=
    snd (download (env_of clearkey_answer) protected "out/o.mp4" None world0) in
  let unreachable :=
    snd (__init__ env_unreachable video_example "temp" (Str "./ffmpeg")
           (Str "./mp4decrypt") true world0) in
  (fs failed !! ["temp"] = Some Dir
   /\ exists w'',
        __del__ self failed = (Ok tt, w'')
        /\ torn_down self w''
        /\ forall p, ~ temp_path self `prefix_of` p -> fs w'' !! p = fs failed !! p)
  /\ (fs completed !! ["temp"] = Some Dir
      /\ exists w'',
           __del__ protected completed = (Ok tt, w'')
           /\ torn_down protected w''
           /\ forall p, ~ temp_path protected `prefix_of` p ->
                        fs w'' !! p = fs completed !! p)
  /\ (fs unreachable !! ["temp"] = Some Dir
      /\ exists w'',
           __del__ protected unreachable = (Ok tt, w'')
           /\ torn_down protected w''
           /\ forall p, ~ temp_path protected `prefix_of` p ->
                        fs w'' !! p = fs unreachable !! p).
Proof.
  intros self protected failed completed unreachable. split; [|split].
  - apply (workspace_removed_by_finaliser (env_truncating "au/2") self world0 failed).
    + apply (download_exits _ _ _ _ "out.mp4" None
               (Raise (SegmentDownloadError "Failed to download segment au/2")));
        reflexivity.
    + discriminate.
    + assert (Hnone : started_between world0 failed = []) by (vm_compute; reflexivity).
      rewrite Hnone. by intros args f f' [].
    + intros _. by apply tools_write.
  - apply (workspace_removed_by_finaliser (env_of clearkey_answer) protected world0
             completed).
    + apply (download_exits _ _ _ _ "out/o.mp4" None (Ok tt)); [reflexivity|].
      vm_compute. reflexivity.
    + discriminate.
    + assert (Hone : started_between world0 completed
                     = [[Str "./mp4decrypt"; Str "--key"; Str "1:717765727479";
                         PathArg ["temp"; "vid_Audio.aac.enc"];
                         PathArg ["temp"; "vid_Audio.aac"]]])
        by (vm_compute; reflexivity).
      rewrite Hone. intros args f f' [<-|[]] Hpopen Hdir.
      cbn [popen env_of tools] in Hpopen.
      destruct (f !! ["temp"; "vid_Audio.aac.enc"]) as [[c|]|];
        injection Hpopen as <-; [|done..].
      by rewrite lookup_insert_ne.
    + intros _. by apply tools_write.
  - apply (workspace_removed_by_finaliser env_unreachable protected world0 unreachable).
    + apply (constructor_raises _ _ _ _ video_example "temp" (Str "./ffmpeg")
               (Str "./mp4decrypt") true RequestException (fs world0));
        reflexivity.
    + discriminate.
    + assert (Hnone : started_between world0 unreachable = []) by (vm_compute; reflexivity).
      rewrite Hnone. by intros args f f' [].
    + intros _. by apply tools_write.
Defined.

(** * More on the licence exchange *)

(** X1: when the first adaptation set of the first period has no
    content-protection descriptor, [_get_license_key] returns [None]
    without sending anything, and no run of [download] starts the decryption
    tool: the only subprocess it may start is one [ffmpeg] command. *)
Theorem unprotected_download_never_decrypts (env : Env) (self : VideoDownloader)
    (a : AdaptationSet) (filepath : string) (res : option resolution) (w w' : world)
    (r : result unit) :
  first_adaptation_set (mpd_master self) = Ok a ->
  truthy_list (content_protections a) = false ->
  _get_license_key env self w = (Ok None, w)
  /\ (download env self filepath res w = (r, w') ->
      procs w' = procs w
      \/ exists sources out, procs w' = procs w ++ [ffmpeg_command self sources out]).
Proof.
  intros Ha Hnone.
  assert (Hkey : _get_license_key env self w = (Ok None, w)).
  { unfold _get_license_key, try_except, bind, lift, ret. by rewrite Ha, Hnone. }
  split; [exact Hkey|].
  unfold download, bind, lift. destruct (chosen_resolution self res) as [r0|]; [|by intros [= _ <-]; left].
  rewrite Hkey.
  destruct (d <~ _get_segments_urls (mpd_master self) r0 ;; dict_getitem d "audio/mp4")
    as [audio|]; [|by intros [= _ <-]; left].
  destruct (d <~ _get_segments_urls (mpd_master self) r0 ;; dict_getitem d "video/mp4")
    as [video|]; [|by intros [= _ <-]; left].
  destruct (fetch_elements env self None _ w) as [[els|e] w2] eqn:Hfetch;
    pose proof (fetch_elements_same_procs _ _ _ _ _ _ _ Hfetch) as Hp2;
    unfold same_procs in Hp2; [|by intros [= _ <-]; left].
  cbn [ret].
  destruct (subscript els (length els - 1)) as [last_el|]; [|by intros [= _ <-]; left].
  destruct (with_suffix (Path filepath) (el_suffix last_el)) as [out|];
    [|by intros [= _ <-]; left].
  destruct (on_fs (mkdir_parents (parent out)) w2) as [[[]|e] w3] eqn:Hmk;
    pose proof (same_procs_on_fs _ _ _ _ Hmk) as Hp3; unfold same_procs in Hp3;
    [|intros [= _ <-]; left; congruence].
  destruct (negb (audio_only self)).
  - unfold _merge_tracks, try_except, Popen.
    destruct (popen env _ (fs w3)) as [f|].
    + intros [= _ <-]. right. exists (map el_tmp_path els), out.
      cbn [procs started]. by rewrite Hp3, Hp2.
    + intros [= _ <-]. left. congruence.
  - destruct (subscript els 0) as [first_el|]; [|intros [= _ <-]; left; congruence].
    intros Hmove. apply same_procs_on_fs in Hmove. left. unfold same_procs in Hmove. congruence.
Qed.

Lemma unprotected_download_example :
  let self := downloader_of mpd_clear false in
  let run := download (env_of clearkey_answer) self "out.mp4" None world0 in
  _get_license_key (env_of clearkey_answer) self world0 = (Ok None, world0)
  /\ (procs (snd run) = procs world0
      \/ exists sources out, procs (snd run) = procs world0 ++ [ffmpeg_command self sources out]).
Proof.
  intros self run.
  destruct (unprotected_download_never_decrypts (env_of clearkey_answer) self audio_set
              "out.mp4" None world0 (snd run) (fst run) eq_refl eq_refl) as [Hkey Hprocs].
  split; [exact Hkey|]. apply Hprocs. apply surjective_pairing.
Defined.

Lemma fromhex_error (s : string) (e : exn) : fromhex s = Raise e -> e = ValueError.
Proof.
  assert (H : forall n s e, (String.length s <= n)%nat -> fromhex s = Raise e -> e = ValueError).
  { clear. induction n as [|n IH]; intros s e Hlen.
    - destruct s; [done | simpl in Hlen; lia].
    - destruct s as [|c r]; [done|]. cbn [fromhex]. simpl in Hlen.
      destruct (is_space c); [apply IH; lia|].
      destruct (hex_digit c); [|by intros [= <-]].
      destruct r as [|d r']; [by intros [= <-]|].
      destruct (hex_digit d); [|by intros [= <-]].
      destruct (fromhex r') as [bs|e'] eqn:Hrest; [done|].
      simpl. intros [= <-]. apply (IH r'); [simpl in Hlen; lia | done]. }
  by apply (H (String.length s)).
Qed.

(** X2: a content-protection descriptor without [cenc:default_KID] makes
    the licence exchange end with [AttributeError], one whose KID is not
    hexadecimal with [ValueError]; neither is turned into
    [UnsupportedEncryption], and in both cases nothing has been sent. *)
Theorem license_bad_kid_sends_nothing (env : Env) (self : VideoDownloader) (w : world)
    (a : AdaptationSet) (cp : ContentProtection) (cps : list ContentProtection) :
  first_adaptation_set (mpd_master self) = Ok a ->
  content_protections a = Some (cp :: cps) ->
  (cenc_default_kid cp = None ->
   _get_license_key env self w = (Raise AttributeError, w))
  /\ (forall kid e,
        cenc_default_kid cp = Some kid ->
        fromhex (remove_char "-" kid) = Raise e ->
        _get_license_key env self w = (Raise ValueError, w)).
Proof.
  intros Ha Hcp. split.
  - intros Hkid.
    unfold _get_license_key, try_except, bind, lift, ret, request_kid.
    rewrite Ha. simpl. rewrite Hcp. simpl. by rewrite Hkid.
  - intros kid e Hkid Hhex. apply fromhex_error in Hhex as Hval. subst e.
    unfold _get_license_key, try_except, bind, lift, ret, request_kid.
    rewrite Ha. simpl. rewrite Hcp. simpl. by rewrite Hkid, Hhex.
Qed.

Lemma license_bad_kid_example :
  _get_license_key (env_of clearkey_answer) (downloader_of (mpd_with_kid None) false) world0
  = (Raise AttributeError, world0)
  /\ _get_license_key (env_of clearkey_answer)
       (downloader_of (mpd_with_kid (Some "aabbccd")) false) world0
     = (Raise ValueError, world0).
Proof.
  split.
  - eapply (license_bad_kid_sends_nothing (env_of clearkey_answer)
              (downloader_of (mpd_with_kid None) false) world0 _
              {| cenc_default_kid := None |} [] eq_refl eq_refl).
    reflexivity.
  - eapply (license_bad_kid_sends_nothing (env_of clearkey_answer)
              (downloader_of (mpd_with_kid (Some "aabbccd")) false) world0 _
              {| cenc_default_kid := Some "aabbccd" |} [] eq_refl eq_refl).
    + reflexivity.
    + reflexivity.
Defined.

(** X3: with a hexadecimal KID (dashes are ignored), the licence exchange
    sends exactly one request, whatever the answer: a POST to the licence
    URL with the platform as origin, whose [kids] entry is the base64 text
    of the KID bytes without padding; decoding that text gives the KID
    bytes back. *)
Theorem license_request_carries_kid (env : Env) (self : VideoDownloader) (w w' : world)
    (r : result (option string)) (a : AdaptationSet) (cp : ContentProtection)
    (cps : list ContentProtection) (kid : string) (raw_kid : list byte) :
  first_adaptation_set (mpd_master self) = Ok a ->
  content_protections a = Some (cp :: cps) ->
  cenc_default_kid cp = Some kid ->
  fromhex (remove_char "-" kid) = Ok raw_kid ->
  _get_license_key env self w = (r, w') ->
  net w' = net w ++ [POST (get_clearkey_license_url (kinescope_video self))
                       [("origin", KINESCOPE_BASE_URL env)]
                       (JObj [("kids", JArr [JStr (unpadded raw_kid)]);
                              ("type", JStr "temporary")])]
  /\ b64decode (unpadded raw_kid +:+ "==") = Ok raw_kid.
Proof.
  intros Ha Hcp Hkid Hhex Hrun. split; [|apply b64decode_unpadded].
  revert Hrun. unfold _get_license_key, try_except, bind, lift, ret, raise, request_kid.
  rewrite Ha. simpl. rewrite Hcp. simpl. rewrite Hkid, Hhex. simpl.
  destruct (http_post env _ _ _ _) as [response|e]; simpl.
  - destruct (key_of_response response) as [key|e]; simpl.
    + by intros [= _ <-].
    + destruct (is_KeyError e); by intros [= _ <-].
  - destruct (is_KeyError e); by intros [= _ <-].
Qed.

Lemma license_request_example :
  net (snd (_get_license_key (env_of clearkey_answer)
              (downloader_of (mpd_with_kid (Some "aabbccdd-eeff")) false) world0))
  = [POST "https://license.kinescope.io/vid" [("origin", "https://kinescope.io")]
       (JObj [("kids", JArr [JStr "qrvM3e7/"]); ("type", JStr "temporary")])]
  /\ b64decode ("qrvM3e7/" +:+ "==") = Ok [xaa; xbb; xcc; xdd; xee; xff].
Proof.
  apply (license_request_carries_kid (env_of clearkey_answer)
           (downloader_of (mpd_with_kid (Some "aabbccdd-eeff")) false) world0 _ _ _
           {| cenc_default_kid := Some "aabbccdd-eeff" |} [] "aabbccdd-eeff"
           [xaa; xbb; xcc; xdd; xee; xff] eq_refl eq_refl eq_refl eq_refl
           (surjective_pairing _)).
Defined.

(** * More on fetching *)

(** X4: only truncation is retried.  When an attempt of [_fetch_segment]
    fails with any other error, that error surfaces at once: no further
    request is sent and nothing is written. *)
Theorem fetch_segment_other_error_not_retried (env : Env) (url : string) (file : path)
    (w : world) (i : nat) (e : exn) :
  (i < 5)%nat ->
  (forall j, (j < i)%nat ->
     http_get env (net w ++ repeat (GET url []) j) url = Raise ChunkedEncodingError) ->
  http_get env (net w ++ repeat (GET url []) i) url = Raise e ->
  e <> ChunkedEncodingError ->
  _fetch_segment env url file w
  = (Raise e, {| net := net w ++ repeat (GET url []) (S i); fs := fs w; procs := procs w |}).
Proof.
  intros Hi Hfail Hlast Hother. unfold _fetch_segment.
  replace 5%nat with (i + S (4 - i))%nat by lia.
  rewrite (fetch_segment_attempts_fail env i url file w (S (4 - i)) Hfail).
  cbn [fetch_segment_attempts net fs procs sent]. rewrite Hlast.
  assert (Hnet : (net w ++ repeat (GET url []) i) ++ [GET url []]
                 = net w ++ repeat (GET url []) (S i)).
  { rewrite <- app_assoc. f_equal. symmetry. apply repeat_cons. }
  destruct e; try done; unfold sent; cbn [net fs procs]; by rewrite Hnet.
Qed.

Lemma fetch_segment_other_error_example :
  _fetch_segment
    {| KINESCOPE_BASE_URL := "https://kinescope.io";
       http_get := fun history _ =>
                     if (length history <? 2)%nat then Raise ChunkedEncodingError
                     else Raise RequestException;
       http_get_mpd := fun _ _ _ => Ok mpd_example;
       http_post := fun _ _ _ _ => Ok clearkey_answer;
       popen := tools;
       sys_frozen := false; sys_MEIPASS := None; resolve := Ok |}
    "au/1" ["temp"; "vid_Audio.aac"] world_open
  = (Raise RequestException,
     {| net := repeat (GET "au/1" []) 3; fs := fs world_open; procs := [] |}).
Proof.
  apply (fetch_segment_other_error_not_retried _ "au/1" ["temp"; "vid_Audio.aac"]
           world_open 2 RequestException).
  - lia.
  - intros j Hj. simpl. rewrite repeat_length. by destruct j as [|[|j]]; [..|lia].
  - reflexivity.
  - discriminate.
Defined.

(** X5: when the destination cannot be opened for writing (it is a
    directory, or its parent directory is missing or is a file),
    [_fetch_segments] raises the error of [open] and sends no request. *)
Theorem fetch_segments_unopenable (env : Env) (urls : list string) (file : path) (w : world) :
  (is_dir (fs w) file = true ->
   _fetch_segments env urls file w = (Raise IsADirectoryError, w))
  /\ (is_dir (fs w) file = false ->
      is_dir (fs w) (parent file) = false ->
      _fetch_segments env urls file w
      = (Raise (if path_exists (fs w) (parent file)
                then NotADirectoryError else FileNotFoundError), w)).
Proof.
  split.
  - intros Hdir. unfold _fetch_segments, bind, on_fs, open_wb. rewrite Hdir. by destruct w.
  - intros Hfile Hparent. unfold _fetch_segments, bind, on_fs, open_wb, check_parent.
    rewrite Hfile, Hparent. destruct w. simpl. by destruct (path_exists _ _).
Qed.

Lemma fetch_segments_unopenable_example :
  _fetch_segments (env_of clearkey_answer) ["au/1"] ["temp"] world0
  = (Raise IsADirectoryError, world0)
  /\ _fetch_segments (env_of clearkey_answer) ["au/1"] ["gone"; "vid_Audio.aac"] world0
     = (Raise FileNotFoundError, world0).
Proof.
  split.
  - apply (fetch_segments_unopenable (env_of clearkey_answer) ["au/1"] ["temp"] world0).
    reflexivity.
  - apply (fetch_segments_unopenable (env_of clearkey_answer) ["au/1"]
             ["gone"; "vid_Audio.aac"] world0); reflexivity.
Defined.

(** * More on resolutions *)

Lemma sorted_last_is_greatest {A} (R : A -> A -> Prop) (l : list A) (d : A) :
  StronglySorted R l ->
  Forall (fun x => x = List.last l d \/ R x (List.last l d)) l.
Proof.
  induction 1 as [|x l Hl IH Hx]; [constructor|].
  destruct l as [|y l']; [constructor; [by left | constructor]|].
  change (List.last (x :: y :: l') d) with (List.last (y :: l') d).
  constructor; [|exact IH].
  right. rewrite List.Forall_forall in Hx. apply Hx.
  clear. revert y. induction l' as [|z l' IH]; intros y; [by left|].
  change (List.last (y :: z :: l') d) with (List.last (z :: l') d). right. apply IH.
Qed.

Lemma last_map_Some {A} (l : list A) (d : A) :
  l <> [] -> List.last (map Some l) None = Some (List.last l d).
Proof.
  induction l as [|x l IH]; [done|]. intros _.
  destruct l as [|y l']; [done|].
  change (List.last (map Some (x :: y :: l')) None)
    with (List.last (map Some (y :: l')) None).
  change (List.last (x :: y :: l') d) with (List.last (y :: l') d). by apply IH.
Qed.

Lemma last_map_fn {A B} (f : A -> B) (l : list A) (d : A) :
  List.last (map f l) (f d) = f (List.last l d).
Proof.
  induction l as [|x l IH]; [done|]. destruct l as [|y l']; [done|].
  change (List.last (map f (x :: y :: l')) (f d)) with (List.last (map f (y :: l')) (f d)).
  change (List.last (x :: y :: l') d) with (List.last (y :: l') d). exact IH.
Qed.

(** What [get_resolutions] returns for a manifest whose video set is the
    first adaptation set with a height. *)
Lemma get_resolutions_video_set (mpd : MPEGDASH) (p : Period) (ps : list Period)
    (pre post : list AdaptationSet) (a : AdaptationSet) (reps : list Representation) :
  periods mpd = Some (p :: ps) ->
  adaptation_sets p = Some (pre ++ a :: post) ->
  Forall lacks_height pre ->
  representations a = Some reps ->
  reps <> [] ->
  Forall (fun r => truthy_int (height r) = true) reps ->
  exists l,
    get_resolutions mpd = Ok (Some (map resolution_of l))
    /\ Permutation l reps
    /\ StronglySorted
         (fun x y => exists a b, height x = Some a /\ height y = Some b /\ (a <= b)%Z) l.
Proof.
  intros Hp Hsets Hpre Hreps Hne Hall.
  unfold get_resolutions. rewrite Hp. simpl. rewrite Hsets. simpl.
  rewrite get_resolutions_loop_skip by done. simpl.
  destruct reps as [|r0 rs]; [done|]. rewrite Hreps. simpl.
  apply Forall_cons in Hall as Hall'. destruct Hall' as [Hr0 _]. rewrite Hr0.
  destruct (sorted_spec height (r0 :: rs)) as (l & Hl & Hperm & Hsorted).
  { eapply Forall_impl; [exact Hall|]. intros r. apply truthy_int_is_Some. }
  rewrite Hl. simpl. by exists l.
Qed.

(** X6: without a requested resolution, [download] works with the last
    entry of [get_resolutions], and that entry is the (width, height) of a
    representation of the video set whose height no other representation
    exceeds. *)
Theorem default_resolution_is_highest (self : VideoDownloader) (p : Period)
    (ps : list Period) (pre post : list AdaptationSet) (a : AdaptationSet)
    (reps : list Representation) :
  periods (mpd_master self) = Some (p :: ps) ->
  adaptation_sets p = Some (pre ++ a :: post) ->
  Forall lacks_height pre ->
  representations a = Some reps ->
  reps <> [] ->
  Forall (fun r => truthy_int (height r) = true) reps ->
  exists best,
    chosen_resolution self None = Ok best
    /\ In best (map resolution_of reps)
    /\ Forall (fun r => height_le r best) (map resolution_of reps).
Proof.
  intros Hp Hsets Hpre Hreps Hne Hall.
  destruct (get_resolutions_video_set _ _ _ _ _ _ _ Hp Hsets Hpre Hreps Hne Hall)
    as (l & Hl & Hperm & Hsorted).
  assert (Hlne : l <> []).
  { intros ->. apply Permutation_nil in Hperm. by apply Hne. }
  destruct l as [|x l']; [done|].
  set (best := List.last (x :: l') x).
  assert (Hin : In best (x :: l')).
  { subst best. pose proof (app_removelast_last x Hlne) as Hsplit.
    rewrite Hsplit at 2. apply in_or_app. right. by left. }
  exists (resolution_of best). split; [|split].
  - unfold chosen_resolution. rewrite Hl. cbn [rbind last_resolution].
    rewrite (last_map_Some _ (resolution_of x)) by done.
    by rewrite last_map_fn.
  - apply in_map. apply (Permutation_in _ Hperm Hin).
  - assert (Hbest : is_Some (height best)).
    { apply truthy_int_is_Some. rewrite List.Forall_forall in Hall.
      apply Hall, (Permutation_in _ Hperm Hin). }
    destruct Hbest as [hb Hhb].
    pose proof (sorted_last_is_greatest _ _ x Hsorted) as Hgreat. fold best in Hgreat.
    apply List.Forall_forall. intros r Hr. apply in_map_iff in Hr as (rep & <- & Hrep).
    apply (Permutation_in _ (Permutation_sym Hperm)) in Hrep.
    rewrite List.Forall_forall in Hgreat.
    unfold height_le, resolution_of. cbn [snd].
    destruct (Hgreat rep Hrep) as [-> | (ha & hb' & Ha & Hb & Hle)].
    + rewrite Hhb. lia.
    + by rewrite Ha, Hb.
Qed.

Lemma default_resolution_example :
  exists best,
    chosen_resolution (downloader_of mpd_clear false) None = Ok best
    /\ In best [(Some 1280%Z, Some 720%Z); (Some 640%Z, Some 360%Z)]
    /\ Forall (fun r => height_le r best)
         [(Some 1280%Z, Some 720%Z); (Some 640%Z, Some 360%Z)].
Proof.
  apply (default_resolution_is_highest (downloader_of mpd_clear false)
           {| adaptation_sets := Some [audio_set; clear_video_set] |} []
           [audio_set] [] clear_video_set
           [ representation_of (Some 1280%Z) (Some 720%Z) "v720/" ["a"; "b"];
             representation_of (Some 640%Z) (Some 360%Z) "v360/" ["a"; "b"; "a"] ]
           eq_refl eq_refl).
  - constructor; [exact audio_set_lacks_height | constructor].
  - reflexivity.
  - discriminate.
  - repeat constructor.
Defined.

Lemma mapM_decorate_None {A} (key : A -> option Z) (xs : list A) :
  Exists (fun x => key x = None) xs -> mapM (decorate key) xs = Raise TypeError.
Proof.
  induction 1 as [x xs Hx | x xs _ IH]; cbn [mapM]; unfold decorate at 1.
  - by rewrite Hx.
  - destruct (key x); [|done]. cbn [rbind]. by rewrite IH.
Qed.

(** X7: when the first representation of the first set with a height is
    followed by others and one of them has no height, [get_resolutions]
    raises [TypeError]: the sort compares an integer with [None]. *)
Theorem get_resolutions_mixed_heights (mpd : MPEGDASH) (p : Period) (ps : list Period)
    (pre post : list AdaptationSet) (a : AdaptationSet) (r0 r1 : Representation)
    (rs : list Representation) :
  periods mpd = Some (p :: ps) ->
  adaptation_sets p = Some (pre ++ a :: post) ->
  Forall lacks_height pre ->
  representations a = Some (r0 :: r1 :: rs) ->
  truthy_int (height r0) = true ->
  Exists (fun r => height r = None) (r1 :: rs) ->
  get_resolutions mpd = Raise TypeError.
Proof.
  intros Hp Hsets Hpre Hreps Hr0 Hnone.
  unfold get_resolutions. rewrite Hp. simpl. rewrite Hsets. simpl.
  rewrite get_resolutions_loop_skip by done. simpl. rewrite Hreps. simpl. rewrite Hr0.
  unfold sorted. cbn [iter rbind].
  by rewrite (mapM_decorate_None height (r0 :: r1 :: rs)) by (by apply Exists_cons_tl).
Qed.

Lemma get_resolutions_mixed_example : get_resolutions mpd_mixed = Raise TypeError.
Proof.
  apply (get_resolutions_mixed_heights mpd_mixed
           {| adaptation_sets := Some [audio_set; mixed_video_set] |} []
           [audio_set] [] mixed_video_set
           (representation_of (Some 1280%Z) (Some 720%Z) "v720/" ["a"])
           (representation_of (Some 640%Z) None "v360/" ["a"]) [] eq_refl eq_refl).
  - constructor; [exact audio_set_lacks_height | constructor].
  - reflexivity.
  - reflexivity.
  - by constructor.
Defined.

Lemma first_match_exists (res : resolution) (reps : list Representation) :
  In res (map resolution_of reps) -> exists rep, first_match res reps rep.
Proof.
  induction reps as [|r rs IH]; [done|]. intros Hin.
  destruct (decide (resolution_of r = res)) as [Heq|Hne].
  - exists r. by constructor.
  - destruct Hin as [Heq|Hin]; [done|]. destruct (IH Hin) as [rep Hrep].
    exists rep. by constructor.
Qed.

Lemma plain_track_served (res : resolution) (a : AdaptationSet) :
  plain_track a -> served res a.
Proof.
  intros (r & rs & Hreps & Hh & urls & Hurls). exists r, urls. split; [|done].
  exists r, rs. split; [done|]. by rewrite Hh.
Qed.

Lemma plain_track_lacks_height (a : AdaptationSet) : plain_track a -> lacks_height a.
Proof. intros (r & rs & Hreps & Hh & _). by exists r, rs. Qed.

(** X8: the two readers of the manifest agree.  In a first period made
    of one video set among audio-like sets, all with usable URLs, every
    resolution that [get_resolutions] lists is accepted by
    [_get_segments_urls]: it never answers [InvalidResolution] to a listed
    resolution. *)
Theorem listed_resolutions_are_accepted (mpd : MPEGDASH) (p : Period) (ps : list Period)
    (pre post : list AdaptationSet) (a : AdaptationSet) (reps : list Representation)
    (l : list resolution) (res : resolution) :
  periods mpd = Some (p :: ps) ->
  adaptation_sets p = Some (pre ++ a :: post) ->
  Forall plain_track pre ->
  Forall plain_track post ->
  representations a = Some reps ->
  reps <> [] ->
  Forall (fun rep => truthy_int (height rep) = true /\ has_urls rep) reps ->
  get_resolutions mpd = Ok (Some l) ->
  In res l ->
  exists d, _get_segments_urls mpd res = Ok d.
Proof.
  intros Hp Hsets Hpre Hpost Hreps Hne Hall Hlist Hin.
  destruct (get_resolutions_video_set mpd p ps pre post a reps Hp Hsets) as (s & Hs & Hperm & _);
    [ eapply Forall_impl; [exact Hpre | apply plain_track_lacks_height]
    | done | done | eapply Forall_impl; [exact Hall | by intros r [Hr _]] |].
  rewrite Hs in Hlist. injection Hlist as <-.
  assert (Hin' : In res (map resolution_of reps)).
  { eapply Permutation_in; [|exact Hin]. by apply Permutation_map. }
  destruct (first_match_exists _ _ Hin') as [rep Hrep].
  assert (Hserved : served res a).
  { destruct reps as [|r0 rs]; [done|].
    rewrite List.Forall_forall in Hall.
    destruct (Hall rep (proj1 (first_match_exact _ _ _ Hrep))) as [_ [urls Hurls]].
    exists rep, urls. split; [|done]. exists r0, rs. split; [done|].
    by rewrite (proj1 (Hall r0 (or_introl eq_refl))). }
  assert (Hsetsall : Forall (served res) (pre ++ a :: post)).
  { apply Forall_app. split.
    - eapply Forall_impl; [exact Hpre | apply plain_track_served].
    - constructor; [done|]. eapply Forall_impl; [exact Hpost | apply plain_track_served]. }
  destruct (get_segments_urls_loop_served res _ ∅ Hsetsall) as [d Hd].
  exists d. unfold _get_segments_urls. rewrite Hp. cbn [subscript0 rbind].
  rewrite Hsets. cbn [iter rbind]. by rewrite Hd.
Qed.

Lemma audio_set_plain_track : plain_track audio_set.
Proof.
  do 2 eexists. split; [reflexivity|]. split; [reflexivity|].
  exact (ex_intro _ _ (proj2 (audio_set_served (None, None)))).
Qed.

Lemma listed_resolutions_example :
  exists d, _get_segments_urls mpd_clear (Some 640%Z, Some 360%Z) = Ok d.
Proof.
  apply (listed_resolutions_are_accepted mpd_clear
           {| adaptation_sets := Some [audio_set; clear_video_set] |} []
           [audio_set] [] clear_video_set
           [ representation_of (Some 1280%Z) (Some 720%Z) "v720/" ["a"; "b"];
             representation_of (Some 640%Z) (Some 360%Z) "v360/" ["a"; "b"; "a"] ]
           [(Some 640%Z, Some 360%Z); (Some 1280%Z, Some 720%Z)]
           (Some 640%Z, Some 360%Z) eq_refl eq_refl).
  - constructor; [exact audio_set_plain_track | constructor].
  - constructor.
  - reflexivity.
  - discriminate.
  - constructor; [|constructor; [|constructor]];
      (split; [reflexivity|]); do 7 eexists; repeat (split; [reflexivity|]); reflexivity.
  - reflexivity.
  - by left.
Defined.

(** X9: a manifest whose first period has no adaptation set with a
    height has no resolutions to choose from: [download] without a
    resolution raises [TypeError] before any request is sent, any file
    written or any tool started. *)
Theorem download_without_video_set (env : Env) (self : VideoDownloader) (filepath : string)
    (p : Period) (ps : list Period) (sets : list AdaptationSet) (w : world) :
  periods (mpd_master self) = Some (p :: ps) ->
  adaptation_sets p = Some sets ->
  Forall lacks_height sets ->
  download env self filepath None w = (Raise TypeError, w).
Proof.
  intros Hp Hsets Hlack.
  assert (Hres : get_resolutions (mpd_master self) = Ok None).
  { unfold get_resolutions. rewrite Hp. simpl. rewrite Hsets. simpl.
    rewrite <- (app_nil_r sets). by rewrite get_resolutions_loop_skip. }
  unfold download, chosen_resolution. rewrite Hres. reflexivity.
Qed.

Lemma download_without_video_set_example :
  download (env_of clearkey_answer) (downloader_of mpd_audio_only false) "out" None world0
  = (Raise TypeError, world0).
Proof.
  apply (download_without_video_set _ (downloader_of mpd_audio_only false) "out"
           {| adaptation_sets := Some [audio_set] |} [] [audio_set] world0 eq_refl eq_refl).
  constructor; [exact audio_set_lacks_height | constructor].
Defined.

(** * The temporary files of [download] *)

Lemma split_on_nonempty (c : ascii) (s : string) : split_on c s <> [].
Proof.
  destruct s as [|d r]; [done|]. cbn [split_on].
  destruct (Ascii.eqb c d); [done|]. by destruct (split_on c r).
Qed.

Lemma split_on_free (c : ascii) (t : string) : free_of c t -> split_on c t = [t].
Proof.
  unfold free_of. induction t as [|d r IH]; [done|]. cbn [list_ascii_of_string split_on].
  intros H. apply Forall_cons in H as [Hd Hr].
  destruct (Ascii.eqb_spec c d) as [->|_]; [done|]. by rewrite (IH Hr).
Qed.

Lemma split_on_append (c : ascii) (s t : string) :
  free_of c t ->
  split_on c (s +:+ t)
  = removelast (split_on c s) ++ [List.last (split_on c s) "" +:+ t].
Proof.
  intros Ht. induction s as [|d r IH].
  - cbn. by apply split_on_free.
  - change (String d r +:+ t) with (String d (r +:+ t)). cbn [split_on].
    rewrite IH. pose proof (split_on_nonempty c r) as Hne.
    destruct (split_on c r) as [|y ys]; [done|]. clear Hne IH.
    destruct (Ascii.eqb c d).
    + by destruct ys.
    + by destruct ys.
Qed.

Lemma append_not_dot (x t : string) : (x +:+ String "_" t) <> "" /\ (x +:+ String "_" t) <> ".".
Proof.
  destruct x as [|a [|b x]]; cbn [String.append]; split; intros H; discriminate H.
Qed.

Lemma is_absolute_append (s t : string) :
  is_absolute (s +:+ String "_" t) = is_absolute s.
Proof. by destruct s. Qed.

Lemma Path_append (s t : string) :
  free_of "/" (String "_" t) ->
  Path (s +:+ String "_" t) = dir_of_text s ++ [stem_of_text s +:+ String "_" t].
Proof.
  intros Hfree. unfold Path, dir_of_text, stem_of_text.
  rewrite is_absolute_append, (split_on_append _ _ _ Hfree), filter_app.
  rewrite filter_cons_True by exact (append_not_dot _ _). rewrite filter_nil.
  by destruct (is_absolute s).
Qed.

Lemma rfind_append (c : ascii) (x t : string) (i : nat) :
  rfind c t = Some i -> rfind c (x +:+ t) = Some (String.length x + i)%nat.
Proof.
  intros Ht. induction x as [|d r IH]; [done|].
  change (String d r +:+ t) with (String d (r +:+ t)). cbn [rfind String.length].
  by rewrite IH.
Qed.

Lemma substring_append_skip (x t : string) (n m : nat) :
  substring (String.length x + n) m (x +:+ t) = substring n m t.
Proof. induction x as [|d r IH]; [done|]. exact IH. Qed.

Lemma substring_append_prefix (x t : string) (n : nat) :
  substring 0 (String.length x + n) (x +:+ t) = x +:+ substring 0 n t.
Proof.
  induction x as [|d r IH]; [done|].
  change (String d r +:+ t) with (String d (r +:+ t)).
  change (String d r +:+ substring 0 n t) with (String d (r +:+ substring 0 n t)).
  cbn [String.length Nat.add substring]. by rewrite IH.
Qed.

Lemma append_assoc (x y z : string) : (x +:+ y) +:+ z = x +:+ (y +:+ z).
Proof.
  induction x as [|d r IH]; [done|].
  change (String d ((r +:+ y) +:+ z) = String d (r +:+ (y +:+ z))). by rewrite IH.
Qed.

Lemma name_last (p : path) : p <> ["/"] -> name p = List.last p "".
Proof.
  intros Hne. unfold name. repeat case_match; subst; done.
Qed.

Lemma name_snoc (dir : path) (x t : string) :
  name (dir ++ [x +:+ String "_" t]) = x +:+ String "_" t.
Proof.
  rewrite name_last; [by rewrite last_last|].
  intros H. apply (f_equal (fun l => List.last l "")) in H. rewrite last_last in H.
  cbn in H. by destruct x as [|a [|b x]].
Qed.

(** The suffix of a name that ends in a tail with one inner dot. *)
Lemma suffix_of_name_append (x t sfx : string) (i : nat) :
  rfind "." t = Some i ->
  (0 < i)%nat -> (i < String.length t - 1)%nat ->
  substring i (String.length t - i) t = sfx ->
  suffix_of_name (x +:+ t) = sfx.
Proof.
  intros Hdot Hpos Hlast Hsfx. unfold suffix_of_name.
  rewrite (rfind_append _ _ _ _ Hdot), string_length_append.
  replace ((0 <? String.length x + i)%nat) with true by (symmetry; apply Nat.ltb_lt; lia).
  replace ((String.length x + i <? String.length x + String.length t - 1)%nat) with true
    by (symmetry; apply Nat.ltb_lt; lia).
  cbn [andb].
  replace (String.length x + String.length t - (String.length x + i))%nat
    with (String.length t - i)%nat by lia.
  by rewrite substring_append_skip.
Qed.

(** Lines 174-176 for one element: where the track goes, and where its
    encrypted form goes. *)
Lemma tmp_path_shape (s t sfx : string) (i : nat) :
  free_of "/" (String "_" t) ->
  rfind "." (String "_" t) = Some i ->
  (0 < i)%nat -> (i < String.length (String "_" t) - 1)%nat ->
  substring i (String.length (String "_" t) - i) (String "_" t) = sfx ->
  substring 0 i (String "_" t) +:+ sfx = String "_" t ->
  valid_suffix (sfx +:+ ".enc") = true ->
  Path (s +:+ String "_" t) = dir_of_text s ++ [stem_of_text s +:+ String "_" t]
  /\ enc_path_of (Path (s +:+ String "_" t))
     = Ok (dir_of_text s ++ [stem_of_text s +:+ String "_" t +:+ ".enc"]).
Proof.
  intros Hfree Hdot Hpos Hlast Hsfx Hsplit Hvalid.
  rewrite (Path_append _ _ Hfree). split; [done|].
  unfold enc_path_of, path_suffix, with_suffix. rewrite name_snoc.
  rewrite (suffix_of_name_append _ _ _ _ Hdot Hpos Hlast Hsfx), Hvalid. cbn [negb].
  destruct (stem_of_text s +:+ String "_" t) as [|a nm] eqn:Hnm.
  { by destruct (append_not_dot (stem_of_text s) t) as [[] _]. }
  rewrite <- Hnm. rewrite removelast_last. do 3 f_equal.
  rewrite string_length_append.
  replace (String.length (stem_of_text s) + String.length (String "_" t) - String.length sfx)%nat
    with (String.length (stem_of_text s) + i)%nat.
  - rewrite substring_append_prefix, append_assoc. f_equal.
    by rewrite <- Hsplit at 2; rewrite append_assoc.
  - assert (Hlen : String.length (substring 0 i (String "_" t)) = i).
    { clear -Hlast. revert Hlast. generalize (String "_" t).
      induction i as [|i IH]; intros [|d u]; cbn; intros; try lia.
      rewrite IH; [done|]. cbn in *. lia. }
    apply (f_equal String.length) in Hsplit.
    rewrite string_length_append, Hlen in Hsplit. lia.
Qed.

Lemma tmp_paths (self : VideoDownloader) :
  let dir := dir_of_text (fspath (tmp_base_path self)) in
  let stem := stem_of_text (fspath (tmp_base_path self)) in
  tmp_path_of self "Audio" ".aac" = dir ++ [stem +:+ "_Audio.aac"]
  /\ tmp_path_of self "Video" ".mp4" = dir ++ [stem +:+ "_Video.mp4"]
  /\ enc_path_of (tmp_path_of self "Audio" ".aac") = Ok (dir ++ [stem +:+ "_Audio.aac.enc"])
  /\ enc_path_of (tmp_path_of self "Video" ".mp4") = Ok (dir ++ [stem +:+ "_Video.mp4.enc"]).
Proof.
  intros dir stem.
  destruct (tmp_path_shape (fspath (tmp_base_path self)) "Audio.aac" ".aac" 6)
    as [Ha Hea]; [by repeat constructor | done | lia | cbn; lia | done..|].
  destruct (tmp_path_shape (fspath (tmp_base_path self)) "Video.mp4" ".mp4" 6)
    as [Hv Hev]; [by repeat constructor | done | lia | cbn; lia | done..|].
  change (tmp_path_of self "Audio" ".aac")
    with (Path (fspath (tmp_base_path self) +:+ "_Audio.aac")).
  change (tmp_path_of self "Video" ".mp4")
    with (Path (fspath (tmp_base_path self) +:+ "_Video.mp4")).
  rewrite Hea, Hev. by rewrite Ha, Hv.
Qed.

Lemma append_inj_l (x s t : string) : x +:+ s = x +:+ t -> s = t.
Proof. induction x as [|d r IH]; [done|]. cbn. intros [= H]. by apply IH. Qed.

(** X10: the temporary files of the two tracks lie in one directory under
    the names [<stem>_Audio.aac] and [<stem>_Video.mp4]; computing the
    path of the encrypted form never fails and appends [.enc] to the
    name; the four paths are pairwise different. *)
Theorem temporary_files_are_distinct (self : VideoDownloader) :
  exists dir stem,
    let tmp_a := dir ++ [stem +:+ "_Audio.aac"] in
    let tmp_v := dir ++ [stem +:+ "_Video.mp4"] in
    let enc_a := dir ++ [stem +:+ "_Audio.aac.enc"] in
    let enc_v := dir ++ [stem +:+ "_Video.mp4.enc"] in
    tmp_path_of self "Audio" ".aac" = tmp_a
    /\ tmp_path_of self "Video" ".mp4" = tmp_v
    /\ enc_path_of tmp_a = Ok enc_a
    /\ enc_path_of tmp_v = Ok enc_v
    /\ NoDup [tmp_a; tmp_v; enc_a; enc_v].
Proof.
  destruct (tmp_paths self) as (Ha & Hv & Hea & Hev).
  rewrite Ha in Hea. rewrite Hv in Hev.
  exists (dir_of_text (fspath (tmp_base_path self))),
         (stem_of_text (fspath (tmp_base_path self))).
  cbn zeta. split; [exact Ha|]. split; [exact Hv|].
  split; [exact Hea|]. split; [exact Hev|].
  repeat constructor; rewrite ?elem_of_cons, ?elem_of_nil;
    intros H; repeat destruct H as [H|H]; try done;
    apply app_inj_tail in H as [_ H]; apply append_inj_l in H; discriminate H.
Qed.

(** * Downloads of both tracks *)

Lemma tmp_paths_differ (self : VideoDownloader) :
  tmp_path_of self "Audio" ".aac" <> tmp_path_of self "Video" ".mp4".
Proof.
  destruct (tmp_paths self) as (Ha & Hv & _). rewrite Ha, Hv. intros H.
  apply app_inj_tail in H as [_ H]. apply append_inj_l in H. discriminate H.
Qed.

(** The end of a download of both tracks: the output directory, then
    [ffmpeg]. *)
Lemma merge_to_output (env : Env) (self : VideoDownloader) (sources : list path)
    (out : path) (w3 w' : world) :
  bind (on_fs (mkdir_parents (parent out))) (fun _ => _merge_tracks env self sources out) w3
  = (Ok tt, w') ->
  exists f,
    popen env (ffmpeg_command self sources out) f = Some (fs w')
    /\ procs w' = procs w3 ++ [ffmpeg_command self sources out]
    /\ (forall q n, fs w3 !! q = Some n -> f !! q = Some n).
Proof.
  unfold bind, on_fs.
  destruct (mkdir_parents (parent out) (fs w3)) as [[[]|e] f] eqn:Hmk; [|done].
  unfold _merge_tracks, try_except, Popen. cbn [fs procs net].
  fold (ffmpeg_command self sources out).
  destruct (popen env (ffmpeg_command self sources out) f) as [f'|] eqn:Hpopen; [|done].
  intros [= <-]. exists f. cbn [fs procs started]. split; [done|]. split; [done|].
  intros q n. by apply mkdir_parents_preserves with (1 := Hmk).
Qed.

(** X11: a download of both tracks that completes has started, after the
    licence exchange and the fetches, the decryption tool on the audio file
    and then on the video file when there is a key, and last one [ffmpeg]
    command that merges the audio and the video temporary files into the
    output path, the given path with its suffix replaced by [.mp4].
    Without a key, [ffmpeg] finds in the two temporary files the
    concatenated segments of each track. *)
Theorem download_two_tracks (env : Env) (self : VideoDownloader) (filepath : string)
    (res : option resolution) (w w' w1 : world) (r : resolution) (key : option string)
    (d : gmap (option string) (list string)) (audio_urls video_urls : list string)
    (out : path) (content : string -> list byte) :
  audio_only self = false ->
  download env self filepath res w = (Ok tt, w') ->
  chosen_resolution self res = Ok r ->
  _get_license_key env self w = (Ok key, w1) ->
  _get_segments_urls (mpd_master self) r = Ok d ->
  d !! Some "audio/mp4" = Some audio_urls ->
  d !! Some "video/mp4" = Some video_urls ->
  with_suffix (Path filepath) ".mp4" = Ok out ->
  (forall history url body, http_get env history url = Ok body -> body = content url) ->
  let tmp_a := tmp_path_of self "Audio" ".aac" in
  let tmp_v := tmp_path_of self "Video" ".mp4" in
  exists enc_a enc_v f,
    enc_path_of tmp_a = Ok enc_a
    /\ enc_path_of tmp_v = Ok enc_v
    /\ procs w'
       = procs w
         ++ (if truthy_str key
             then [decrypt_command self enc_a tmp_a (default "" key);
                   decrypt_command self enc_v tmp_v (default "" key)]
             else [])
         ++ [ffmpeg_command self [tmp_a; tmp_v] out]
    /\ popen env (ffmpeg_command self [tmp_a; tmp_v] out) f = Some (fs w')
    /\ (truthy_str key = false ->
        f !! tmp_a = Some (File (concat (map content (distinct audio_urls))))
        /\ f !! tmp_v = Some (File (concat (map content (distinct video_urls))))).
Proof.
  intros Hboth Hrun Hres Hkey Hd Haudio Hvideo Hout Hnet tmp_a tmp_v.
  destruct (license_key_same_files env self w (Ok key) w1 Hkey) as [Hfs1 Hprocs1].
  destruct (tmp_paths self) as (_ & _ & Hea & Hev).
  fold tmp_a in Hea. fold tmp_v in Hev.
  set (enc_a := dir_of_text _ ++ [_ +:+ "_Audio.aac.enc"]) in *.
  set (enc_v := dir_of_text _ ++ [_ +:+ "_Video.mp4.enc"]) in *.
  unfold download, bind, lift in Hrun. rewrite Hres, Hkey, Hd in Hrun.
  cbn [rbind] in Hrun. unfold dict_getitem in Hrun. rewrite Haudio, Hvideo in Hrun.
  rewrite Hboth in Hrun. cbn [negb fetch_elements] in Hrun.
  unfold bind, lift, ret in Hrun. fold tmp_a tmp_v in Hrun. rewrite Hea, Hev in Hrun.
  set (fetch_a := if truthy_str key then enc_a else tmp_a) in *.
  set (fetch_v := if truthy_str key then enc_v else tmp_v) in *.
  destruct (_fetch_segments env audio_urls fetch_a w1) as [[[]|e] w2] eqn:Hfa; [|done].
  destruct (_fetch_segments env video_urls fetch_v w2) as [[[]|e] w3] eqn:Hfv; [|done].
  destruct (fetch_segments_ok _ _ _ _ _ Hfa) as (new_a & _ & Hp2 & Hurls_a & Hfs2).
  destruct (fetch_segments_ok _ _ _ _ _ Hfv) as (new_v & _ & Hp3 & Hurls_v & Hfs3).
  rewrite (downloads_bodies env content Hnet), Hurls_a in Hfs2.
  rewrite (downloads_bodies env content Hnet), Hurls_v in Hfs3.
  exists enc_a, enc_v.
  destruct (truthy_str key) eqn:Htruthy.
  - destruct key as [k|]; [|done]. subst fetch_a fetch_v.
    cbn [decrypt_elements] in Hrun. unfold bind, _decrypt_video, try_except, Popen in Hrun.
    cbn [el_enc_path el_tmp_path] in Hrun.
    fold (decrypt_command self enc_a tmp_a k) in Hrun.
    fold (decrypt_command self enc_v tmp_v k) in Hrun.
    destruct (popen env (decrypt_command self enc_a tmp_a k) (fs w3)) as [f4|]; [|done].
    cbn [fs started] in Hrun.
    destruct (popen env (decrypt_command self enc_v tmp_v k) f4) as [f5|]; [|done].
    cbn [ret length Nat.sub subscript nth_error el_suffix el_tmp_path map] in Hrun.
    rewrite Hout in Hrun.
    destruct (merge_to_output env self [tmp_a; tmp_v] out _ w' Hrun) as (f & Hf & Hprocs & _).
    exists f. split; [done|]. split; [done|]. split; [|done].
    rewrite Hprocs. cbn [procs started default]. rewrite Hp3, Hp2, Hprocs1.
    by rewrite <- !app_assoc.
  - subst fetch_a fetch_v.
    assert (Hrun' : bind (on_fs (mkdir_parents (parent out)))
                      (fun _ => _merge_tracks env self [tmp_a; tmp_v] out) w3 = (Ok tt, w')).
    { destruct key;
        cbn [length Nat.sub subscript nth_error el_suffix el_tmp_path map] in Hrun;
        rewrite Hout in Hrun; exact Hrun. }
    clear Hrun.
    destruct (merge_to_output env self [tmp_a; tmp_v] out _ w' Hrun') as (f & Hf & Hprocs & Hkeep).
    exists f. split; [done|]. split; [done|]. split; [|split; [done|]].
    + by rewrite Hprocs, Hp3, Hp2, Hprocs1.
    + intros _. split; apply Hkeep; rewrite Hfs3.
      * rewrite lookup_insert_ne by (intros H; by apply (tmp_paths_differ self)).
        by rewrite Hfs2, lookup_insert_eq.
      * by rewrite lookup_insert_eq.
Qed.

Lemma download_two_tracks_example :
  let self := downloader_of mpd_clear false in
  let w' := snd (download (env_merging clearkey_answer) self "out/o" None world0) in
  let tmp_a := tmp_path_of self "Audio" ".aac" in
  let tmp_v := tmp_path_of self "Video" ".mp4" in
  exists enc_a enc_v f,
    enc_path_of tmp_a = Ok enc_a
    /\ enc_path_of tmp_v = Ok enc_v
    /\ procs w'
       = procs world0 ++ [] ++ [ffmpeg_command self [tmp_a; tmp_v] ["out"; "o.mp4"]]
    /\ toolbox (ffmpeg_command self [tmp_a; tmp_v] ["out"; "o.mp4"]) f = Some (fs w')
    /\ (false = false ->
        f !! tmp_a = Some (File (concat (map body_of ["au/1"; "au/2"])))
        /\ f !! tmp_v = Some (File (concat (map body_of ["v720/a"; "v720/b"])))).
Proof.
  intros self w' tmp_a tmp_v.
  refine (download_two_tracks (env_merging clearkey_answer) self "out/o" None world0 w' world0
            (Some 1280%Z, Some 720%Z) None
            (<[Some "video/mp4" := ["v720/a"; "v720/b"]]>
               (<[Some "audio/mp4" := ["au/1"; "au/2"; "au/1"]]> ∅))
            ["au/1"; "au/2"; "au/1"] ["v720/a"; "v720/b"] ["out"; "o.mp4"] body_of
            eq_refl _ eq_refl eq_refl _ eq_refl eq_refl eq_refl _).
  - vm_compute. reflexivity.
  - vm_compute. reflexivity.
  - by intros history url body [= <-].
Defined.

(** * The constructor and the finaliser *)

Lemma on_fs_id (w : world) (r : result unit) :
  (r, {| net := net w; fs := fs w; procs := procs w |}) = (r, w).
Proof. by destruct w. Qed.

Lemma mkdir_parents_existing (p : path) (f : filesystem) :
  f !! p = Some Dir -> mkdir_parents p f = (Ok tt, f).
Proof.
  intros Hdir. unfold mkdir_parents.
  assert (Hmk : os_mkdir p f = (Raise FileExistsError, f)).
  { unfold os_mkdir, path_exists. rewrite Hdir. by destruct p. }
  destruct (length p); cbn [mkdir_parents_upto]; by rewrite Hmk, (is_dir_lookup _ _ Hdir).
Qed.

Lemma mkdir_parents_on_file (p : path) (f : filesystem) (c : list byte) :
  p <> [] -> f !! p = Some (File c) -> mkdir_parents p f = (Raise FileExistsError, f).
Proof.
  intros Hp Hfile. unfold mkdir_parents.
  assert (Hmk : os_mkdir p f = (Raise FileExistsError, f)).
  { unfold os_mkdir, path_exists. rewrite Hfile. by destruct p. }
  assert (Hnot : is_dir f p = false).
  { unfold is_dir. rewrite Hfile. by destruct p. }
  destruct (length p); cbn [mkdir_parents_upto]; by rewrite Hmk, Hnot.
Qed.

Lemma joinpath_name (d : path) :
  joinpath d "ffmpeg" = d ++ ["ffmpeg"] /\ joinpath d "mp4decrypt" = d ++ ["mp4decrypt"].
Proof. by split. Qed.

(** X12: a constructor that returns has sent one request through its
    session, for the master playlist with the [Referer] header, and has
    started nothing; the temporary path is a directory afterwards, and the
    only change to the files is new directories on the way to it.  The
    object holds the manifest the server sent.  Its tool paths are the
    ones it was given, except in a bundled program ([sys.frozen] with
    [sys._MEIPASS]), where they are [ffmpeg] and [mp4decrypt] in the
    resolved bundle directory. *)
Theorem init_prepares_workspace (env : Env) (video : KinescopeVideo) (temp_dir : string)
    (ffmpeg mp4decrypt : arg) (audio : bool) (w w' : world) (self : VideoDownloader) :
  __init__ env video temp_dir ffmpeg mp4decrypt audio w = (Ok self, w') ->
  let request := GET (get_mpd_master_playlist_url video)
                   [("Referer", KINESCOPE_BASE_URL env)] in
  net w' = net w ++ [request]
  /\ procs w' = procs w
  /\ is_dir (fs w') (temp_path self) = true
  /\ (forall q, fs w' !! q = fs w !! q
                \/ (fs w !! q = None /\ fs w' !! q = Some Dir
                    /\ q `prefix_of` temp_path self))
  /\ http_get_mpd env (net w) (get_mpd_master_playlist_url video)
       [("Referer", KINESCOPE_BASE_URL env)] = Ok (mpd_master self)
  /\ temp_path self = Path temp_dir
  /\ (bundle_dir env = None ->
      ffmpeg_path self = ffmpeg /\ mp4decrypt_path self = mp4decrypt)
  /\ (forall meipass, bundle_dir env = Some meipass ->
      exists d, resolve env (Path meipass) = Ok d
                /\ ffmpeg_path self = PathArg (d ++ ["ffmpeg"])
                /\ mp4decrypt_path self = PathArg (d ++ ["mp4decrypt"]))
  /\ audio_only self = audio.
Proof.
  unfold __init__, bind, on_fs, _fetch_mpd_master, lift, ret.
  destruct (mkdir_parents (Path temp_dir) (fs w)) as [[[]|e] f1] eqn:Hmk; [|done].
  destruct (tool_paths env ffmpeg mp4decrypt) as [[ff mp]|e] eqn:Htools; [|done].
  cbn [net fs procs sent].
  destruct (http_get_mpd env _ _ _) as [mpd|] eqn:Hget; [|done].
  intros [= <- <-]. cbn [net fs procs temp_path mpd_master ffmpeg_path mp4decrypt_path
                         audio_only fst snd].
  split; [done|]. split; [done|]. split; [by apply mkdir_parents_is_dir in Hmk|].
  split; [exact (mkdir_parents_spec _ _ _ _ Hmk)|]. split; [done|]. split; [done|].
  unfold tool_paths in Htools. split; [|split; [|done]].
  - intros Hnone. rewrite Hnone in Htools. by injection Htools as <- <-.
  - intros meipass Hsome. rewrite Hsome in Htools.
    destruct (resolve env (Path meipass)) as [d|]; [|done]. cbn [rbind] in Htools.
    destruct (joinpath_name d) as [Hf Hm]. rewrite Hf, Hm in Htools.
    injection Htools as <- <-. by exists d.
Qed.

Lemma init_prepares_workspace_example :
  let run := __init__ (env_of clearkey_answer) video_example "work/temp"
               (Str "./ffmpeg") (Str "./mp4decrypt") false world0 in
  exists self,
    fst run = Ok self
    /\ net (snd run) = [GET "https://kinescope.io/vid/master.mpd"
                          [("Referer", "https://kinescope.io")]]
    /\ fs (snd run) !! ["work"; "temp"] = Some Dir
    /\ fs (snd run) !! ["work"] = Some Dir
    /\ mpd_master self = mpd_example
    /\ ffmpeg_path self = Str "./ffmpeg".
Proof.
  intros run.
  destruct (init_prepares_workspace (env_of clearkey_answer) video_example "work/temp"
              (Str "./ffmpeg") (Str "./mp4decrypt") false world0 (snd run)
              {| kinescope_video := video_example; temp_path := ["work"; "temp"];
                 ffmpeg_path := Str "./ffmpeg"; mp4decrypt_path := Str "./mp4decrypt";
                 mpd_master := mpd_example; audio_only := false |} eq_refl)
    as (Hnet & _ & Hdir & _ & Hmpd & _ & Hgiven & _).
  eexists. split; [reflexivity|]. split; [exact Hnet|].
  split; [reflexivity|]. split; [reflexivity|]. split; [reflexivity|].
  exact (proj1 (Hgiven eq_refl)).
Defined.

(** X13: when the temporary path is an existing regular file, the
    constructor raises [FileExistsError] before it asks for the manifest:
    nothing is sent and nothing changes. *)
Theorem init_on_regular_file (env : Env) (video : KinescopeVideo) (temp_dir : string)
    (ffmpeg mp4decrypt : arg) (audio : bool) (w : world) (c : list byte) :
  Path temp_dir <> [] ->
  fs w !! Path temp_dir = Some (File c) ->
  __init__ env video temp_dir ffmpeg mp4decrypt audio w = (Raise FileExistsError, w).
Proof.
  intros Hne Hfile. unfold __init__, bind, on_fs.
  rewrite (mkdir_parents_on_file _ _ _ Hne Hfile). by destruct w.
Qed.

Lemma init_on_regular_file_example :
  __init__ (env_of clearkey_answer) video_example "temp/vid_Audio.aac"
    (Str "./ffmpeg") (Str "./mp4decrypt") false world_open
  = (Raise FileExistsError, world_open).
Proof.
  apply (init_on_regular_file _ video_example "temp/vid_Audio.aac" _ _ false world_open []).
  - discriminate.
  - reflexivity.
Defined.

(** X14: the temporary directory is not the constructor's own.  When it
    exists already, the constructor leaves it and what it holds as they
    are, and the finaliser of the object then removes all of it, what was
    there before included; nothing outside it changes. *)
Theorem finaliser_removes_reused_directory (env : Env) (video : KinescopeVideo)
    (temp_dir : string) (ffmpeg mp4decrypt : arg) (audio : bool) (w w1 : world)
    (self : VideoDownloader) :
  Path temp_dir <> [] ->
  fs w !! Path temp_dir = Some Dir ->
  __init__ env video temp_dir ffmpeg mp4decrypt audio w = (Ok self, w1) ->
  fs w1 = fs w
  /\ exists w2,
       __del__ self w1 = (Ok tt, w2)
       /\ (forall p, Path temp_dir `prefix_of` p -> fs w2 !! p = None)
       /\ (forall p, ~ Path temp_dir `prefix_of` p -> fs w2 !! p = fs w !! p).
Proof.
  intros Hne Hdir Hinit.
  destruct (init_after_mkdir _ _ _ _ _ _ _ _ _ _ (mkdir_parents_existing _ _ Hdir) Hinit)
    as (Hfs & _ & Htools).
  assert (Htemp : temp_path self = Path temp_dir).
  { destruct (tool_paths env ffmpeg mp4decrypt) as [tools|e]; [|by destruct Htools].
    destruct Htools as [_ Hself].
    destruct (http_get_mpd env _ _ _) as [mpd|]; [|done]. by injection Hself as ->. }
  split; [exact Hfs|]. rewrite <- Htemp in *. rewrite <- Hfs in Hdir.
  destruct (del_tears_down self w1 Hne Hdir) as (w2 & Hdel & Hgone & Hrest).
  exists w2. split; [exact Hdel|]. split; [exact Hgone|].
  intros p Hp. by rewrite Hrest, Hfs.
Qed.

Lemma finaliser_removes_reused_directory_example :
  let run := __init__ (env_of clearkey_answer) video_example "temp"
               (Str "./ffmpeg") (Str "./mp4decrypt") false world_open in
  fs (snd run) = fs world_open
  /\ exists w2,
       __del__ (downloader_of mpd_example false) (snd run) = (Ok tt, w2)
       /\ (forall p, ["temp"] `prefix_of` p -> fs w2 !! p = None)
       /\ (forall p, ~ ["temp"] `prefix_of` p -> fs w2 !! p = fs world_open !! p).
Proof.
  intros run.
  apply (finaliser_removes_reused_directory (env_of clearkey_answer) video_example "temp"
           (Str "./ffmpeg") (Str "./mp4decrypt") false world_open (snd run)
           (downloader_of mpd_example false)).
  - discriminate.
  - reflexivity.
  - reflexivity.
Defined.

(** * What [download] and [main] start *)

Lemma fetch_elements_length (env : Env) (self : VideoDownloader) (key : option string)
    (elements : list (list string * string * string)) :
  forall w els w',
    fetch_elements env self key elements w = (Ok els, w') -> length els = length elements.
Proof.
  induction elements as [|[[url type] sfx] rest IH]; intros w els w'; cbn [fetch_elements].
  - by intros [= <- _].
  - unfold bind, lift, ret.
    destruct (enc_path_of _) as [enc|]; [|done].
    destruct (_fetch_segments env url _ w) as [[[]|e] w2]; [|done].
    destruct (fetch_elements env self key rest w2) as [[els'|e] w3] eqn:Hrest; [|done].
    intros [= <- _]. cbn [length]. by rewrite (IH _ _ _ Hrest).
Qed.

Lemma decrypt_elements_procs (env : Env) (self : VideoDownloader) (key : string)
    (els : list element) :
  forall w r w',
    decrypt_elements env self key els w = (r, w') ->
    exists decrypts,
      procs w' = procs w ++ decrypts
      /\ Forall (fun args => exists source target key,
                   args = decrypt_command self source target key) decrypts
      /\ (length decrypts <= length els)%nat.
Proof.
  induction els as [|el rest IH]; intros w r w'; cbn [decrypt_elements].
  - intros [= _ <-]. exists []. by rewrite app_nil_r.
  - unfold bind, _decrypt_video, try_except, Popen.
    fold (decrypt_command self (el_enc_path el) (el_tmp_path el) key).
    destruct (popen env _ (fs w)) as [f|].
    + intros Hrest. destruct (IH _ _ _ Hrest) as (ds & Hprocs & Hall & Hlen).
      exists (decrypt_command self (el_enc_path el) (el_tmp_path el) key :: ds).
      cbn [procs started] in Hprocs. rewrite Hprocs, <- app_assoc. split; [done|].
      split; [|cbn [length]; lia]. constructor; [|done]. by eexists _, _, _.
    + intros [= _ <-]. exists []. rewrite app_nil_r. split; [done|]. split; [done|].
      cbn [length]. lia.
Qed.

(** Whatever happens to a download, it starts nothing but its two tools. *)
Lemma download_tool_runs (env : Env) (self : VideoDownloader) (filepath : string)
    (res : option resolution) (w w' : world) (r : result unit) :
  download env self filepath res w = (r, w') ->
  exists started, procs w' = procs w ++ started /\ tool_runs self started.
Proof.
  assert (Hnothing : forall w', procs w' = procs w ->
            exists started, procs w' = procs w ++ started /\ tool_runs self started).
  { intros w0 H0. exists []. rewrite app_nil_r. split; [done|].
    exists [], []. split; [done|]. split; [done|]. split; [cbn; lia | by left]. }
  unfold download, bind, lift.
  destruct (chosen_resolution self res) as [r0|]; [|by intros [= _ <-]; apply Hnothing].
  destruct (_get_license_key env self w) as [[key|e] w1] eqn:Hkey;
    destruct (license_key_same_files env self w _ w1 Hkey) as [_ Hp1];
    [|by intros [= _ <-]; apply Hnothing].
  destruct (d <~ _get_segments_urls (mpd_master self) r0 ;; dict_getitem d "audio/mp4")
    as [audio|]; [|by intros [= _ <-]; apply Hnothing].
  destruct (d <~ _get_segments_urls (mpd_master self) r0 ;; dict_getitem d "video/mp4")
    as [video|]; [|by intros [= _ <-]; apply Hnothing].
  set (elements := if audio_only self then _ else _).
  assert (Hlen : (length elements <= 2)%nat) by (subst elements; destruct (audio_only self); cbn; lia).
  destruct (fetch_elements env self key elements w1) as [[els|e] w2] eqn:Hfetch;
    pose proof (fetch_elements_same_procs _ _ _ _ _ _ _ Hfetch) as Hp2;
    unfold same_procs in Hp2; [|intros [= _ <-]; apply Hnothing; congruence].
  apply fetch_elements_length in Hfetch.
  set (decrypting := match key with Some k => _ | None => _ end).
  assert (Hdecrypting : forall r3 w3, decrypting w2 = (r3, w3) ->
            exists decrypts,
              procs w3 = procs w ++ decrypts
              /\ Forall (fun args => exists source target key,
                           args = decrypt_command self source target key) decrypts
              /\ (length decrypts <= 2)%nat).
  { intros r3 w3. subst decrypting.
    assert (Hret : ret tt w2 = (r3, w3) ->
              exists decrypts,
                procs w3 = procs w ++ decrypts
                /\ Forall (fun args => exists source target key,
                             args = decrypt_command self source target key) decrypts
                /\ (length decrypts <= 2)%nat).
    { intros [= _ <-]. exists []. rewrite app_nil_r. split; [congruence|].
      split; [done|]. cbn; lia. }
    destruct key as [k|]; [|exact Hret]. destruct (truthy_str (Some k)); [|exact Hret].
    intros Hdec. destruct (decrypt_elements_procs _ _ _ _ _ _ _ Hdec) as (ds & Hp & Hall & Hl).
    exists ds. split; [congruence|]. split; [done|]. lia. }
  destruct (decrypting w2) as [[[]|e] w3] eqn:Hdec;
    destruct (Hdecrypting _ _ eq_refl) as (ds & Hp3 & Hall & Hl).
  2:{ intros [= _ <-]. exists ds. split; [done|]. exists ds, []. rewrite app_nil_r.
      split; [done|]. split; [done|]. split; [done | by left]. }
  assert (Hdone : forall w', procs w' = procs w3 ->
            exists started, procs w' = procs w ++ started /\ tool_runs self started).
  { intros w0 H0. exists ds. split; [congruence|]. exists ds, []. rewrite app_nil_r.
    split; [done|]. split; [done|]. split; [done | by left]. }
  cbn [ret].
  destruct (subscript els (length els - 1)) as [last_el|]; [|by intros [= _ <-]; apply Hdone].
  destruct (with_suffix (Path filepath) (el_suffix last_el)) as [out|];
    [|by intros [= _ <-]; apply Hdone].
  destruct (on_fs (mkdir_parents (parent out)) w3) as [[[]|e] w4] eqn:Hmk;
    pose proof (same_procs_on_fs _ _ _ _ Hmk) as Hp4; unfold same_procs in Hp4;
    [|intros [= _ <-]; by apply Hdone].
  destruct (negb (audio_only self)).
  - unfold _merge_tracks, try_except, Popen.
    fold (ffmpeg_command self (map el_tmp_path els) out).
    destruct (popen env _ (fs w4)) as [f|].
    + intros [= _ <-]. cbn [procs started].
      exists (ds ++ [ffmpeg_command self (map el_tmp_path els) out]).
      split; [by rewrite Hp4, Hp3, app_assoc|].
      exists ds, [ffmpeg_command self (map el_tmp_path els) out].
      split; [done|]. split; [done|]. split; [done|]. right. by eexists _, _.
    + intros [= _ <-]. by apply Hdone.
  - destruct (subscript els 0) as [first_el|]; [|intros [= _ <-]; by apply Hdone].
    intros Hmove. apply same_procs_on_fs in Hmove. unfold same_procs in Hmove.
    apply Hdone. congruence.
Qed.

(** X15: whatever its arguments and whatever the servers and the tools
    do, a run of [download], completed or not, starts nothing but the
    decryption tool, at most twice, followed by [ffmpeg], at most once. *)
Theorem download_starts_only_its_tools (env : Env) (self : VideoDownloader)
    (filepath : string) (res : option resolution) (w : world) :
  exists started,
    procs (snd (download env self filepath res w)) = procs w ++ started
    /\ tool_runs self started.
Proof.
  apply (download_tool_runs env self filepath res w _ (fst (download env self filepath res w))).
  apply surjective_pairing.
Qed.

Lemma init_procs (env : Env) (video : KinescopeVideo) (temp_dir : string)
    (ffmpeg mp4decrypt : arg) (audio : bool) (w w' : world) (r : result VideoDownloader) :
  __init__ env video temp_dir ffmpeg mp4decrypt audio w = (r, w') ->
  procs w' = procs w
  /\ forall self, r = Ok self ->
       tool_paths env ffmpeg mp4decrypt = Ok (ffmpeg_path self, mp4decrypt_path self).
Proof.
  unfold __init__, bind, on_fs, _fetch_mpd_master, lift, ret.
  destruct (mkdir_parents (Path temp_dir) (fs w)) as [[[]|e] f1].
  - destruct (tool_paths env ffmpeg mp4decrypt) as [[ff mp]|e].
    + cbn [net fs procs sent]. destruct (http_get_mpd env _ _ _) as [mpd|].
      * intros [= <- <-]. split; [done|]. by intros self [= <-].
      * by intros [= <- <-].
    + by intros [= <- <-].
  - by intros [= <- <-].
Qed.

Lemma tool_runs_programs (self : VideoDownloader) (started : list (list arg)) :
  tool_runs self started ->
  Forall (fun args => runs (ffmpeg_path self) args \/ runs (mp4decrypt_path self) args) started.
Proof.
  intros (ds & ms & -> & Hds & _ & Hms). apply Forall_app. split.
  - eapply Forall_impl; [exact Hds|]. intros args (s & t & k & ->). right. by eexists.
  - destruct Hms as [-> | (srcs & out & ->)]; [done|]. constructor; [|done]. left. by eexists.
Qed.

(** X16: the tools [main] may start are, in a bundled program
    ([sys.frozen] with [sys._MEIPASS]), [ffmpeg] and [mp4decrypt] in the
    resolved bundle directory, and otherwise the ones named by the
    environment variables [FFMPEG_PATH] and [MP4DECRYPT_PATH], or
    [./ffmpeg] and [./mp4decrypt] when these are not set; the values of
    the options [--ffmpeg-path] and [--mp4decrypt-path] play no part. *)
Theorem main_runs_environment_tools (env : Env) (console : Console)
    (referer : option string) (best_quality audio : bool)
    (temp input_url output_file ffmpeg_option mp4decrypt_option : string) (w : world) :
  exists started,
    procs (snd (main env console referer best_quality audio temp input_url output_file
                  ffmpeg_option mp4decrypt_option w))
    = procs w ++ started
    /\ match bundle_dir env with
       | None =>
           Forall (fun args =>
                     runs (Str (default "./ffmpeg" (environ console "FFMPEG_PATH"))) args
                     \/ runs (Str (default "./mp4decrypt"
                                     (environ console "MP4DECRYPT_PATH"))) args)
             started
       | Some meipass =>
           match resolve env (Path meipass) with
           | Ok d =>
               Forall (fun args =>
                         runs (PathArg (d ++ ["ffmpeg"])) args
                         \/ runs (PathArg (d ++ ["mp4decrypt"])) args)
                 started
           | Raise _ => started = []
           end
       end.
Proof.
  set (allowed := fun started : list (list arg) =>
         match bundle_dir env with
         | None =>
             Forall (fun args =>
                       runs (Str (default "./ffmpeg" (environ console "FFMPEG_PATH"))) args
                       \/ runs (Str (default "./mp4decrypt"
                                       (environ console "MP4DECRYPT_PATH"))) args)
               started
         | Some meipass =>
             match resolve env (Path meipass) with
             | Ok d =>
                 Forall (fun args =>
                           runs (PathArg (d ++ ["ffmpeg"])) args
                           \/ runs (PathArg (d ++ ["mp4decrypt"])) args)
                   started
             | Raise _ => started = []
             end
         end).
  change (exists started,
            procs (snd (main env console referer best_quality audio temp input_url
                          output_file ffmpeg_option mp4decrypt_option w))
            = procs w ++ started
            /\ allowed started).
  assert (Hnothing : forall w', procs w' = procs w ->
            exists started, procs w' = procs w ++ started /\ allowed started).
  { intros w0 H0. exists []. rewrite app_nil_r. split; [done|]. unfold allowed.
    destruct (bundle_dir env); [|done]. by destruct (resolve env _). }
  unfold main, bind, lift.
  destruct (new_video console input_url referer) as [video|]; [|by apply Hnothing].
  destruct (__init__ env video temp _ _ audio w) as [[self|e] w1] eqn:Hinit;
    destruct (init_procs _ _ _ _ _ _ _ _ _ Hinit) as [Hp1 Hself];
    [|by apply Hnothing].
  specialize (Hself self eq_refl).
  destruct (get_resolutions (mpd_master self)) as [video_resolutions|];
    [|by apply Hnothing].
  set (asking := if audio || best_quality then _ else _).
  assert (Hasking : procs (snd (asking w1)) = procs w1).
  { subst asking. destruct (audio || best_quality); [done|]. unfold bind, lift, ret.
    destruct (iter video_resolutions); [|done]. by destruct (read_quality console). }
  destruct (asking w1) as [[res_index|e] w2]; cbn [snd] in Hasking;
    [|apply Hnothing; cbn [snd]; congruence].
  destruct (l <~ iter video_resolutions ;; pyindex l res_index) as [chosen|];
    [|apply Hnothing; cbn [snd]; congruence].
  set (target := match output_file with EmptyString => _ | _ => _ end).
  destruct (download_tool_runs env self target (Some chosen) w2 _ _
              (surjective_pairing _)) as (started & Hstarted & Htools).
  exists started. split; [congruence|].
  apply tool_runs_programs in Htools. unfold allowed, tool_paths in *.
  destruct (bundle_dir env) as [meipass|].
  - destruct (resolve env (Path meipass)) as [d|]; [|done]. cbn [rbind] in Hself.
    destruct (joinpath_name d) as [Hf Hm]. rewrite Hf, Hm in Hself.
    injection Hself as Hff Hmp. by rewrite <- Hff, <- Hmp in Htools.
  - injection Hself as Hff Hmp. by rewrite <- Hff, <- Hmp in Htools.
Qed.

Lemma main_runs_environment_tools_example :
  exists started,
    procs (snd (main env_bundled (console_of 1) None true true "temp" "url" "out/o.mp4"
                  "/opt/ffmpeg" "/opt/mp4decrypt" world0))
    = procs world0 ++ started
    /\ Forall (fun args =>
                 runs (PathArg ["/"; "tmp"; "_MEI1"; "ffmpeg"]) args
                 \/ runs (PathArg ["/"; "tmp"; "_MEI1"; "mp4decrypt"]) args)
         started.
Proof.
  exact (main_runs_environment_tools env_bundled (console_of 1) None true true "temp" "url"
           "out/o.mp4" "/opt/ffmpeg" "/opt/mp4decrypt" world0).
Defined.

(** * The quality [main] selects *)

Lemma pyindex_snoc {A} (l : list A) (x : A) (i : Z) :
  (i = Z.of_nat (length l) \/ i = -1)%Z -> pyindex (l ++ [x]) i = Ok x.
Proof.
  intros Hi. unfold pyindex. rewrite length_app. cbn [length].
  assert (Hj : (if (i <? 0)%Z then (i + Z.of_nat (length l + 1))%Z else i)
               = Z.of_nat (length l)).
  { destruct (Z.ltb_spec i 0); lia. }
  rewrite Hj.
  replace ((Z.of_nat (length l) <? 0)%Z) with false by (symmetry; apply Z.ltb_ge; lia).
  replace ((Z.of_nat (length l + 1) <=? Z.of_nat (length l))%Z) with false
    by (symmetry; apply Z.leb_gt; lia).
  cbn [orb]. rewrite Nat2Z.id. unfold subscript.
  rewrite nth_error_app2 by lia. by rewrite Nat.sub_diag.
Qed.

Lemma pyindex_last {A} (l : list A) :
  pyindex l (-1)
  = match List.last (map Some l) None with
    | Some r => Ok r
    | None => Raise IndexError
    end.
Proof.
  destruct l as [|y l'] using rev_ind; [done|].
  rewrite pyindex_snoc by (by right). rewrite map_app. cbn [map]. by rewrite last_last.
Qed.

Lemma bind_run {A B} (c : M A) (k : A -> M B) (w w' : world) (a : A) :
  c w = (Ok a, w') -> bind c k w = k a w'.
Proof. unfold bind. by intros ->. Qed.

Lemma bind_run_raise {A B} (c : M A) (k : A -> M B) (w w' : world) (e : exn) :
  c w = (Raise e, w') -> bind c k w = (Raise e, w').
Proof. unfold bind. by intros ->. Qed.

Lemma download_default (env : Env) (self : VideoDownloader) (filepath : string) (w : world) :
  download env self filepath None w
  = bind (lift (chosen_resolution self None))
      (fun r => download env self filepath (Some r)) w.
Proof.
  unfold download at 1. unfold bind at 1. unfold bind at 8. unfold lift at 1, lift at 5.
  by destruct (chosen_resolution self None).
Qed.

(** X17: with [--best-quality] or [--audio-only], and also when the user
    answers [0] to the quality prompt, [main] downloads exactly as
    [download] does without a resolution: the index is [-1], the last entry
    of [get_resolutions]. *)
Theorem main_default_quality (env : Env) (console : Console) (referer : option string)
    (best_quality audio : bool)
    (temp input_url output_file ffmpeg_option mp4decrypt_option : string)
    (video : KinescopeVideo) (self : VideoDownloader) (w w1 : world) :
  new_video console input_url referer = Ok video ->
  main_downloader env console video temp audio w = (Ok self, w1) ->
  audio || best_quality = true \/ read_quality console = Ok 0%Z ->
  main env console referer best_quality audio temp input_url output_file
    ffmpeg_option mp4decrypt_option w
  = download env self (output_name video output_file) None w1.
Proof.
  intros Hvideo Hinit Hdefault. unfold main_downloader in Hinit.
  rewrite download_default. fold (output_name video output_file).
  unfold main. rewrite (bind_run _ _ w w video) by (unfold lift; by rewrite Hvideo).
  rewrite (bind_run _ _ _ _ _ Hinit). unfold chosen_resolution.
  destruct (get_resolutions (mpd_master self)) as [[l|]|e]; cbn [rbind last_resolution].
  - rewrite (bind_run _ _ w1 w1 (Some l)) by done.
    rewrite (bind_run _ _ w1 w1 (-1)%Z).
    + cbn [iter rbind]. by rewrite pyindex_last.
    + destruct Hdefault as [-> | Hzero]; [done|].
      destruct (audio || best_quality); [done|].
      unfold bind, lift, ret. by rewrite Hzero.
  - rewrite (bind_run _ _ w1 w1 None) by done.
    destruct (audio || best_quality).
    + rewrite (bind_run _ _ w1 w1 (-1)%Z) by done.
      by rewrite (bind_run_raise _ _ w1 w1 TypeError).
    + by rewrite (bind_run_raise _ _ w1 w1 TypeError).
  - done.
Qed.

Lemma main_default_quality_example :
  main (env_of clearkey_answer) (console_of 0) None false false "temp" "url" "out/o.mp4"
    "/opt/ffmpeg" "/opt/mp4decrypt" world0
  = download (env_of clearkey_answer) (downloader_of mpd_example false) "out/o.mp4" None
      (sent (GET "https://kinescope.io/vid/master.mpd" [("Referer", "https://kinescope.io")])
         world0).
Proof.
  apply (main_default_quality (env_of clearkey_answer) (console_of 0) None false false
           "temp" "url" "out/o.mp4" "/opt/ffmpeg" "/opt/mp4decrypt" video_example
           (downloader_of mpd_example false) world0 _ eq_refl eq_refl).
  by right.
Defined.

(** X18: otherwise the answer [k] to the prompt is an index into
    [get_resolutions], counted from 1: with [n] entries, an answer from 1
    to [n] selects the [k]-th entry, an answer from [1 - n] to 0 selects
    the entry [n + k], counted from the end, and any other answer raises
    [IndexError] after the constructor has run and before anything is
    downloaded. *)
Theorem main_quality_answer (env : Env) (console : Console) (referer : option string)
    (temp input_url output_file ffmpeg_option mp4decrypt_option : string)
    (video : KinescopeVideo) (self : VideoDownloader) (w w1 : world)
    (l : list resolution) (k : Z) :
  new_video console input_url referer = Ok video ->
  main_downloader env console video temp false w = (Ok self, w1) ->
  get_resolutions (mpd_master self) = Ok (Some l) ->
  read_quality console = Ok k ->
  let n := Z.of_nat (length l) in
  let run := main env console referer false false temp input_url output_file
               ffmpeg_option mp4decrypt_option w in
  ((1 <= k <= n)%Z ->
   exists r, nth_error l (Z.to_nat (k - 1)) = Some r
             /\ run = download env self (output_name video output_file) (Some r) w1)
  /\ ((1 - n <= k <= 0)%Z ->
      exists r, nth_error l (Z.to_nat (n + k - 1)) = Some r
                /\ run = download env self (output_name video output_file) (Some r) w1)
  /\ ((k < 1 - n \/ n < k)%Z -> run = (Raise IndexError, w1)).
Proof.
  intros Hvideo Hinit Hl Hk n run. unfold main_downloader in Hinit.
  assert (Hrun : run = bind (lift (pyindex l (k - 1)))
                         (fun r => download env self (output_name video output_file) (Some r))
                         w1).
  { subst run. unfold main. rewrite (bind_run _ _ w w video) by (unfold lift; by rewrite Hvideo).
    rewrite (bind_run _ _ _ _ _ Hinit).
    rewrite (bind_run _ _ w1 w1 (Some l)) by (unfold lift; by rewrite Hl).
    rewrite (bind_run _ _ w1 w1 (k - 1)%Z); [done|].
    cbn [orb]. unfold bind, lift, ret. cbn [iter]. by rewrite Hk. }
  rewrite Hrun. unfold bind, lift, pyindex. fold n. clear Hrun.
  split; [|split].
  - intros Hrange.
    replace ((k - 1 <? 0)%Z) with false by (symmetry; apply Z.ltb_ge; lia).
    replace ((k - 1 <? 0)%Z || (n <=? k - 1)%Z) with false
      by (symmetry; apply orb_false_intro; [apply Z.ltb_ge | apply Z.leb_gt]; lia).
    unfold subscript.
    destruct (nth_error l (Z.to_nat (k - 1))) as [r|] eqn:Hnth; [by exists r|].
    apply nth_error_None in Hnth. lia.
  - intros Hrange.
    replace ((k - 1 <? 0)%Z) with true by (symmetry; apply Z.ltb_lt; lia).
    replace ((k - 1 + n <? 0)%Z || (n <=? k - 1 + n)%Z) with false
      by (symmetry; apply orb_false_intro; [apply Z.ltb_ge | apply Z.leb_gt]; lia).
    replace (k - 1 + n)%Z with (n + k - 1)%Z by lia.
    unfold subscript.
    destruct (nth_error l (Z.to_nat (n + k - 1))) as [r|] eqn:Hnth; [by exists r|].
    apply nth_error_None in Hnth. lia.
  - intros Hout.
    destruct (Z.ltb_spec (k - 1) 0) as [Hneg|Hpos].
    + replace ((k - 1 + n <? 0)%Z) with true by (symmetry; apply Z.ltb_lt; lia). done.
    + replace ((k - 1 <? 0)%Z || (n <=? k - 1)%Z) with true; [done|].
      symmetry. apply orb_true_iff. right. apply Z.leb_le. lia.
Qed.

Lemma main_quality_answer_example :
  let env := env_of clearkey_answer in
  let w1 := sent (GET "https://kinescope.io/vid/master.mpd"
                    [("Referer", "https://kinescope.io")]) world0 in
  let run k := main env (console_of k) None false false "temp" "url" "out/o.mp4"
                 "/opt/ffmpeg" "/opt/mp4decrypt" world0 in
  run 1%Z = download env (downloader_of mpd_example false) "out/o.mp4"
              (Some (Some 640%Z, Some 360%Z)) w1
  /\ run (-1)%Z = download env (downloader_of mpd_example false) "out/o.mp4"
                    (Some (Some 640%Z, Some 360%Z)) w1
  /\ run 3%Z = (Raise IndexError, w1).
Proof.
  intros env w1 run.
  assert (Hat : forall k,
            let n := 2%Z in
            ((1 <= k <= n)%Z ->
             exists r, nth_error [(Some 640%Z, Some 360%Z); (Some 1280%Z, Some 720%Z)]
                         (Z.to_nat (k - 1)) = Some r
                       /\ run k = download env (downloader_of mpd_example false)
                                    "out/o.mp4" (Some r) w1)
            /\ ((1 - n <= k <= 0)%Z ->
                exists r, nth_error [(Some 640%Z, Some 360%Z); (Some 1280%Z, Some 720%Z)]
                            (Z.to_nat (n + k - 1)) = Some r
                          /\ run k = download env (downloader_of mpd_example false)
                                       "out/o.mp4" (Some r) w1)
            /\ ((k < 1 - n \/ n < k)%Z -> run k = (Raise IndexError, w1))).
  { intros k.
    exact (main_quality_answer env (console_of k) None "temp" "url" "out/o.mp4"
             "/opt/ffmpeg" "/opt/mp4decrypt" video_example
             (downloader_of mpd_example false) world0 w1
             [(Some 640%Z, Some 360%Z); (Some 1280%Z, Some 720%Z)] k
             eq_refl eq_refl eq_refl eq_refl). }
  split; [|split].
  - destruct (proj1 (Hat 1%Z)) as (r & Hr & Hrun); [lia|]. by injection Hr as <-.
  - destruct (proj1 (proj2 (Hat (-1)%Z))) as (r & Hr & Hrun); [lia|]. by injection Hr as <-.
  - apply (proj2 (proj2 (Hat 3%Z))). lia.
Defined.

(** X19: when no adaptation set of the first period has a height, [main]
    raises [TypeError] once the constructor has run, in every mode and
    before the user is asked anything: [get_resolutions] has returned
    [None]. *)
Theorem main_without_video_set (env : Env) (console : Console) (referer : option string)
    (best_quality audio : bool)
    (temp input_url output_file ffmpeg_option mp4decrypt_option : string)
    (video : KinescopeVideo) (self : VideoDownloader) (w w1 : world)
    (p : Period) (ps : list Period) (sets : list AdaptationSet) :
  new_video console input_url referer = Ok video ->
  main_downloader env console video temp audio w = (Ok self, w1) ->
  periods (mpd_master self) = Some (p :: ps) ->
  adaptation_sets p = Some sets ->
  Forall lacks_height sets ->
  main env console referer best_quality audio temp input_url output_file
    ffmpeg_option mp4decrypt_option w
  = (Raise TypeError, w1).
Proof.
  intros Hvideo Hinit Hp Hsets Hlack. unfold main_downloader in Hinit.
  assert (Hres : get_resolutions (mpd_master self) = Ok None).
  { unfold get_resolutions. rewrite Hp. simpl. rewrite Hsets. simpl.
    rewrite <- (app_nil_r sets). by rewrite get_resolutions_loop_skip. }
  unfold main. rewrite (bind_run _ _ w w video) by (unfold lift; by rewrite Hvideo).
  rewrite (bind_run _ _ _ _ _ Hinit).
  rewrite (bind_run _ _ w1 w1 None) by (unfold lift; by rewrite Hres).
  destruct (audio || best_quality).
  - rewrite (bind_run _ _ w1 w1 (-1)%Z) by done.
    by rewrite (bind_run_raise _ _ w1 w1 TypeError).
  - by rewrite (bind_run_raise _ _ w1 w1 TypeError).
Qed.

Lemma main_without_video_set_example :
  main (env_serving mpd_audio_only) (console_of 1) None false true "temp" "url" "out/o.mp4"
    "/opt/ffmpeg" "/opt/mp4decrypt" world0
  = (Raise TypeError,
     sent (GET "https://kinescope.io/vid/master.mpd" [("Referer", "https://kinescope.io")])
       world0).
Proof.
  apply (main_without_video_set (env_serving mpd_audio_only) (console_of 1) None false true
           "temp" "url" "out/o.mp4" "/opt/ffmpeg" "/opt/mp4decrypt" video_example
           (downloader_of mpd_audio_only true) world0 _
           {| adaptation_sets := Some [audio_set] |} [] [audio_set]
           eq_refl eq_refl eq_refl eq_refl).
  constructor; [exact audio_set_lacks_height | constructor].
Defined.

(** * What [download] asks of the manifest and of the output path *)

Lemma get_segments_urls_missing_type (mpd : MPEGDASH) (res : resolution) (p : Period)
    (ps : list Period) (sets : list AdaptationSet) (type : string) :
  periods mpd = Some (p :: ps) ->
  adaptation_sets p = Some sets ->
  Forall (served res) sets ->
  Forall (fun a => mime_type a <> Some type) sets ->
  (d <~ _get_segments_urls mpd res ;; dict_getitem d type) = Raise KeyError.
Proof.
  intros Hp Hsets Hserved Hmissing.
  destruct (get_segments_urls_loop_served res sets ∅ Hserved) as [d Hd].
  pose proof (get_segments_urls_loop_other _ _ _ _ _ Hd Hmissing) as Hnone.
  unfold _get_segments_urls. rewrite Hp. cbn [subscript0 rbind].
  rewrite Hsets. cbn [iter rbind]. rewrite Hd. cbn [rbind].
  unfold dict_getitem. by rewrite Hnone, lookup_empty.
Qed.

(** X20: [download] subscripts the segment URLs with both ["audio/mp4"]
    and ["video/mp4"] before it looks at [audio_only].  When the first
    period has no adaptation set of one of these two MIME types, it raises
    [KeyError] right after the licence exchange, in audio-only mode too:
    no segment is requested and no file is written. *)
Theorem download_needs_both_tracks (env : Env) (self : VideoDownloader) (filepath : string)
    (res : option resolution) (w w1 : world) (r : resolution) (key : option string)
    (p : Period) (ps : list Period) (sets : list AdaptationSet) :
  chosen_resolution self res = Ok r ->
  _get_license_key env self w = (Ok key, w1) ->
  periods (mpd_master self) = Some (p :: ps) ->
  adaptation_sets p = Some sets ->
  Forall (served r) sets ->
  Forall (fun a => mime_type a <> Some "audio/mp4") sets
  \/ Forall (fun a => mime_type a <> Some "video/mp4") sets ->
  download env self filepath res w = (Raise KeyError, w1).
Proof.
  intros Hres Hkey Hp Hsets Hserved Hmissing.
  unfold download. rewrite (bind_run _ _ w w r) by (unfold lift; by rewrite Hres).
  rewrite (bind_run _ _ _ _ _ Hkey).
  destruct Hmissing as [Haudio | Hvideo].
  - apply bind_run_raise. unfold lift.
    by rewrite (get_segments_urls_missing_type _ _ _ _ _ "audio/mp4" Hp Hsets Hserved Haudio).
  - destruct (d <~ _get_segments_urls (mpd_master self) r ;; dict_getitem d "audio/mp4")
      as [audio|e] eqn:Ha.
    + rewrite (bind_run _ _ w1 w1 audio) by done.
      apply bind_run_raise. unfold lift.
      by rewrite (get_segments_urls_missing_type _ _ _ _ _ "video/mp4" Hp Hsets Hserved Hvideo).
    + apply bind_run_raise. unfold lift. f_equal. f_equal.
      destruct (get_segments_urls_loop_served r sets ∅ Hserved) as [d Hd].
      unfold _get_segments_urls in Ha. rewrite Hp in Ha. cbn [subscript0 rbind] in Ha.
      rewrite Hsets in Ha. cbn [iter rbind] in Ha. rewrite Hd in Ha. cbn [rbind] in Ha.
      unfold dict_getitem in Ha. destruct (d !! Some "audio/mp4"); congruence.
Qed.

Lemma download_needs_both_tracks_example :
  download (env_of clearkey_answer) (downloader_of mpd_audio_only true) "out/o.aac"
    (Some (Some 1280%Z, Some 720%Z)) world0
  = (Raise KeyError, world0).
Proof.
  apply (download_needs_both_tracks (env_of clearkey_answer)
           (downloader_of mpd_audio_only true) "out/o.aac" (Some (Some 1280%Z, Some 720%Z))
           world0 world0 (Some 1280%Z, Some 720%Z) None
           {| adaptation_sets := Some [audio_set] |} [] [audio_set]
           eq_refl eq_refl eq_refl eq_refl).
  - constructor; [|constructor]. apply plain_track_served, audio_set_plain_track.
  - right. by repeat constructor.
Defined.

Lemma with_suffix_empty_name (p : path) (sfx : string) :
  name p = "" -> with_suffix p sfx = Raise ValueError.
Proof. intros Hname. unfold with_suffix. rewrite Hname. by destruct (valid_suffix sfx). Qed.

(** X21: an output path without a file name (the current directory, or
    the root) is refused by [with_suffix], which [download] only calls
    after the fetches and the decryption: such a download never completes,
    and all it may have started by then is the decryption tool, never
    [ffmpeg]. *)
Theorem download_to_directory_fails (env : Env) (self : VideoDownloader) (filepath : string)
    (res : option resolution) (w : world) :
  name (Path filepath) = "" ->
  exists e decrypts,
    fst (download env self filepath res w) = Raise e
    /\ procs (snd (download env self filepath res w)) = procs w ++ decrypts
    /\ Forall (fun args => exists source target key,
                 args = decrypt_command self source target key) decrypts.
Proof.
  intros Hname.
  assert (Hnothing : forall e w', procs w' = procs w ->
            exists e0 decrypts,
              fst (@Raise unit e, w') = Raise e0
              /\ procs (snd (@Raise unit e, w')) = procs w ++ decrypts
              /\ Forall (fun args => exists source target key,
                           args = decrypt_command self source target key) decrypts).
  { intros e w0 H0. exists e, []. by rewrite app_nil_r. }
  unfold download, bind, lift.
  destruct (chosen_resolution self res) as [r0|]; [|by apply Hnothing].
  destruct (_get_license_key env self w) as [[key|e] w1] eqn:Hkey;
    destruct (license_key_same_files env self w _ w1 Hkey) as [_ Hp1];
    [|by apply Hnothing].
  destruct (d <~ _get_segments_urls (mpd_master self) r0 ;; dict_getitem d "audio/mp4")
    as [audio|]; [|by apply Hnothing].
  destruct (d <~ _get_segments_urls (mpd_master self) r0 ;; dict_getitem d "video/mp4")
    as [video|]; [|by apply Hnothing].
  set (elements := if audio_only self then _ else _).
  destruct (fetch_elements env self key elements w1) as [[els|e] w2] eqn:Hfetch;
    pose proof (fetch_elements_same_procs _ _ _ _ _ _ _ Hfetch) as Hp2;
    unfold same_procs in Hp2; [|apply Hnothing; congruence].
  set (decrypting := match key with Some k => _ | None => _ end).
  assert (Hdecrypting : forall r3 w3, decrypting w2 = (r3, w3) ->
            exists decrypts,
              procs w3 = procs w ++ decrypts
              /\ Forall (fun args => exists source target key,
                           args = decrypt_command self source target key) decrypts).
  { intros r3 w3. subst decrypting.
    assert (Hret : ret tt w2 = (r3, w3) ->
              exists decrypts,
                procs w3 = procs w ++ decrypts
                /\ Forall (fun args => exists source target key,
                             args = decrypt_command self source target key) decrypts).
    { intros [= _ <-]. exists []. rewrite app_nil_r. split; [congruence | done]. }
    destruct key as [k|]; [|exact Hret]. destruct (truthy_str (Some k)); [|exact Hret].
    intros Hdec. destruct (decrypt_elements_procs _ _ _ _ _ _ _ Hdec) as (ds & Hp & Hall & _).
    exists ds. split; [congruence | done]. }
  destruct (decrypting w2) as [[[]|e] w3] eqn:Hdec;
    destruct (Hdecrypting _ _ eq_refl) as (ds & Hp3 & Hall).
  2:{ by exists e, ds. }
  cbn [ret].
  destruct (subscript els (length els - 1)) as [last_el|]; [|by eexists _, ds].
  rewrite (with_suffix_empty_name _ _ Hname). by exists ValueError, ds.
Qed.

Lemma download_to_directory_example :
  exists e decrypts,
    fst (download (env_of clearkey_answer) (downloader_of mpd_example false) "." None world0)
    = Raise e
    /\ procs (snd (download (env_of clearkey_answer) (downloader_of mpd_example false) "."
                     None world0))
       = procs world0 ++ decrypts
    /\ Forall (fun args => exists source target key,
                 args = decrypt_command (downloader_of mpd_example false) source target key)
         decrypts.
Proof.
  apply (download_to_directory_fails (env_of clearkey_answer)
           (downloader_of mpd_example false) "." None world0 eq_refl).
Defined.

(** * The requests of a download *)

Lemma same_net_trans (w1 w2 w3 : world) : same_net w1 w2 -> same_net w2 w3 -> same_net w1 w3.
Proof. unfold same_net. congruence. Qed.

Lemma same_net_on_fs (op : filesystem -> result unit * filesystem) :
  respects same_net (on_fs op).
Proof. intros w r w'. unfold on_fs. destruct (op (fs w)). by intros [= <- <-]. Qed.

Lemma same_net_Popen (env : Env) (args : list arg) (h : M unit) :
  respects same_net h ->
  respects same_net (try_except (Popen env args) is_FileNotFoundError h).
Proof.
  intros Hh w r w'. unfold try_except, Popen.
  destruct (popen env args (fs w)); [by intros [= <- <-]|]. apply Hh.
Qed.

Lemma same_net_decrypt_elements (env : Env) (self : VideoDownloader) (key : string)
    (els : list element) :
  respects same_net (decrypt_elements env self key els).
Proof.
  induction els as [|el rest IH]; cbn [decrypt_elements].
  - by intros w r w' [= _ <-].
  - apply respects_bind; [apply same_net_trans | | by intros _].
    apply same_net_Popen. by intros w r w' [= _ <-].
Qed.

Lemma fetch_elements_requests (env : Env) (self : VideoDownloader) (key : option string)
    (elements : list (list string * string * string)) :
  forall w els w',
    fetch_elements env self key elements w = (Ok els, w') ->
    exists new,
      net w' = net w ++ new
      /\ map fst (downloads env (net w) new) = urls_to_fetch elements.
Proof.
  induction elements as [|[[url type] sfx] rest IH]; intros w els w'; cbn [fetch_elements].
  - intros [= _ <-]. exists []. by rewrite app_nil_r.
  - unfold bind, lift, ret.
    destruct (enc_path_of _) as [enc|]; [|done].
    destruct (_fetch_segments env url _ w) as [[[]|e] w2] eqn:Hfetch; [|done].
    destruct (fetch_elements env self key rest w2) as [[els'|e] w3] eqn:Hrest; [|done].
    intros [= _ <-].
    destruct (fetch_segments_ok _ _ _ _ _ Hfetch) as (new1 & Hnet1 & _ & Hurls1 & _).
    destruct (IH _ _ _ Hrest) as (new2 & Hnet2 & Hurls2).
    exists (new1 ++ new2). split; [by rewrite Hnet2, Hnet1, app_assoc|].
    rewrite downloads_app, map_app, Hurls1. rewrite <- Hnet1, Hurls2. done.
Qed.

(** X22: the requests of a completed download after the licence
    exchange are those of the audio track and then, unless the download
    is audio-only, those of the video track.  Among the answered ones each
    distinct URL of a track appears once, in manifest order; a URL that
    both tracks list is fetched for each of them. *)
Theorem download_fetches_track_by_track (env : Env) (self : VideoDownloader)
    (filepath : string) (res : option resolution) (w w' w1 : world) (r : resolution)
    (key : option string) (d : gmap (option string) (list string))
    (audio_urls video_urls : list string) :
  download env self filepath res w = (Ok tt, w') ->
  chosen_resolution self res = Ok r ->
  _get_license_key env self w = (Ok key, w1) ->
  _get_segments_urls (mpd_master self) r = Ok d ->
  d !! Some "audio/mp4" = Some audio_urls ->
  d !! Some "video/mp4" = Some video_urls ->
  exists new,
    net w' = net w1 ++ new
    /\ map fst (downloads env (net w1) new)
       = distinct audio_urls ++ (if audio_only self then [] else distinct video_urls).
Proof.
  intros Hrun Hres Hkey Hd Haudio Hvideo.
  unfold download in Hrun. rewrite (bind_run _ _ w w r) in Hrun by (unfold lift; by rewrite Hres).
  rewrite (bind_run _ _ _ _ _ Hkey) in Hrun.
  rewrite (bind_run _ _ w1 w1 audio_urls) in Hrun
    by (unfold lift, dict_getitem; rewrite Hd; cbn [rbind]; by rewrite Haudio).
  rewrite (bind_run _ _ w1 w1 video_urls) in Hrun
    by (unfold lift, dict_getitem; rewrite Hd; cbn [rbind]; by rewrite Hvideo).
  set (elements := if audio_only self then _ else _) in Hrun.
  assert (Hurls : urls_to_fetch elements
                  = distinct audio_urls ++ (if audio_only self then [] else distinct video_urls)).
  { subst elements. destruct (audio_only self); cbn; by rewrite ?app_nil_r. }
  assert (Htail : forall els,
            respects same_net
              (_ <- match key with
                    | Some k => if truthy_str key then decrypt_elements env self k els
                                else ret tt
                    | None => ret tt
                    end ;;
               last_el <- lift (subscript els (length els - 1)) ;;
               out <- lift (with_suffix (Path filepath) (el_suffix last_el)) ;;
               _ <- on_fs (mkdir_parents (parent out)) ;;
               if negb (audio_only self) then _merge_tracks env self (map el_tmp_path els) out
               else first_el <- lift (subscript els 0) ;;
                    on_fs (move (el_tmp_path first_el) out))).
  { intros els.
    assert (Hret : forall A (a : A), respects same_net (ret a))
      by (by intros A a w0 r0 w0' [= _ <-]).
    assert (Hlift : forall A (x : result A), respects same_net (lift x))
      by (by intros A x w0 r0 w0' [= _ <-]).
    apply respects_bind; [apply same_net_trans | |].
    { destruct key as [k|]; [|apply Hret].
      destruct (truthy_str (Some k)); [apply same_net_decrypt_elements | apply Hret]. }
    intros _. apply respects_bind; [apply same_net_trans | apply Hlift |]. intros last_el.
    apply respects_bind; [apply same_net_trans | apply Hlift |]. intros out.
    apply respects_bind; [apply same_net_trans | apply same_net_on_fs |]. intros _.
    destruct (negb (audio_only self)).
    - apply same_net_Popen. by intros w0 r0 w0' [= _ <-].
    - apply respects_bind; [apply same_net_trans | apply Hlift |]. intros first_el.
      apply same_net_on_fs. }
  unfold bind at 1 in Hrun.
  destruct (fetch_elements env self key elements w1) as [[els|e] w2] eqn:Hfetch; [|done].
  destruct (fetch_elements_requests _ _ _ _ _ _ _ Hfetch) as (new & Hnet & Hnew).
  apply Htail in Hrun. unfold same_net in Hrun.
  exists new. split; [congruence | by rewrite Hnew].
Qed.

Lemma download_fetches_track_by_track_example :
  let w' := snd (download (env_merging clearkey_answer) (downloader_of mpd_clear false)
                   "out/o" None world0) in
  exists new,
    net w' = net world0 ++ new
    /\ map fst (downloads (env_merging clearkey_answer) (net world0) new)
       = distinct ["au/1"; "au/2"; "au/1"] ++ distinct ["v720/a"; "v720/b"].
Proof.
  intros w'.
  refine (download_fetches_track_by_track (env_merging clearkey_answer)
            (downloader_of mpd_clear false) "out/o" None world0 w' world0
            (Some 1280%Z, Some 720%Z) None
            (<[Some "video/mp4" := ["v720/a"; "v720/b"]]>
               (<[Some "audio/mp4" := ["au/1"; "au/2"; "au/1"]]> ∅))
            ["au/1"; "au/2"; "au/1"] ["v720/a"; "v720/b"]
            _ eq_refl eq_refl _ eq_refl eq_refl).
  - vm_compute. reflexivity.
  - vm_compute. reflexivity.
Defined.

Lemma del_without_directory (self : VideoDownloader) (w : world) :
  temp_path self <> [] ->
  fs w !! temp_path self = None ->
  __del__ self w = (Raise FileNotFoundError, w).
Proof.
  intros Hne Hnone. unfold __del__, on_fs, rmtree, path_exists. rewrite Hnone.
  destruct (temp_path self); [done|]. by destruct w.
Qed.

(** X23: the finaliser is [rmtree] without [ignore_errors], so it cannot
    be run twice: after a run that removed the temporary directory, a
    second run raises [FileNotFoundError] and changes nothing. *)
Theorem del_is_not_repeatable (self : VideoDownloader) (w : world) :
  temp_path self <> [] ->
  fs w !! temp_path self = Some Dir ->
  exists w',
    __del__ self w = (Ok tt, w')
    /\ __del__ self w' = (Raise FileNotFoundError, w').
Proof.
  intros Hne Hdir. destruct (del_tears_down self w Hne Hdir) as (w' & Hdel & Hgone & _).
  exists w'. split; [exact Hdel|]. apply del_without_directory; [done|]. by apply Hgone.
Qed.

Lemma del_is_not_repeatable_example :
  exists w',
    __del__ (downloader_of mpd_example false) world_open = (Ok tt, w')
    /\ __del__ (downloader_of mpd_example false) w' = (Raise FileNotFoundError, w').
Proof.
  apply (del_is_not_repeatable (downloader_of mpd_example false) world_open).
  - discriminate.
  - reflexivity.
Defined.

(** * Equal heights *)
Section Stable.
Context {A : Type}.

Lemma insert_by_key_filter (h : Z) (x : Z * A) (l : list (Z * A)) :
  filter (fun e => fst e = h) (insert_by_key x l) = filter (fun e => fst e = h) (x :: l).
Proof.
  induction l as [|y r IH]; [done|]. cbn [insert_by_key].
  destruct (Z.leb_spec (fst x) (fst y)) as [Hle|Hgt]; [done|].
  rewrite (filter_cons _ y), IH, !(filter_cons _ x), (filter_cons _ y).
  destruct (decide (fst y = h)) as [Hy|Hy]; [|done].
  destruct (decide (fst x = h)) as [Hx|Hx]; [lia | done].
Qed.

Lemma sort_by_key_filter (h : Z) (l : list (Z * A)) :
  filter (fun e => fst e = h) (sort_by_key l) = filter (fun e => fst e = h) l.
Proof.
  induction l as [|x r IH]; [done|]. cbn [sort_by_key].
  by rewrite insert_by_key_filter, !filter_cons, IH.
Qed.

Lemma filter_decorated (key : A -> option Z) (h : Z) (d : list (Z * A)) :
  Forall (fun e => key (snd e) = Some (fst e)) d ->
  filter (fun x => key x = Some h) (map snd d) = map snd (filter (fun e => fst e = h) d).
Proof.
  induction 1 as [|e d He _ IH]; [done|]. cbn [map]. rewrite !filter_cons, IH.
  destruct (decide (fst e = h)) as [Hh|Hh].
  - rewrite decide_True by (by rewrite He, Hh). done.
  - rewrite decide_False by (rewrite He; congruence). done.
Qed.

(** [sorted] is stable: the elements of one key keep their order. *)
Lemma sorted_stable (key : A -> option Z) (xs l : list A) (h : Z) :
  sorted key (Some xs) = Ok l ->
  filter (fun x => key x = Some h) l = filter (fun x => key x = Some h) xs.
Proof.
  unfold sorted. cbn [iter rbind].
  destruct xs as [|x [|y r]]; [by intros [= <-] | by intros [= <-] |].
  destruct (mapM (decorate key) (x :: y :: r)) as [d|] eqn:Hd; [|done].
  cbn [rbind]. intros [= <-].
  assert (Hdec : map snd d = x :: y :: r /\ Forall (fun e => key (snd e) = Some (fst e)) d).
  { clear -Hd. revert d Hd. generalize (x :: y :: r). intros xs.
    induction xs as [|a xs IH]; intros d; cbn [mapM].
    - by intros [= <-].
    - unfold decorate at 1. destruct (key a) as [z|] eqn:Hz; [|done]. cbn [rbind].
      destruct (mapM (decorate key) xs) as [d'|]; [|done]. cbn [rbind]. intros [= <-].
      destruct (IH d' eq_refl) as [Hs Hk]. cbn [map snd]. rewrite Hs.
      split; [done|]. by constructor. }
  destruct Hdec as [Hs Hk].
  rewrite (filter_decorated key) by (by rewrite sort_by_key_perm).
  by rewrite sort_by_key_filter, <- (filter_decorated key), Hs.
Qed.
End Stable.

(** X24: representations of equal height keep their manifest order in
    [get_resolutions]: for every height, the listed resolutions of that
    height are those of the video set, in the order of the manifest. *)
Theorem get_resolutions_keeps_manifest_order (mpd : MPEGDASH) (p : Period)
    (ps : list Period) (pre post : list AdaptationSet) (a : AdaptationSet)
    (reps : list Representation) (listed : list resolution) (h : Z) :
  periods mpd = Some (p :: ps) ->
  adaptation_sets p = Some (pre ++ a :: post) ->
  Forall lacks_height pre ->
  representations a = Some reps ->
  (exists r rs, reps = r :: rs /\ truthy_int (height r) = true) ->
  get_resolutions mpd = Ok (Some listed) ->
  filter (fun r : resolution => snd r = Some h) listed
  = map resolution_of (filter (fun rep => height rep = Some h) reps).
Proof.
  intros Hp Hsets Hpre Hreps (r & rs & -> & Hr). unfold get_resolutions.
  rewrite Hp. simpl. rewrite Hsets. simpl.
  rewrite get_resolutions_loop_skip by done. simpl. rewrite Hreps. simpl. rewrite Hr.
  destruct (sorted height (Some (r :: rs))) as [l|] eqn:Hl; [|done].
  cbn [rbind]. intros [= <-].
  rewrite <- (sorted_stable height _ _ h Hl).
  clear. induction l as [|x l IH]; [done|]. cbn [map]. rewrite !filter_cons, IH.
  unfold resolution_of at 1. cbn [snd]. by destruct (decide (height x = Some h)).
Qed.

Lemma get_resolutions_keeps_manifest_order_example :
  filter (fun r : resolution => snd r = Some 720%Z)
    [(Some 640%Z, Some 360%Z); (Some 1280%Z, Some 720%Z); (Some 960%Z, Some 720%Z)]
  = map resolution_of
      (filter (fun rep => height rep = Some 720%Z)
         [ representation_of (Some 1280%Z) (Some 720%Z) "wide/" ["a"];
           representation_of (Some 640%Z) (Some 360%Z) "low/" ["a"];
           representation_of (Some 960%Z) (Some 720%Z) "narrow/" ["a"] ]).
Proof.
  apply (get_resolutions_keeps_manifest_order mpd_twin
           {| adaptation_sets := Some [audio_set; twin_video_set] |} []
           [audio_set] [] twin_video_set _ _ 720%Z eq_refl eq_refl).
  - constructor; [exact audio_set_lacks_height | constructor].
  - reflexivity.
  - by eexists _, _.
  - reflexivity.
Defined.
